(** * hvac-fan-gait-study: fan model, operating-point solver, speed
      selection and time simulation

    A shallow embedding of [fan.py], [controller.py] and [simulate.py],
    with [system.py], [build_profiles] of [demand.py] and
    [_savings_vs_fixed] of [report_summary.py].

    Numbers.  Python floats are read as exact rationals ([Q], compared up
    to [==]); rounding, NaN and infinities are outside this model, and so
    is the [OverflowError] of a float power whose result leaves the double
    range.  What a Python float operation does observably beyond its value
    is kept otherwise: a float division by [0.0] raises
    [ZeroDivisionError], [min]/[max]/[argmin] of an empty sequence raise
    [ValueError], an index past the end of a sequence raises [IndexError].
    The float power [x ** y] at a float exponent is irrational in general
    and is kept abstract (class [FloatPow]); [pow_int] is its value at
    integral exponents.  The sine and [pi] of [build_profiles] are kept
    abstract likewise (class [FloatTrig]).

    Module [F64] evaluates the fan curve and the grid search in binary64,
    operation by operation; it decides what depends on rounding or on the
    double range. *)

From Stdlib Require Import QArith Qabs Qround Qminmax Qpower Lqa Lia Sorted.
From Stdlib Require PrimFloat Uint63.
From stdpp Require Import base list.

Set Warnings "-inexact-float".
Open Scope Q_scope.

(** ** Python exceptions and the result monad *)

Inductive exn : Set :=
  ZeroDivisionError | ValueError | IndexError | OverflowError.

Inductive res (A : Type) : Type :=
| Ok (a : A)
| Raise (e : exn).
Arguments Ok {A} a.
Arguments Raise {A} e.

#[global] Instance res_ret : MRet res := fun A a => Ok a.
#[global] Instance res_bind : MBind res := fun A B f m =>
  match m with Ok a => f a | Raise e => Raise e end.
#[global] Instance res_fmap : FMap res := fun A B f m =>
  match m with Ok a => Ok (f a) | Raise e => Raise e end.

(** [for x in xs: ...] building a list, stopping at the first exception. *)
Fixpoint for_each {A B} (f : A -> res B) (xs : list A) : res (list B) :=
  match xs with
  | [] => Ok []
  | x :: xs' => y ← f x; ys ← for_each f xs'; Ok (y :: ys)
  end.

(** ** Float primitives *)

Definition Qlt_bool (a b : Q) : bool := negb (Qle_bool b a).
Infix "<?" := Qlt_bool (at level 70, no associativity) : Q_scope.
Infix "<=?" := Qle_bool (at level 70, no associativity) : Q_scope.

(** [a / b] on Python floats. *)
Definition fdiv (a b : Q) : res Q :=
  if Qeq_bool b 0 then Raise ZeroDivisionError else Ok (a / b).

(** Builtin [max(a, b)]: [b] replaces [a] only when [b > a]. *)
Definition py_max (a b : Q) : Q := if a <? b then b else a.

(** [np.maximum], [np.minimum], [np.clip(x, lo, hi)]. *)
Definition np_maximum (a b : Q) : Q := if a <? b then b else a.
Definition np_minimum (a b : Q) : Q := if b <? a then b else a.
Definition np_clip (x lo hi : Q) : Q := np_minimum (np_maximum x lo) hi.

(** The float power [x ** y]. *)
Class FloatPow := fpow : Q -> Q -> Q.

(** [x ** y] at an integral exponent [y]. *)
Definition pow_int : FloatPow := fun x y => x ^ Qfloor y.

(** Literals of the source. *)
Definition eps9 : Q := 1 # 1000000000.   (* 1e-9 *)
Definition eps3 : Q := 1 # 1000.         (* 1e-3 *)

(** ** fan.py *)

Record FanCurve : Set := mkFanCurve {
  Q_free_ref_cfm : Q;
  dP_shut_ref_Pa : Q;
  N_ref_rpm : Q;
  n_shape : Q
}.

Definition from_bep (Q_bep_cfm dP_bep_Pa N_ref n : Q) : FanCurve :=
  let Q_free := Q_bep_cfm / (6 # 10) in
  let dP_shut := dP_bep_Pa / (6 # 10) in
  mkFanCurve Q_free dP_shut N_ref n.

Definition free_delivery_cfm (fan : FanCurve) (N : Q) : res Q :=
  r ← fdiv N (N_ref_rpm fan); Ok (Q_free_ref_cfm fan * r).

Definition shutoff_pressure_Pa (fan : FanCurve) (N : Q) : res Q :=
  r ← fdiv N (N_ref_rpm fan); Ok (dP_shut_ref_Pa fan * r ^ 2).

Section Fan.
Context {pw : FloatPow}.

(** One element of [dP_at]: [x = clip(Q / max(Q_free, 1e-9), 0, 10)],
    [dP = dP_shut * maximum(1 - x ** n_shape, 0)].  The divisor is at
    least [1e-9], so this division cannot raise. *)
Definition dP_elem (fan : FanCurve) (Q_free dP_shut q : Q) : Q :=
  let x := np_clip (q / py_max Q_free eps9) 0 10 in
  dP_shut * np_maximum (1 - fpow x (n_shape fan)) 0.

(** [FanCurve.dP_at] on an array of airflows ([np.asarray(Q_cfm)]; a
    scalar airflow is the one-element case). *)
Definition dP_at (fan : FanCurve) (Q_cfm : list Q) (N : Q) : res (list Q) :=
  Q_free ← free_delivery_cfm fan N;
  dP_shut ← shutoff_pressure_Pa fan N;
  Ok (dP_elem fan Q_free dP_shut <$> Q_cfm).
End Fan.

(** ** numpy and builtin helpers used by controller.py *)

(** [seq[i]] at an index [i >= 0]. *)
Definition index {A} (l : list A) (i : nat) : res A :=
  match l !! i with
  | Some x => Ok x
  | None => Raise IndexError
  end.

(** [np.linspace(start, stop, num)]: [arange(num) * step + start] with
    [step = (stop - start) / (num - 1)]. *)
Definition np_linspace (start stop : Q) (num : nat) : list Q :=
  let step := (stop - start) / inject_Z (Z.of_nat (num - 1)) in
  (fun j => inject_Z (Z.of_nat j) * step + start) <$> seq 0 num.

(** [np.argmin]: the first index of the least element; an empty array
    raises [ValueError]. *)
Fixpoint argmin_from (l : list Q) (i bi : nat) (bv : Q) : nat :=
  match l with
  | [] => bi
  | x :: l' =>
      if x <? bv then argmin_from l' (S i) i x
      else argmin_from l' (S i) bi bv
  end.

Definition np_argmin (l : list Q) : res nat :=
  match l with
  | [] => Raise ValueError
  | x :: l' => Ok (argmin_from l' 1 0 x)
  end.

(** Builtin [min(xs, key=...)] and [max(xs, key=...)]: the first element
    with the least (greatest) key; an empty sequence raises [ValueError]. *)
Fixpoint min_by_from {A} (key : A -> Q) (best : A) (l : list A) : A :=
  match l with
  | [] => best
  | x :: l' =>
      if key x <? key best then min_by_from key x l'
      else min_by_from key best l'
  end.

Fixpoint max_by_from {A} (key : A -> Q) (best : A) (l : list A) : A :=
  match l with
  | [] => best
  | x :: l' =>
      if key best <? key x then max_by_from key x l'
      else max_by_from key best l'
  end.

Definition py_min_by {A} (key : A -> Q) (l : list A) : res A :=
  match l with
  | [] => Raise ValueError
  | x :: l' => Ok (min_by_from key x l')
  end.

Definition py_max_by {A} (key : A -> Q) (l : list A) : res A :=
  match l with
  | [] => Raise ValueError
  | x :: l' => Ok (max_by_from key x l')
  end.

(** ** controller.py *)

Definition n_grid_default : nat := 800.
Definition iters_default : nat := 24.

(** A mode triple [(rpm, Qop, P)]. *)
Definition triple : Set := (Q * Q * Q)%type.
Definition t_rpm (z : triple) : Q := z.1.1.
Definition t_Qop (z : triple) : Q := z.1.2.
Definition t_P (z : triple) : Q := z.2.

(** The type of the [power_fn] argument, called as
    [power_fn(fan, Qop, rpm, P_bep_ref_W, N_ref_rpm)]. *)
Definition power_fn_t : Type := FanCurve -> Q -> Q -> Q -> Q -> res Q.

Section Controller.
Context {pw : FloatPow}.

Definition operating_point_Q (fan : FanCurve) (k rpm : Q) (n_grid : nat)
  : res Q :=
  Q_free ← free_delivery_cfm fan rpm;
  if Q_free <=? eps9 then Ok 0
  else
    let Qs := np_linspace 0 Q_free n_grid in
    dP_fan ← dP_at fan Qs rpm;
    let dP_sys := (fun q => k * q ^ 2) <$> Qs in
    i ← np_argmin (zip_with (fun a b => Qabs (a - b)) dP_fan dP_sys);
    index Qs i.

(** [operating_point_Q(fan, k, rpm)] with the default grid. *)
Definition opQ (fan : FanCurve) (k rpm : Q) : res Q :=
  operating_point_Q fan k rpm n_grid_default.

(** The bisection loop of [solve_rpm_for_Q], [iters] iterations left.
    [tr] lists the speeds at which the operating point has been
    evaluated so far, in order. *)
Fixpoint bisect (fan : FanCurve) (k Q_target eps_cfm : Q) (iters : nat)
    (lo hi : Q) (tr : list Q) : res ((Q * Q) * list Q) :=
  match iters with
  | O =>
      let rpm := (1 # 2) * (lo + hi) in
      Qop ← opQ fan k rpm;
      Ok ((rpm, Qop), tr ++ [rpm])
  | S n =>
      let mid := (1 # 2) * (lo + hi) in
      Qm ← opQ fan k mid;
      if Qm <? Q_target - eps_cfm then
        bisect fan k Q_target eps_cfm n mid hi (tr ++ [mid])
      else if Q_target + eps_cfm <? Qm then
        bisect fan k Q_target eps_cfm n lo mid (tr ++ [mid])
      else Ok ((mid, Qm), tr ++ [mid])
  end.

(** [solve_rpm_for_Q], returning with the pair [(rpm, Q)] the speeds at
    which it evaluated the operating point. *)
Definition solve_rpm_for_Q_traced (fan : FanCurve)
    (k Q_target rpm_lo rpm_hi eps_cfm : Q) (iters : nat)
  : res ((Q * Q) * list Q) :=
  Q_lo ← opQ fan k rpm_lo;
  Q_hi ← opQ fan k rpm_hi;
  if Q_target <=? Q_lo + eps_cfm then Ok ((rpm_lo, Q_lo), [rpm_lo; rpm_hi])
  else if Q_hi - eps_cfm <=? Q_target then
    Ok ((rpm_hi, Q_hi), [rpm_lo; rpm_hi])
  else bisect fan k Q_target eps_cfm iters rpm_lo rpm_hi [rpm_lo; rpm_hi].

Definition solve_rpm_for_Q (fan : FanCurve)
    (k Q_target rpm_lo rpm_hi eps_cfm : Q) (iters : nat) : res (Q * Q) :=
  fst <$> solve_rpm_for_Q_traced fan k Q_target rpm_lo rpm_hi eps_cfm iters.

(** The [for rpm in speeds_rpm] loop of [choose_mode_min_power]. *)
Definition mode_triple (fan : FanCurve) (k : Q) (power_fn : power_fn_t)
    (P_bep_ref_W N_ref : Q) (rpm : Q) : res triple :=
  Qop ← opQ fan k rpm;
  P ← power_fn fan Qop rpm P_bep_ref_W N_ref;
  Ok (rpm, Qop, P).

Definition feasible (Q_target eps_cfm : Q) (z : triple) : bool :=
  Q_target - eps_cfm <=? t_Qop z.

Definition choose_mode_min_power (fan : FanCurve) (k : Q)
    (speeds_rpm : list Q) (Q_target eps_cfm : Q) (power_fn : power_fn_t)
    (P_bep_ref_W N_ref : Q) : res (Q * Q) :=
  triples ← for_each (mode_triple fan k power_fn P_bep_ref_W N_ref)
              speeds_rpm;
  let feas := List.filter (feasible Q_target eps_cfm) triples in
  match feas with
  | _ :: _ =>
      z ← py_min_by t_P feas; Ok (t_rpm z, t_Qop z)
  | [] =>
      z ← py_max_by t_Qop triples; Ok (t_rpm z, t_Qop z)
  end.
End Controller.

(** ** simulate.py: the power model *)

(** [denom = x_bep**2 - x_bep if abs(x_bep**2 - x_bep) > 1e-9 else -1e-3] *)
Definition calib_denom (x_bep : Q) : Q :=
  if eps9 <? Qabs (x_bep ^ 2 - x_bep) then x_bep ^ 2 - x_bep else - eps3.

(** The coefficients [(b1, b2)] that [power_model_convex] ends up with. *)
Definition convex_coeffs (idle_frac gamma_free x_bep : Q) : Q * Q :=
  let p0 := idle_frac in
  let denom := calib_denom x_bep in
  let b2 := (1 - p0 - x_bep * (gamma_free - p0)) / denom in
  let b1 := (gamma_free - p0) - b2 in
  if (b2 <=? 0) || (b1 + 2 * b2 <=? 0) then
    let b2 := py_max ((2 # 10) * (gamma_free - 1)) eps3 in
    let b1 := (gamma_free - p0) - b2 in
    (b1, b2)
  else (b1, b2).

(** [power_model_convex].  [Q_cfm / Q_free] divides by at least [1e-9] and
    [denom] is never [0], so only [rpm / N_ref_rpm] (and the ratio inside
    [free_delivery_cfm]) can raise. *)
Definition power_model_convex (fan : FanCurve)
    (Q_cfm rpm P_bep_ref_W N_ref idle_frac gamma_free x_bep : Q) : res Q :=
  fd ← free_delivery_cfm fan rpm;
  let Q_free := py_max fd eps9 in
  let x := np_clip (Q_cfm / Q_free) 0 1 in
  let p0 := idle_frac in
  let '(b1, b2) := convex_coeffs idle_frac gamma_free x_bep in
  r ← fdiv rpm N_ref;
  let P_bep_N := P_bep_ref_W * r ^ 3 in
  Ok (P_bep_N * (p0 + b1 * x + b2 * x ^ 2)).

(** The keyword defaults [idle_frac=0.22, gamma_free=2.0, x_bep=0.60]. *)
Definition idle_frac_default : Q := 22 # 100.
Definition gamma_free_default : Q := 2.
Definition x_bep_default : Q := 6 # 10.

(** [power_model_convex] called with five arguments, as [power_fn] is. *)
Definition power_model_convex_5 : power_fn_t :=
  fun fan Q_cfm rpm P_bep_ref_W N_ref =>
    power_model_convex fan Q_cfm rpm P_bep_ref_W N_ref
      idle_frac_default gamma_free_default x_bep_default.

(** ** simulate.py: numpy reductions *)

Definition np_sum (l : list Q) : Q := foldr Qplus 0 l.

(** [c.sum()] of a boolean array and [len(c)], as numbers. *)
Definition count_true (c : list bool) : Q :=
  inject_Z (Z.of_nat (length (List.filter id c))).
Definition len {A} (l : list A) : Q := inject_Z (Z.of_nat (length l)).

(** [np.diff(t)]: [t[1:] - t[:-1]]. *)
Definition np_diff (t : list Q) : list Q :=
  zip_with (fun a b => b - a) t (tail t).

Fixpoint insert_sorted (x : Q) (l : list Q) : list Q :=
  match l with
  | [] => [x]
  | y :: l' => if x <=? y then x :: l else y :: insert_sorted x l'
  end.

Definition np_sort (l : list Q) : list Q := foldr insert_sorted [] l.

(** [np.median] of a non-empty array: the middle element of the sorted
    array, or the mean of the two middle ones.  (On an empty array numpy
    gives NaN; [run_time_sim] guards the call by [len(t) > 1].) *)
Definition np_median (l : list Q) : Q :=
  let s := np_sort l in
  let n := length s in
  if Nat.even n then
    (nth (n / 2 - 1) s 0 + nth (n / 2) s 0) / 2
  else nth (n / 2) s 0.

(** ** simulate.py: the time simulation *)

(** The columns [Q_p], [rpm_p], [P_p], [c_p], [s_p], [o_p] of one
    strategy [p]. *)
Record StratCols : Set := mkStratCols {
  col_Q : list Q;
  col_rpm : list Q;
  col_P : list Q;
  col_c : list bool;
  col_s : list Q;
  col_o : list Q
}.

(** The [data] dictionary. *)
Record SimData : Set := mkSimData {
  d_t : list Q;
  d_Qd : list Q;
  d_k : list Q;
  d_fixed : StratCols;
  d_modes : StratCols;
  d_var : StratCols
}.

(** The keyword arguments of [run_time_sim]. *)
Record SimConfig : Set := mkSimConfig {
  speeds_rpm : list Q;
  fixed_rpm : Q;
  P_bep_ref_W : Q;
  cfg_N_ref_rpm : Q;
  idle_frac : Q;
  gamma_free : Q;
  x_bep : Q;
  rpm_bounds : option (Q * Q);
  eps_cfm : Q;
  lambda_shortfall : Q
}.

(** One record of [_agg]. *)
Record AggMetrics : Set := mkAgg {
  Wh : Q;
  cfmh_delivered : Q;
  cfmh_shortfall : Q;
  cfmh_oversupply : Q;
  compliance_pct : Q;
  SFP : Q;
  objective : Q
}.

Record Metrics : Set := mkMetrics {
  m_fixed : AggMetrics;
  m_modes : AggMetrics;
  m_var : AggMetrics;
  m_eps_cfm : Q;
  m_lambda_shortfall : Q
}.

(** The data frame with its [attrs["dt_s"]]. *)
Record DataFrame : Set := mkDataFrame {
  df_data : SimData;
  df_dt_s : Q
}.

Definition zeros (T : nat) : list Q := replicate T 0.

(** [np.zeros(T)] columns; [rpm] is [np.full(T, fixed_rpm)] for the fixed
    strategy and [np.zeros(T)] for the others. *)
Definition init_cols (T : nat) (rpm0 : Q) : StratCols :=
  mkStratCols (zeros T) (replicate T rpm0) (zeros T)
              (replicate T false) (zeros T) (zeros T).

(** Compliance, shortfall and oversupply of one step. *)
Definition compliant (Qx Qd eps : Q) : bool := Qabs (Qx - Qd) <=? eps.
Definition shortfall (Qx Qd eps : Q) : Q := py_max 0 (Qd - Qx - eps).
Definition oversupply (Qx Qd eps : Q) : Q := py_max 0 (Qx - Qd - eps).

(** The assignments [data["Q_p"][i] = Qx; ...] of one strategy at step
    [i]; [rpm] is [None] for the fixed strategy, whose speed column is
    not written in the loop.  [i < T] in the loop, so every write is in
    range. *)
Definition store (cols : StratCols) (i : nat) (rpm : option Q)
    (Qx P Qd eps : Q) : StratCols :=
  mkStratCols
    (<[i := Qx]> (col_Q cols))
    (match rpm with Some r => <[i := r]> (col_rpm cols) | None => col_rpm cols end)
    (<[i := P]> (col_P cols))
    (<[i := compliant Qx Qd eps]> (col_c cols))
    (<[i := shortfall Qx Qd eps]> (col_s cols))
    (<[i := oversupply Qx Qd eps]> (col_o cols)).

(** [pd.DataFrame(data)]: pandas refuses columns of different lengths
    with a [ValueError].  Every column made by [run_time_sim] has length
    [len(t)]; [Qd] and [k] are the caller's. *)
Definition pd_DataFrame (data : SimData) : res SimData :=
  let T := length (d_t data) in
  if Nat.eqb (length (d_Qd data)) T && Nat.eqb (length (d_k data)) T
  then Ok data else Raise ValueError.

(** [_agg(prefix)] on the columns of one strategy. *)
Definition _agg (cols : StratCols) (dt lam : Q) : AggMetrics :=
  let Wh := (np_sum (col_P cols) * dt) / 3600 in
  let cfmh_delivered := (np_sum (col_Q cols) * dt) / 3600 in
  let cfmh_shortfall := (np_sum (col_s cols) * dt) / 3600 in
  let cfmh_oversupply := (np_sum (col_o cols) * dt) / 3600 in
  let compliance_pct := 100 * (count_true (col_c cols) / len (col_c cols)) in
  let SFP_W_per_CFM := Wh / py_max cfmh_delivered eps9 in
  let objective := Wh + lam * cfmh_shortfall in
  mkAgg Wh cfmh_delivered cfmh_shortfall cfmh_oversupply compliance_pct
        SFP_W_per_CFM objective.

Section Simulate.
Context {pw : FloatPow}.

(** The body of [for i in range(T)]. *)
Definition sim_step (fan : FanCurve) (cfg : SimConfig) (rpm_lo rpm_hi : Q)
    (i : nat) (data : SimData) : res SimData :=
  k ← index (d_k data) i;
  Qd ← index (d_Qd data) i;
  let pmc Qx rpm :=
    power_model_convex fan Qx rpm (P_bep_ref_W cfg) (cfg_N_ref_rpm cfg)
      (idle_frac cfg) (gamma_free cfg) (x_bep cfg) in
  (* FIXED *)
  Qf ← opQ fan k (fixed_rpm cfg);
  Pf ← pmc Qf (fixed_rpm cfg);
  let fixed' := store (d_fixed data) i None Qf Pf Qd (eps_cfm cfg) in
  (* MODES *)
  m ← choose_mode_min_power fan k (speeds_rpm cfg) Qd (eps_cfm cfg)
        power_model_convex_5 (P_bep_ref_W cfg) (cfg_N_ref_rpm cfg);
  let '(rpm_m, Qm) := m in
  Pm ← pmc Qm rpm_m;
  let modes' := store (d_modes data) i (Some rpm_m) Qm Pm Qd (eps_cfm cfg) in
  (* VARIABLE *)
  v ← solve_rpm_for_Q fan k Qd rpm_lo rpm_hi (eps_cfm cfg) iters_default;
  let '(rpm_v, Qv) := v in
  Pv ← pmc Qv rpm_v;
  let var' := store (d_var data) i (Some rpm_v) Qv Pv Qd (eps_cfm cfg) in
  Ok (mkSimData (d_t data) (d_Qd data) (d_k data) fixed' modes' var').

(** The loop over the indices [idxs]. *)
Fixpoint sim_steps (fan : FanCurve) (cfg : SimConfig) (rpm_lo rpm_hi : Q)
    (idxs : list nat) (data : SimData) : res SimData :=
  match idxs with
  | [] => Ok data
  | i :: idxs' =>
      data' ← sim_step fan cfg rpm_lo rpm_hi i data;
      sim_steps fan cfg rpm_lo rpm_hi idxs' data'
  end.

(** [rpm_bounds if rpm_bounds else (min(speeds_rpm), max(speeds_rpm))] *)
Definition bounds (cfg : SimConfig) : res (Q * Q) :=
  match rpm_bounds cfg with
  | Some b => Ok b
  | None =>
      lo ← py_min_by id (speeds_rpm cfg);
      hi ← py_max_by id (speeds_rpm cfg);
      Ok (lo, hi)
  end.

(** [np.median(np.diff(t)) if len(t) > 1 else 1.0] *)
Definition time_step (t : list Q) : Q :=
  if Nat.ltb 1 (length t) then np_median (np_diff t) else 1.

Definition init_data (cfg : SimConfig) (t Q_demand k_t : list Q) : SimData :=
  let T := length t in
  mkSimData t Q_demand k_t (init_cols T (fixed_rpm cfg))
            (init_cols T 0) (init_cols T 0).

Definition run_time_sim (fan : FanCurve) (t Q_demand k_t : list Q)
    (cfg : SimConfig) : res (DataFrame * Metrics) :=
  b ← bounds cfg;
  let '(rpm_lo, rpm_hi) := b in
  let dt := time_step t in
  let T := length t in
  data ← sim_steps fan cfg rpm_lo rpm_hi (seq 0 T) (init_data cfg t Q_demand k_t);
  df ← pd_DataFrame data;
  let lam := lambda_shortfall cfg in
  let metrics :=
    mkMetrics (_agg (d_fixed df) dt lam) (_agg (d_modes df) dt lam)
              (_agg (d_var df) dt lam) (eps_cfm cfg) lam in
  Ok (mkDataFrame df dt, metrics).
End Simulate.

(** * The rest of the code: fan power, system curve, profiles, report *)

(** ** fan.py: [FanCurve.P_at] *)

(** [P_at] on an array of airflows.  The exponents [** 3] are integers;
    the two floored divisions cannot raise, the speed ratios can. *)
Definition P_at (fan : FanCurve) (Q_cfm : list Q)
    (N P_bep_ref_W Q_bep_ref_cfm : Q) : res (list Q) :=
  r ← fdiv N (N_ref_rpm fan);
  let scale_P := r ^ 3 in
  let alpha := (Q_bep_ref_cfm / py_max (Q_free_ref_cfm fan) eps9) ^ 3 in
  fd ← free_delivery_cfm fan N;
  Ok ((fun q => scale_P * (P_bep_ref_W / py_max alpha eps9)
                * (q / py_max fd eps9) ^ 3) <$> Q_cfm).

(** ** system.py *)

Record SystemCurve : Set := mkSystemCurve { sys_k : Q }.

(** [SystemCurve.dP_at]: [k * Q**2] on an array of airflows. *)
Definition system_dP_at (s : SystemCurve) (Q_cfm : list Q) : list Q :=
  (fun q => sys_k s * q ^ 2) <$> Q_cfm.

(** ** demand.py: [build_profiles] *)

(** [np.sin] and [np.pi], kept abstract. *)
Class FloatTrig := { fsin : Q -> Q; fpi : Q }.

(** [np.arange(start, stop, step)] on floats: [ceil((stop - start) / step)]
    samples [start + i * step]; the length is computed with a Python
    float division, which raises on a zero step. *)
Definition np_arange (start stop step : Q) : res (list Q) :=
  len_q ← fdiv (stop - start) step;
  let n := Z.to_nat (Qceiling len_q) in
  Ok ((fun i => start + inject_Z (Z.of_nat i) * step) <$> seq 0 n).

(** One entry of the resistance profile: [k_clean], overwritten on the
    ramp mask [(t >= t0) & (t <= t1)] by the linear ramp, overwritten past
    [t1] by [k_fouled]. *)
Definition fouling_at (t0 t1 k_clean k_fouled ti : Q) : Q :=
  let ramp :=
    k_clean + (k_fouled - k_clean) * (ti - t0) / py_max (t1 - t0) eps9 in
  let k0 := if (t0 <=? ti) && (ti <=? t1) then ramp else k_clean in
  if t1 <? ti then k_fouled else k0.

(** [build_profiles]: the times, the demand and the resistance.  (The
    array division [t / horizon_s] does not raise; for [horizon_s = 0]
    numpy gives NaN, outside this model.) *)
Definition build_profiles {tr : FloatTrig}
    (horizon_s dt_s Q_base_cfm Q_amp_cfm foul_start foul_end
       k_clean k_fouled : Q) : res (list Q * list Q * list Q) :=
  np_arange 0 (horizon_s + eps9) dt_s ≫= fun t : list Q =>
  let Q_dem :=
    (fun ti => Q_base_cfm + Q_amp_cfm * fsin (2 * fpi * ti / horizon_s))
      <$> t in
  let t0 := foul_start * horizon_s in
  let t1 := foul_end * horizon_s in
  let k := fouling_at t0 t1 k_clean k_fouled <$> t in
  Ok (t, Q_dem, k).

(** ** report_summary.py *)

(** [_savings_vs_fixed(m, wh_fixed)] *)
Definition _savings_vs_fixed (m : AggMetrics) (wh_fixed : Q) : Q :=
  100 * (wh_fixed - Wh m) / py_max wh_fixed eps9.

(** * Binary64 evaluation of the fan curve and the grid search *)

(** The functions of [fan.py] and [operating_point_Q] once more, on
    binary64 floats (Rocq's primitive floats): every float operation is
    rounded as Python and numpy round it.  On Python floats [x ** 2]
    raises [OverflowError] when a finite [x] has an infinite square;
    numpy's array operations do not raise.  The fan's shape exponent is
    [2.0] here, for which numpy evaluates [x ** n_shape] as [x * x].
    NaN arguments are not considered. *)
Module F64.
Import PrimFloat.
Local Open Scope float_scope.

Definition of_nat (n : nat) : float := of_uint63 (Uint63.of_Z (Z.of_nat n)).

Definition is_finite (x : float) : bool :=
  negb (is_nan x) && negb (is_infinity x).

(** [a / b] on Python floats. *)
Definition fdiv (a b : float) : res float :=
  if b =? 0 then Raise ZeroDivisionError else Ok (a / b).

(** [x ** 2] on Python floats. *)
Definition fsquare (x : float) : res float :=
  let p := x * x in
  if is_finite x && is_infinity p then Raise OverflowError else Ok p.

Definition py_max (a b : float) : float := if a <? b then b else a.
Definition np_maximum (a b : float) : float := if a <? b then b else a.
Definition np_minimum (a b : float) : float := if b <? a then b else a.
Definition np_clip (x lo hi : float) : float :=
  np_minimum (np_maximum x lo) hi.

(** A fan of shape [n_shape = 2.0]. *)
Record FanCurve : Set := mkFanCurve {
  Q_free_ref_cfm : float;
  dP_shut_ref_Pa : float;
  N_ref_rpm : float
}.

Definition from_bep (Q_bep_cfm dP_bep_Pa N_ref : float) : FanCurve :=
  mkFanCurve (Q_bep_cfm / 0.6) (dP_bep_Pa / 0.6) N_ref.

Definition free_delivery_cfm (fan : FanCurve) (N : float) : res float :=
  r ← fdiv N (N_ref_rpm fan); Ok (Q_free_ref_cfm fan * r).

Definition shutoff_pressure_Pa (fan : FanCurve) (N : float) : res float :=
  r ← fdiv N (N_ref_rpm fan);
  r2 ← fsquare r;
  Ok (dP_shut_ref_Pa fan * r2).

Definition dP_elem (Q_free dP_shut q : float) : float :=
  let x := np_clip (q / py_max Q_free 1e-9) 0 10 in
  dP_shut * np_maximum (1 - x * x) 0.

Definition dP_at (fan : FanCurve) (Q_cfm : list float) (N : float)
  : res (list float) :=
  Q_free ← free_delivery_cfm fan N;
  dP_shut ← shutoff_pressure_Pa fan N;
  Ok (dP_elem Q_free dP_shut <$> Q_cfm).

(** [np.linspace(start, stop, num)]: [arange(num) * step + start] with
    [step = (stop - start) / (num - 1)], the last sample then set to
    [stop].  (numpy takes another path when [step] is zero; the grid
    search calls it with [stop > 1e-9] and [start = 0].) *)
Definition np_linspace (start stop : float) (num : nat) : list float :=
  let delta := stop - start in
  let step := delta / of_nat (num - 1) in
  match num with
  | O => []
  | S O => [0 * delta + start]
  | S m => ((fun j => of_nat j * step + start) <$> seq 0 m) ++ [stop]
  end.

Fixpoint argmin_from (l : list float) (i bi : nat) (bv : float) : nat :=
  match l with
  | [] => bi
  | x :: l' =>
      if x <? bv then argmin_from l' (S i) i x
      else argmin_from l' (S i) bi bv
  end.

Definition np_argmin (l : list float) : res nat :=
  match l with
  | [] => Raise ValueError
  | x :: l' => Ok (argmin_from l' 1 0 x)
  end.

Definition operating_point_Q (fan : FanCurve) (k rpm : float) (n_grid : nat)
  : res float :=
  Q_free ← free_delivery_cfm fan rpm;
  if Q_free <=? 1e-9 then Ok 0
  else
    let Qs := np_linspace 0 Q_free n_grid in
    dP_fan ← dP_at fan Qs rpm;
    let dP_sys := (fun q => k * (q * q)) <$> Qs in
    i ← np_argmin (zip_with (fun a b => abs (a - b)) dP_fan dP_sys);
    index Qs i.

(** The fan of [main.py]: [FanCurve.from_bep(300, 120, 1200)]. *)
Definition demo_fan : FanCurve := from_bep 300 120 1200.
End F64.

(** * Definitions used to state the properties *)

(** The pressure of the specification at one airflow:
    [shutoffPressure × max(1 − x^n, 0)],
    [x = clamp(airflow / max(freeDelivery, ε), 0, 10)]. *)
Definition pressure_spec {pw : FloatPow} (n Q_free dP_shut q : Q) : Q :=
  let x := Qmin (Qmax (q / Qmax Q_free eps9) 0) 10 in
  dP_shut * Qmax (1 - fpow x n) 0.

(** Concrete inputs: the fan and the resistances of [params.py], as
    [main.py] builds them. *)
Definition demo_fan : FanCurve := from_bep 300 120 1200 2.
Definition k_clean : Q := 6 # 100000.
Definition k_fouled : Q := 4 # 10000.

(** A fan record whose reference speed is [0.0]. *)
Definition fan_Nref0 : FanCurve := mkFanCurve 500 200 0 2.

(** The list of [|dP_fan - dP_sys|] that [operating_point_Q] minimises. *)
Definition grid_gap {pw : FloatPow} (fan : FanCurve) (k Q_free dP_shut : Q)
    (Qs : list Q) : list Q :=
  (fun q => Qabs (dP_elem fan Q_free dP_shut q - k * q ^ 2)) <$> Qs.

(** The operating points of the demo fan at 500 and 2000 rpm (see
    [demo_opQ_500] and [demo_opQ_2000]). *)
Definition demo_Q_500 : Q := 1156500000 # 5752800.
Definition demo_Q_2000 : Q := 4626000000 # 5752800.

(** [z] sits in [l] after [before] and ahead of [after], strictly below
    (by [key]) everything in front of it and at or below everything
    behind it. *)
Definition first_min {A} (key : A -> Q) (l : list A) (z : A)
    (before after : list A) : Prop :=
  l = before ++ z :: after /\
  Forall (fun y => key z < key y) before /\
  Forall (fun y => key z <= key y) after.

Definition first_max {A} (key : A -> Q) (l : list A) (z : A)
    (before after : list A) : Prop :=
  l = before ++ z :: after /\
  Forall (fun y => key y < key z) before /\
  Forall (fun y => key y <= key z) after.

(** The two calibration constraints on a pair of coefficients. *)
Definition calibrated (p0 gamma xb c1 c2 : Q) : Prop :=
  p0 + c1 * xb + c2 * xb ^ 2 == 1 /\ p0 + c1 + c2 == gamma.

(** The fallback curvature [max(0.2·(gamma − 1), ε)]. *)
Definition fallback_b2 (gamma : Q) : Q := Qmax ((2 # 10) * (gamma - 1)) eps3.

(** One strategy's part of a frame, and a frame (a row of the data
    frame): time, demand, resistance and the three strategies. *)
Record StratRow : Set := mkStratRow {
  r_Q : Q;
  r_rpm : Q;
  r_P : Q;
  r_c : bool;
  r_s : Q;
  r_o : Q
}.

Record Frame : Set := mkFrame {
  f_t : Q;
  f_Qd : Q;
  f_k : Q;
  f_fixed : StratRow;
  f_modes : StratRow;
  f_var : StratRow
}.

Definition strat_row (c : StratCols) (i : nat) : StratRow :=
  mkStratRow (nth i (col_Q c) 0) (nth i (col_rpm c) 0) (nth i (col_P c) 0)
             (nth i (col_c c) false) (nth i (col_s c) 0) (nth i (col_o c) 0).

Definition frame_at (d : SimData) (i : nat) : Frame :=
  mkFrame (nth i (d_t d) 0) (nth i (d_Qd d) 0) (nth i (d_k d) 0)
          (strat_row (d_fixed d) i) (strat_row (d_modes d) i)
          (strat_row (d_var d) i).

(** The frames of a data frame, in time order. *)
Definition frames (d : SimData) : list Frame :=
  frame_at d <$> seq 0 (length (d_t d)).

(** All six columns of a strategy have [T] entries. *)
Definition cols_len (T : nat) (c : StratCols) : Prop :=
  length (col_Q c) = T /\ length (col_rpm c) = T /\ length (col_P c) = T /\
  length (col_c c) = T /\ length (col_s c) = T /\ length (col_o c) = T.

(** A strategy's entries of one step are those the loop body computes from
    the delivered airflow, the demand and the tolerance. *)
Definition row_ok (eps Qd : Q) (r : StratRow) : Prop :=
  r_c r = compliant (r_Q r) Qd eps /\
  r_s r = shortfall (r_Q r) Qd eps /\
  r_o r = oversupply (r_Q r) Qd eps.

(** The state of the loop once the steps [0 .. n-1] are done. *)
Definition sim_inv (cfg : SimConfig) (t Qd k : list Q) (n : nat)
    (d : SimData) : Prop :=
  d_t d = t /\ d_Qd d = Qd /\ d_k d = k /\
  cols_len (length t) (d_fixed d) /\ cols_len (length t) (d_modes d) /\
  cols_len (length t) (d_var d) /\
  forall i, (i < n)%nat ->
    row_ok (eps_cfm cfg) (nth i Qd 0) (strat_row (d_fixed d) i) /\
    row_ok (eps_cfm cfg) (nth i Qd 0) (strat_row (d_modes d) i) /\
    row_ok (eps_cfm cfg) (nth i Qd 0) (strat_row (d_var d) i).

(** [power_model_convex] with the shape parameters of the configuration,
    as the loop body calls it. *)
Definition pmc (fan : FanCurve) (cfg : SimConfig) (Qx rpm : Q) : res Q :=
  power_model_convex fan Qx rpm (P_bep_ref_W cfg) (cfg_N_ref_rpm cfg)
    (idle_frac cfg) (gamma_free cfg) (x_bep cfg).

(** What the loop body computes at step [i] from the resistance [kq] and
    the demand [Qd_i]: for each strategy the delivered airflow, the speed
    and the power. *)
Definition step_results {pw : FloatPow} (fan : FanCurve) (cfg : SimConfig)
    (lo hi kq Qd_i : Q) (Qf Pf rpm_m Qm Pm rpm_v Qv Pv : Q) : Prop :=
  opQ fan kq (fixed_rpm cfg) = Ok Qf /\
  pmc fan cfg Qf (fixed_rpm cfg) = Ok Pf /\
  choose_mode_min_power fan kq (speeds_rpm cfg) Qd_i (eps_cfm cfg)
    power_model_convex_5 (P_bep_ref_W cfg) (cfg_N_ref_rpm cfg)
    = Ok (rpm_m, Qm) /\
  pmc fan cfg Qm rpm_m = Ok Pm /\
  solve_rpm_for_Q fan kq Qd_i lo hi (eps_cfm cfg) iters_default
    = Ok (rpm_v, Qv) /\
  pmc fan cfg Qv rpm_v = Ok Pv.

(** The configuration under which no step can raise for a reason other
    than a missing input: non-zero reference speeds and at least one
    mode. *)
Definition sim_ready (fan : FanCurve) (cfg : SimConfig) : Prop :=
  ~ N_ref_rpm fan == 0 /\ ~ cfg_N_ref_rpm cfg == 0 /\ speeds_rpm cfg <> [].

(** The settings of [params.py] as [main.py] passes them. *)
Definition demo_cfg : SimConfig :=
  mkSimConfig [700; 800; 900; 1000] 900 40 1200 (22 # 100) 2 (6 # 10)
              (Some (500, 2000)) 5 (4 # 10).

(** [m] is the median of [l]: the middle value of [l] put in
    non-decreasing order, or the mean of its two middle values. *)
Definition is_median (l : list Q) (m : Q) : Prop :=
  exists s, Permutation l s /\ Sorted Qle s /\
    let n := length s in
    m = if Nat.even n then (nth (n / 2 - 1) s 0 + nth (n / 2) s 0) / 2
        else nth (n / 2) s 0.

(** [Σ f(frame)] over the frames, in time order. *)
Definition sum_frames (f : Frame -> Q) (frs : list Frame) : Q :=
  foldr (fun fr acc => f fr + acc) 0 frs.

Definition count_frames (f : Frame -> bool) (frs : list Frame) : nat :=
  length (List.filter f frs).

(** The aggregate record of the specification for the strategy [sel]. *)
Definition agg_spec (frs : list Frame) (sel : Frame -> StratRow)
    (dt lam : Q) (M : AggMetrics) : Prop :=
  Wh M = sum_frames (r_P ∘ sel) frs * dt / 3600 /\
  cfmh_delivered M = sum_frames (r_Q ∘ sel) frs * dt / 3600 /\
  cfmh_shortfall M = sum_frames (r_s ∘ sel) frs * dt / 3600 /\
  cfmh_oversupply M = sum_frames (r_o ∘ sel) frs * dt / 3600 /\
  compliance_pct M =
    100 * (inject_Z (Z.of_nat (count_frames (r_c ∘ sel) frs))
           / inject_Z (Z.of_nat (length frs))) /\
  SFP M = Wh M / Qmax (cfmh_delivered M) eps9 /\
  objective M = Wh M + lam * cfmh_shortfall M.

(** The grid in units of the free delivery: [j / (n - 1)], [j < n]. *)
Definition unit_grid (n : nat) : list Q :=
  (fun j => inject_Z (Z.of_nat j) / inject_Z (Z.of_nat (n - 1))) <$> seq 0 n.

(** The gap between the two curves at the fraction [u] of the free
    delivery, at the reference speed. *)
Definition unit_gap {pw : FloatPow} (fan : FanCurve) (k u : Q) : Q :=
  Qabs (dP_shut_ref_Pa fan
          * np_maximum (1 - fpow (np_clip u 0 10) (n_shape fan)) 0
        - k * (Q_free_ref_cfm fan * u) ^ 2).

(** The fraction of the free delivery that the grid search selects; it
    does not depend on the speed. *)
Definition u_star {pw : FloatPow} (fan : FanCurve) (k : Q) (n : nat) : Q :=
  match np_argmin (unit_gap fan k <$> unit_grid n) with
  | Ok j => nth j (unit_grid n) 0
  | Raise _ => 0
  end.


(** A frame holds what the loop body computes from the frame's own
    resistance and demand; the fixed strategy's speed is [fixed_rpm]. *)
Definition frame_results {pw : FloatPow} (fan : FanCurve) (cfg : SimConfig)
    (lo hi : Q) (fr : Frame) : Prop :=
  r_rpm (f_fixed fr) = fixed_rpm cfg /\
  step_results fan cfg lo hi (f_k fr) (f_Qd fr)
    (r_Q (f_fixed fr)) (r_P (f_fixed fr))
    (r_rpm (f_modes fr)) (r_Q (f_modes fr)) (r_P (f_modes fr))
    (r_rpm (f_var fr)) (r_Q (f_var fr)) (r_P (f_var fr)).

(** The state of the loop once the steps [0 .. n-1] are done, as to the
    airflows, speeds and powers. *)
Definition results_inv {pw : FloatPow} (fan : FanCurve) (cfg : SimConfig)
    (lo hi : Q) (T n : nat) (d : SimData) : Prop :=
  (forall i, (i < T)%nat -> nth i (col_rpm (d_fixed d)) 0 = fixed_rpm cfg) /\
  forall i, (i < n)%nat -> frame_results fan cfg lo hi (frame_at d i).

(** A stand-in for the sine with values in [[-1, 1]], to instantiate
    [FloatTrig] in examples. *)
Definition trig_clamp : FloatTrig :=
  {| fsin := fun x => np_clip x (-1) 1; fpi := 355 # 113 |}.

(** Magnitudes up to [1e100]: a reference shutoff pressure and a speed
    ratio within this bound keep the shutoff pressure below [1e300], within
    the double range. *)
Definition range_bound : Q := 10 ^ 100.

(** * Properties *)

(** ** Comparisons, maxima and clamps *)

Lemma Qlt_bool_iff (a b : Q) : (a <? b) = true <-> a < b.
Proof.
  unfold Qlt_bool. rewrite negb_true_iff.
  split.
  - intros Hf. apply Qnot_le_lt. intros Hle.
    apply Qle_bool_iff in Hle. congruence.
  - intros Hlt. destruct (Qle_bool b a) eqn:E; [|reflexivity].
    apply Qle_bool_iff in E. lra.
Qed.

Lemma Qlt_bool_false_iff (a b : Q) : (a <? b) = false <-> b <= a.
Proof.
  unfold Qlt_bool. rewrite negb_false_iff. apply Qle_bool_iff.
Qed.

Lemma Qle_bool_false_iff (a b : Q) : (a <=? b) = false <-> b < a.
Proof.
  rewrite <- Qlt_bool_iff. unfold Qlt_bool.
  destruct (a <=? b); simpl; split; congruence.
Qed.

Lemma Qlt_bool_compare (a b : Q) :
  (a <? b) = match a ?= b with Lt => true | _ => false end.
Proof.
  destruct (a ?= b) eqn:E.
  - apply Qeq_alt in E. apply Qlt_bool_false_iff. lra.
  - apply Qlt_alt in E. apply Qlt_bool_iff. lra.
  - apply Qgt_alt in E. apply Qlt_bool_false_iff. lra.
Qed.

(** The builtin and numpy maxima and minima are the order-theoretic
    [Qmax] and [Qmin], tie for tie. *)
Lemma py_max_Qmax (a b : Q) : py_max a b = Qmax a b.
Proof.
  unfold py_max, Qmax, GenericMinMax.gmax. rewrite Qlt_bool_compare.
  destruct (a ?= b); reflexivity.
Qed.

Lemma np_maximum_Qmax (a b : Q) : np_maximum a b = Qmax a b.
Proof. apply py_max_Qmax. Qed.

Lemma np_minimum_Qmin (a b : Q) : np_minimum a b = Qmin a b.
Proof.
  unfold np_minimum, Qmin, GenericMinMax.gmin. rewrite Qlt_bool_compare.
  rewrite <- (Qcompare_antisym a b).
  destruct (a ?= b); reflexivity.
Qed.

Lemma py_max_ge_l (a b : Q) : a <= py_max a b.
Proof.
  unfold py_max. destruct (a <? b) eqn:E; [|lra].
  apply Qlt_bool_iff in E. lra.
Qed.

Lemma py_max_ge_r (a b : Q) : b <= py_max a b.
Proof.
  unfold py_max. destruct (a <? b) eqn:E; [lra|].
  apply Qlt_bool_false_iff in E. lra.
Qed.

Lemma np_clip_bounds (x lo hi : Q) : lo <= hi -> lo <= np_clip x lo hi <= hi.
Proof.
  intros Hlh. unfold np_clip, np_minimum, np_maximum.
  destruct (x <? lo) eqn:E1.
  - destruct (hi <? lo) eqn:E2; [apply Qlt_bool_iff in E2|]; lra.
  - apply Qlt_bool_false_iff in E1.
    destruct (hi <? x) eqn:E2.
    + lra.
    + apply Qlt_bool_false_iff in E2. lra.
Qed.

(** ** Float division and the affinity ratios *)

Lemma fdiv_ok (a b : Q) : ~ b == 0 -> fdiv a b = Ok (a / b).
Proof.
  intros Hb. unfold fdiv. destruct (Qeq_bool b 0) eqn:E; [|reflexivity].
  apply Qeq_bool_eq in E. contradiction.
Qed.

Lemma fdiv_zero (a b : Q) : b == 0 -> fdiv a b = Raise ZeroDivisionError.
Proof.
  intros Hb. unfold fdiv. apply Qeq_bool_iff in Hb. rewrite Hb. reflexivity.
Qed.

Lemma fdiv_inv (a b q : Q) : fdiv a b = Ok q -> ~ b == 0 /\ q = a / b.
Proof.
  unfold fdiv. destruct (Qeq_bool b 0) eqn:E; [discriminate|].
  intros [= <-]. split; [|reflexivity]. now apply Qeq_bool_neq.
Qed.

Lemma free_delivery_ok (fan : FanCurve) (N : Q) :
  ~ N_ref_rpm fan == 0 ->
  free_delivery_cfm fan N = Ok (Q_free_ref_cfm fan * (N / N_ref_rpm fan)).
Proof.
  intros Hn. unfold free_delivery_cfm. rewrite fdiv_ok by assumption.
  reflexivity.
Qed.

Lemma shutoff_pressure_ok (fan : FanCurve) (N : Q) :
  ~ N_ref_rpm fan == 0 ->
  shutoff_pressure_Pa fan N = Ok (dP_shut_ref_Pa fan * (N / N_ref_rpm fan) ^ 2).
Proof.
  intros Hn. unfold shutoff_pressure_Pa. rewrite fdiv_ok by assumption.
  reflexivity.
Qed.

Lemma free_delivery_inv (fan : FanCurve) (N q : Q) :
  free_delivery_cfm fan N = Ok q ->
  ~ N_ref_rpm fan == 0 /\ q = Q_free_ref_cfm fan * (N / N_ref_rpm fan).
Proof.
  unfold free_delivery_cfm. destruct (fdiv N (N_ref_rpm fan)) eqn:E;
    [|discriminate].
  apply fdiv_inv in E as [Hn ->]. intros [= <-]. auto.
Qed.

(** ** The fan curve *)

Lemma dP_elem_spec {pw : FloatPow} (fan : FanCurve) (Q_free dP_shut q : Q) :
  dP_elem fan Q_free dP_shut q = pressure_spec (n_shape fan) Q_free dP_shut q.
Proof.
  unfold dP_elem, pressure_spec, np_clip.
  rewrite np_minimum_Qmin, !np_maximum_Qmax, ?py_max_Qmax. reflexivity.
Qed.

Lemma dP_elem_nonneg {pw : FloatPow} (fan : FanCurve) (Q_free dP_shut q : Q) :
  0 <= dP_shut -> 0 <= dP_elem fan Q_free dP_shut q.
Proof.
  intros Hs. unfold dP_elem.
  apply Qmult_le_0_compat; [assumption|]. apply py_max_ge_r.
Qed.

Lemma sq_nonneg (r : Q) : 0 <= r ^ 2.
Proof. simpl. nra. Qed.

Lemma demo_fan_Nref : ~ N_ref_rpm demo_fan == 0.
Proof. simpl. lra. Qed.

(** ** [FanCurve.dP_at] *)

(** C9, as stated, fails: a fan whose reference speed is [0.0] has a
    non-negative reference shutoff pressure, and [dP_at] raises
    [ZeroDivisionError] on it instead of returning a pressure. *)
Lemma dP_at_raises_at_zero_reference_speed :
  0 <= dP_shut_ref_Pa fan_Nref0 /\
  dP_at (pw := pow_int) fan_Nref0 [100] 900 = Raise ZeroDivisionError.
Proof. split; [simpl; lra | reflexivity]. Qed.

Section Binary64Fan.
Import PrimFloat.
Local Open Scope float_scope.

(** C9 fails also at a large speed: in binary64 the speed ratio of
    [1.2e160] rpm to the reference speed [1200] rpm has an infinite
    square, and Python's float power in [shutoff_pressure_Pa] raises
    [OverflowError]. *)
Lemma dP_at_overflows_in_binary64 :
  (0 <=? F64.dP_shut_ref_Pa F64.demo_fan) = true /\
  F64.dP_at F64.demo_fan [100] 1.2e160 = Raise OverflowError.
Proof. vm_compute. split; reflexivity. Qed.

(** And at a large reference shutoff pressure: with [1e250] Pa at the
    speed ratio [1e100] the shutoff pressure is infinite in binary64, and
    the pressure returned beyond the free delivery is [inf * 0 = nan]. *)
Lemma dP_at_nan_in_binary64 :
  F64.dP_at (F64.mkFanCurve 500 1e250 1200) [1e200] 1.2e103 = Ok [nan].
Proof. vm_compute. reflexivity. Qed.
End Binary64Fan.

Lemma range_bound_pos : 0 < range_bound.
Proof. vm_compute. reflexivity. Qed.

Lemma sq_le_bound (r B : Q) : Qabs r <= B -> r ^ 2 <= B * B.
Proof.
  intros Hr. pose proof (Qabs_nonneg r) as H0.
  assert (E : r ^ 2 == Qabs r * Qabs r).
  { change (r ^ 2) with (r * r). rewrite <- Qabs_Qmult.
    symmetry. apply Qabs_pos. apply (sq_nonneg r). }
  rewrite E. nra.
Qed.

(** C9 (amended): for every fan with a non-zero reference speed and a
    reference shutoff pressure between [0] and [1e100], for every array of
    airflows and every speed whose ratio to the reference speed is at most
    [1e100] in magnitude, [dP_at] returns (it raises nothing): the
    shutoff pressure at that speed is between [0] and [1e300], each
    returned pressure is [shutoffPressure(speed) × max(1 − x^n, 0)] with
    [x = clamp(airflow / max(freeDelivery(speed), ε), 0, 10)], and it is
    non-negative. *)
Theorem dP_at_nonneg_in_range {pw : FloatPow} (fan : FanCurve)
    (Q_cfm : list Q) (N : Q) :
  ~ N_ref_rpm fan == 0 ->
  0 <= dP_shut_ref_Pa fan <= range_bound ->
  Qabs (N / N_ref_rpm fan) <= range_bound ->
  exists Q_free dP_shut dP,
    free_delivery_cfm fan N = Ok Q_free /\
    shutoff_pressure_Pa fan N = Ok dP_shut /\
    0 <= dP_shut <= range_bound ^ 3 /\
    dP_at fan Q_cfm N = Ok dP /\
    length dP = length Q_cfm /\
    forall (i : nat) (q : Q), Q_cfm !! i = Some q ->
      exists p, dP !! i = Some p /\
                p = pressure_spec (n_shape fan) Q_free dP_shut q /\
                0 <= p.
Proof.
  intros Hn Hs Hr.
  pose proof (sq_le_bound _ _ Hr) as Hsq.
  pose proof (sq_nonneg (N / N_ref_rpm fan)) as Hsq0.
  pose proof range_bound_pos as HB.
  assert (Hshut : 0 <= dP_shut_ref_Pa fan * (N / N_ref_rpm fan) ^ 2
                  <= range_bound ^ 3).
  { assert (E : range_bound ^ 3 == range_bound * (range_bound * range_bound))
      by ring.
    rewrite E.
    set (B := range_bound) in *. set (x := (N / N_ref_rpm fan) ^ 2) in *.
    set (s := dP_shut_ref_Pa fan) in *.
    assert (0 <= B * B) by nra.
    split; nra. }
  eexists _, _, _. split; [now apply free_delivery_ok|].
  split; [now apply shutoff_pressure_ok|].
  split; [exact Hshut|].
  unfold dP_at. rewrite free_delivery_ok, shutoff_pressure_ok by assumption.
  split; [reflexivity|]. split; [apply length_fmap|].
  intros i q Hq. eexists. split.
  - rewrite list_lookup_fmap, Hq. reflexivity.
  - split; [apply dP_elem_spec|]. apply dP_elem_nonneg. apply Hshut.
Qed.

Lemma dP_at_nonneg_in_range_witness :
  exists Q_free dP_shut dP,
    free_delivery_cfm demo_fan 900 = Ok Q_free /\
    shutoff_pressure_Pa demo_fan 900 = Ok dP_shut /\
    0 <= dP_shut <= range_bound ^ 3 /\
    dP_at (pw := pow_int) demo_fan [100; -3; 5000] 900 = Ok dP /\
    length dP = length [100; -3; 5000] /\
    forall (i : nat) (q : Q), [100; -3; 5000] !! i = Some q ->
      exists p, dP !! i = Some p /\
                p = pressure_spec (pw := pow_int)
                      (n_shape demo_fan) Q_free dP_shut q /\
                0 <= p.
Proof.
  apply (dP_at_nonneg_in_range (pw := pow_int) demo_fan [100; -3; 5000] 900).
  - simpl. lra.
  - split; vm_compute; discriminate.
  - vm_compute. discriminate.
Defined.

(** ** [np.argmin] and the grid search *)

Lemma argmin_from_bound (l : list Q) (i bi : nat) (bv : Q) :
  (bi < i)%nat -> (argmin_from l i bi bv < i + length l)%nat.
Proof.
  revert i bi bv. induction l as [|x l IH]; intros i bi bv Hb; simpl.
  - lia.
  - destruct (x <? bv).
    + specialize (IH (S i) i x). lia.
    + specialize (IH (S i) bi bv). lia.
Qed.

Lemma np_argmin_ok (l : list Q) :
  l <> [] -> exists j, np_argmin l = Ok j /\ (j < length l)%nat.
Proof.
  destruct l as [|x l]; [congruence|]. intros _. simpl.
  eexists. split; [reflexivity|].
  pose proof (argmin_from_bound l 1 0 x). lia.
Qed.

Lemma np_argmin_inv (l : list Q) (j : nat) :
  np_argmin l = Ok j -> (j < length l)%nat.
Proof.
  destruct l as [|x l]; [discriminate|]. simpl. intros [= <-].
  pose proof (argmin_from_bound l 1 0 x). lia.
Qed.

Lemma index_ok {A} (l : list A) (i : nat) :
  (i < length l)%nat -> exists x, index l i = Ok x /\ l !! i = Some x.
Proof.
  intros Hi. unfold index. destruct (lookup_lt_is_Some_2 l i Hi) as [x Hx].
  rewrite Hx. eauto.
Qed.

Lemma length_np_linspace (a b : Q) (n : nat) : length (np_linspace a b n) = n.
Proof. unfold np_linspace. now rewrite length_fmap, length_seq. Qed.

Lemma operating_point_Q_unfold {pw : FloatPow} (fan : FanCurve) (k rpm : Q)
    (n_grid : nat) :
  ~ N_ref_rpm fan == 0 ->
  let Q_free := Q_free_ref_cfm fan * (rpm / N_ref_rpm fan) in
  let dP_shut := dP_shut_ref_Pa fan * (rpm / N_ref_rpm fan) ^ 2 in
  let Qs := np_linspace 0 Q_free n_grid in
  operating_point_Q fan k rpm n_grid =
    if Q_free <=? eps9 then Ok 0
    else i ← np_argmin (grid_gap fan k Q_free dP_shut Qs); index Qs i.
Proof.
  intros Hn Q_free dP_shut Qs. unfold operating_point_Q, dP_at.
  rewrite free_delivery_ok, shutoff_pressure_ok by assumption.
  cbn [mbind res_bind]. fold Q_free dP_shut.
  destruct (Q_free <=? eps9); [reflexivity|].
  fold Qs. unfold grid_gap.
  rewrite zip_with_fmap_l, zip_with_fmap_r, zip_with_diag. reflexivity.
Qed.

(** With a non-zero reference speed and a non-empty grid the grid search
    returns an airflow. *)
Lemma operating_point_Q_total {pw : FloatPow} (fan : FanCurve) (k rpm : Q)
    (n_grid : nat) :
  ~ N_ref_rpm fan == 0 -> (0 < n_grid)%nat ->
  exists q, operating_point_Q fan k rpm n_grid = Ok q.
Proof.
  intros Hn Hg. rewrite operating_point_Q_unfold by assumption.
  destruct (_ <=? eps9); [eauto|].
  set (Qs := np_linspace _ _ _).
  destruct (np_argmin_ok (grid_gap fan k
              (Q_free_ref_cfm fan * (rpm / N_ref_rpm fan))
              (dP_shut_ref_Pa fan * (rpm / N_ref_rpm fan) ^ 2) Qs))
    as (j & Hj & Hlt).
  - intros Hnil. apply (f_equal length) in Hnil.
    unfold grid_gap, Qs in Hnil.
    rewrite length_fmap, length_np_linspace in Hnil. simpl in Hnil. lia.
  - rewrite Hj. cbn [mbind res_bind].
    unfold grid_gap in Hlt. rewrite length_fmap in Hlt.
    destruct (index_ok Qs j Hlt) as (x & Hx & _). eauto.
Qed.

Lemma opQ_total {pw : FloatPow} (fan : FanCurve) (k rpm : Q) :
  ~ N_ref_rpm fan == 0 -> exists q, opQ fan k rpm = Ok q.
Proof.
  intros Hn. apply operating_point_Q_total; [assumption|].
  unfold n_grid_default. lia.
Qed.

(** With a zero reference speed it raises. *)
Lemma opQ_zero_reference_speed {pw : FloatPow} (fan : FanCurve) (k rpm : Q) :
  N_ref_rpm fan == 0 -> opQ fan k rpm = Raise ZeroDivisionError.
Proof.
  intros Hn. unfold opQ, operating_point_Q, free_delivery_cfm.
  now rewrite fdiv_zero.
Qed.

(** The demo fan on the clean duct at the bounds of the continuous range,
    500 and 2000 rpm: about 201 and 804 cfm, strictly between 0 and the
    free deliveries 208.3 and 833.3 cfm. *)
Lemma demo_opQ_500 :
  opQ (pw := pow_int) demo_fan k_clean 500 = Ok demo_Q_500.
Proof. vm_compute. reflexivity. Qed.

Lemma demo_opQ_2000 :
  opQ (pw := pow_int) demo_fan k_clean 2000 = Ok demo_Q_2000.
Proof. vm_compute. reflexivity. Qed.

Example operating_point_demo :
  demo_Q_500 == 160625 # 799 /\ demo_Q_2000 == 642500 # 799 /\
  exists fd, free_delivery_cfm demo_fan 500 = Ok fd /\
             fd == 625 # 3 /\ 0 < demo_Q_500 < fd.
Proof.
  split; [reflexivity|]. split; [reflexivity|].
  eexists. split; [reflexivity|]. repeat split; reflexivity.
Qed.

(** ** [solve_rpm_for_Q] *)

Lemma bisect_trace {pw : FloatPow} (fan : FanCurve) (k Qt eps : Q)
    (iters : nat) (lo hi : Q) (tr : list Q) (r : Q * Q) (tr' : list Q) :
  bisect fan k Qt eps iters lo hi tr = Ok (r, tr') ->
  exists mids, tr' = tr ++ mids.
Proof.
  revert lo hi tr. induction iters as [|n IH]; intros lo hi tr; simpl.
  - destruct (opQ fan k _); [|discriminate]. simpl. intros [= <- <-]. eauto.
  - destruct (opQ fan k _) as [Qm|]; [|discriminate]. simpl.
    destruct (Qm <? Qt - eps).
    + intros Hb. apply IH in Hb as [m ->]. rewrite <- app_assoc. eauto.
    + destruct (Qt + eps <? Qm).
      * intros Hb. apply IH in Hb as [m ->]. rewrite <- app_assoc. eauto.
      * intros [= <- <-]. eauto.
Qed.

(** C2: once the operating airflows [Q_lo] at [rpm_lo] and [Q_hi] at
    [rpm_hi] have been evaluated, a target [<= Q_lo + eps] returns exactly
    [(rpm_lo, Q_lo)] and a target [> Q_lo + eps] and [>= Q_hi - eps]
    returns exactly [(rpm_hi, Q_hi)], in both cases with no operating
    point evaluated other than those two (no bisection); in particular a
    target above [Q_hi] yields [(rpm_hi, Q_hi)].  Whenever the solver
    returns, the two bounds are what it evaluated first. *)
Theorem solve_rpm_for_Q_clamps {pw : FloatPow} (fan : FanCurve)
    (k Q_target rpm_lo rpm_hi eps : Q) (iters : nat) (Q_lo Q_hi : Q) :
  opQ fan k rpm_lo = Ok Q_lo ->
  opQ fan k rpm_hi = Ok Q_hi ->
  (Q_target <= Q_lo + eps ->
     solve_rpm_for_Q_traced fan k Q_target rpm_lo rpm_hi eps iters
       = Ok ((rpm_lo, Q_lo), [rpm_lo; rpm_hi])) /\
  (Q_lo + eps < Q_target -> Q_hi - eps <= Q_target ->
     solve_rpm_for_Q_traced fan k Q_target rpm_lo rpm_hi eps iters
       = Ok ((rpm_hi, Q_hi), [rpm_lo; rpm_hi])) /\
  (Q_lo + eps < Q_target -> 0 <= eps -> Q_hi < Q_target ->
     solve_rpm_for_Q fan k Q_target rpm_lo rpm_hi eps iters
       = Ok (rpm_hi, Q_hi)) /\
  (forall r tr,
     solve_rpm_for_Q_traced fan k Q_target rpm_lo rpm_hi eps iters
       = Ok (r, tr) ->
     exists mids, tr = rpm_lo :: rpm_hi :: mids).
Proof.
  intros Hlo Hhi.
  assert (Hhigh : Q_lo + eps < Q_target -> Q_hi - eps <= Q_target ->
     solve_rpm_for_Q_traced fan k Q_target rpm_lo rpm_hi eps iters
       = Ok ((rpm_hi, Q_hi), [rpm_lo; rpm_hi])).
  { intros H1 H2. unfold solve_rpm_for_Q_traced. rewrite Hlo, Hhi. simpl.
    apply Qle_bool_false_iff in H1. rewrite H1.
    apply Qle_bool_iff in H2. now rewrite H2. }
  split; [|split; [exact Hhigh|split]].
  - intros H1. unfold solve_rpm_for_Q_traced. rewrite Hlo, Hhi. simpl.
    apply Qle_bool_iff in H1. now rewrite H1.
  - intros H1 H2 H3. unfold solve_rpm_for_Q.
    rewrite Hhigh; [reflexivity | assumption | lra].
  - intros r tr. unfold solve_rpm_for_Q_traced. rewrite Hlo, Hhi. simpl.
    destruct (Q_target <=? Q_lo + eps); [intros [= <- <-]; now exists []|].
    destruct (Q_hi - eps <=? Q_target); [intros [= <- <-]; now exists []|].
    intros Hb. apply bisect_trace in Hb as [m ->]. now exists m.
Qed.

Lemma solve_rpm_for_Q_clamps_witness :
  solve_rpm_for_Q_traced (pw := pow_int) demo_fan k_clean 100 500 2000 5 24
    = Ok ((500, demo_Q_500), [500; 2000]) /\
  solve_rpm_for_Q (pw := pow_int) demo_fan k_clean 2000 500 2000 5 24
    = Ok (2000, demo_Q_2000).
Proof.
  split.
  - apply (solve_rpm_for_Q_clamps (pw := pow_int) demo_fan k_clean 100 500
             2000 5 24 demo_Q_500 demo_Q_2000 demo_opQ_500 demo_opQ_2000).
    unfold demo_Q_500. lra.
  - apply (solve_rpm_for_Q_clamps (pw := pow_int) demo_fan k_clean 2000 500
             2000 5 24 demo_Q_500 demo_Q_2000 demo_opQ_500 demo_opQ_2000);
      unfold demo_Q_500, demo_Q_2000; lra.
Defined.

(** ** [choose_mode_min_power] *)

(** *** Loops that collect results *)

Lemma for_each_Forall2 {A B} (f : A -> res B) (xs : list A) (ys : list B) :
  for_each f xs = Ok ys <-> Forall2 (fun x y => f x = Ok y) xs ys.
Proof.
  revert ys. induction xs as [|x xs IH]; intros ys; simpl.
  - split.
    + intros [= <-]. constructor.
    + intros Hf. inversion Hf. reflexivity.
  - split.
    + destruct (f x) as [y|] eqn:Hx; [|discriminate]. simpl.
      destruct (for_each f xs) as [ys'|] eqn:Hxs; [|discriminate]. simpl.
      intros [= <-]. constructor; [assumption|]. now apply IH.
    + intros Hf. inversion Hf as [|x' y xs' ys' Hx Hxs]; subst.
      rewrite Hx. simpl. apply IH in Hxs. rewrite Hxs. reflexivity.
Qed.

Lemma for_each_total {A B} (f : A -> res B) (xs : list A) :
  (forall x, x ∈ xs -> exists y, f x = Ok y) ->
  exists ys, for_each f xs = Ok ys.
Proof.
  induction xs as [|x xs IH]; intros Hall; simpl.
  - eauto.
  - destruct (Hall x) as [y Hy]; [left|]. rewrite Hy. simpl.
    destruct IH as [ys Hys]; [intros x' Hx'; apply Hall; now right|].
    rewrite Hys. simpl. eauto.
Qed.

(** *** [min(..., key=...)] and [max(..., key=...)] return the first
        extremum *)

Lemma min_by_from_first {A} (key : A -> Q) (l : list A) (best : A) :
  exists before after,
    first_min key (best :: l) (min_by_from key best l) before after.
Proof.
  revert best. induction l as [|x l IH]; intros best; simpl.
  - exists [], []. repeat split; constructor.
  - destruct (key x <? key best) eqn:E.
    + apply Qlt_bool_iff in E.
      destruct (IH x) as (b & a & Heq & Hb & Ha).
      remember (min_by_from key x l) as z eqn:Ez. clear Ez.
      exists (best :: b), a. split; [simpl; congruence|].
      split; [|assumption]. constructor; [|assumption].
      destruct b as [|y b]; simpl in Heq.
      * injection Heq as Hz _. rewrite <- Hz. assumption.
      * injection Heq as Hy _. subst y. inversion Hb; subst. lra.
    + apply Qlt_bool_false_iff in E.
      destruct (IH best) as (b & a & Heq & Hb & Ha).
      remember (min_by_from key best l) as z eqn:Ez. clear Ez.
      destruct b as [|y b]; simpl in Heq.
      * injection Heq as Hz Hl. exists [], (x :: a).
        split; [simpl; congruence|].
        split; [constructor|]. constructor; [|assumption].
        rewrite <- Hz. assumption.
      * injection Heq as Hy Hl. subst y. exists (best :: x :: b), a.
        split; [simpl; congruence|]. split; [|assumption].
        inversion Hb; subst. constructor; [assumption|].
        constructor; [lra | assumption].
Qed.

Lemma max_by_from_min {A} (key : A -> Q) (l : list A) (best : A) :
  max_by_from key best l = min_by_from (fun a => - key a) best l.
Proof.
  revert best. induction l as [|x l IH]; intros best; simpl; [reflexivity|].
  assert (Hc : (key best <? key x) = (- key x <? - key best)).
  { destruct (key best <? key x) eqn:E; symmetry.
    - apply Qlt_bool_iff in E. apply Qlt_bool_iff. lra.
    - apply Qlt_bool_false_iff in E. apply Qlt_bool_false_iff. lra. }
  rewrite <- Hc. destruct (key best <? key x); apply IH.
Qed.

Lemma max_by_from_first {A} (key : A -> Q) (l : list A) (best : A) :
  exists before after,
    first_max key (best :: l) (max_by_from key best l) before after.
Proof.
  rewrite max_by_from_min.
  destruct (min_by_from_first (fun a => - key a) l best)
    as (b & a & Heq & Hb & Ha).
  exists b, a. split; [assumption|]. split.
  - eapply Forall_impl; [exact Hb|]. simpl. intros y Hy. lra.
  - eapply Forall_impl; [exact Ha|]. simpl. intros y Hy. lra.
Qed.

Lemma py_min_by_first {A} (key : A -> Q) (l : list A) :
  l <> [] ->
  exists z before after,
    py_min_by key l = Ok z /\ first_min key l z before after.
Proof.
  destruct l as [|x l]; [congruence|]. intros _.
  destruct (min_by_from_first key l x) as (b & a & H).
  exists (min_by_from key x l), b, a. split; [reflexivity | assumption].
Qed.

Lemma py_max_by_first {A} (key : A -> Q) (l : list A) :
  l <> [] ->
  exists z before after,
    py_max_by key l = Ok z /\ first_max key l z before after.
Proof.
  destruct l as [|x l]; [congruence|]. intros _.
  destruct (max_by_from_first key l x) as (b & a & H).
  exists (max_by_from key x l), b, a. split; [reflexivity | assumption].
Qed.

(** A split of a filtered list comes from a split of the list. *)
Lemma filter_split {A} (f : A -> bool) (l : list A) (z : A)
    (b a : list A) :
  List.filter f l = b ++ z :: a ->
  exists b' a', l = b' ++ z :: a' /\ f z = true /\
                List.filter f b' = b /\ List.filter f a' = a.
Proof.
  revert b. induction l as [|x l IH]; intros b; simpl.
  - destruct b; discriminate.
  - destruct (f x) eqn:Hx.
    + destruct b as [|y b]; simpl.
      * intros [= Hxz Hl]. subst x. exists [], l. simpl. auto.
      * intros [= Hxy Hl]. subst y.
        destruct (IH b Hl) as (b' & a' & Hl' & Hz & Hb & Ha).
        exists (x :: b'), a'. simpl. rewrite Hx, Hb, Hl'. auto.
    + intros Hl. destruct (IH b Hl) as (b' & a' & Hl' & Hz & Hb & Ha).
      exists (x :: b'), a'. simpl. rewrite Hx, Hl'. auto.
Qed.

Lemma Forall_filter_impl {A} (f : A -> bool) (P : A -> Prop) (l : list A) :
  Forall P (List.filter f l) -> Forall (fun y => f y = true -> P y) l.
Proof.
  induction l as [|x l IH]; simpl; intros H; [constructor|].
  destruct (f x) eqn:Hx.
  - inversion H; subst. constructor; auto.
  - constructor; [congruence | auto].
Qed.

(** *** The selector *)

Lemma mode_triple_inv {pw : FloatPow} (fan : FanCurve) (k : Q)
    (power_fn : power_fn_t) (P_bep N_ref rpm : Q) (y : triple) :
  mode_triple fan k power_fn P_bep N_ref rpm = Ok y ->
  t_rpm y = rpm /\ opQ fan k rpm = Ok (t_Qop y) /\
  power_fn fan (t_Qop y) rpm P_bep N_ref = Ok (t_P y).
Proof.
  unfold mode_triple. destruct (opQ fan k rpm) as [Qop|]; [|discriminate].
  simpl. destruct (power_fn fan Qop rpm P_bep N_ref) as [P|] eqn:HP;
    [|discriminate].
  simpl. intros [= <-]. auto.
Qed.

Lemma feasible_iff (Q_target eps : Q) (z : triple) :
  feasible Q_target eps z = true <-> Q_target - eps <= t_Qop z.
Proof. apply Qle_bool_iff. Qed.

(** The triples are computed whenever the operating airflow and the power
    can be computed at each listed speed. *)
Lemma mode_triples_total {pw : FloatPow} (fan : FanCurve) (k : Q)
    (speeds : list Q) (power_fn : power_fn_t) (P_bep N_ref : Q) :
  (forall rpm, rpm ∈ speeds ->
     exists Qop Pw, opQ fan k rpm = Ok Qop /\
                    power_fn fan Qop rpm P_bep N_ref = Ok Pw) ->
  exists triples,
    for_each (mode_triple fan k power_fn P_bep N_ref) speeds = Ok triples /\
    Forall2 (fun rpm y =>
               t_rpm y = rpm /\ opQ fan k rpm = Ok (t_Qop y) /\
               power_fn fan (t_Qop y) rpm P_bep N_ref = Ok (t_P y))
            speeds triples.
Proof.
  intros Hev.
  destruct (for_each_total (mode_triple fan k power_fn P_bep N_ref) speeds)
    as [triples Ht].
  { intros rpm Hin. destruct (Hev rpm Hin) as (Qop & Pw & HQ & HP).
    unfold mode_triple. rewrite HQ. simpl. rewrite HP. simpl. eauto. }
  exists triples. split; [assumption|].
  apply for_each_Forall2 in Ht.
  eapply Forall2_impl; [exact Ht|]. intros rpm y. apply mode_triple_inv.
Qed.

(** C1: for a non-empty list of speeds at each of which the operating
    airflow and the power are computed, the selector builds one triple
    (speed, operating airflow, power) per listed speed, in order; a triple
    is feasible iff its airflow is [>= Q_target - eps]; if some triple is
    feasible the result is the feasible triple of least power, the first
    such in list order, and if none is feasible the result is the triple of
    greatest operating airflow (the first such), whatever its power. *)
Theorem choose_mode_min_power_spec {pw : FloatPow} (fan : FanCurve) (k : Q)
    (speeds : list Q) (Q_target eps : Q) (power_fn : power_fn_t)
    (P_bep N_ref : Q) :
  speeds <> [] ->
  (forall rpm, rpm ∈ speeds ->
     exists Qop Pw, opQ fan k rpm = Ok Qop /\
                    power_fn fan Qop rpm P_bep N_ref = Ok Pw) ->
  exists (triples : list triple) (z : triple) (before after : list triple),
    Forall2 (fun rpm y =>
               t_rpm y = rpm /\ opQ fan k rpm = Ok (t_Qop y) /\
               power_fn fan (t_Qop y) rpm P_bep N_ref = Ok (t_P y))
            speeds triples /\
    (forall y, feasible Q_target eps y = true <-> Q_target - eps <= t_Qop y) /\
    choose_mode_min_power fan k speeds Q_target eps power_fn P_bep N_ref
      = Ok (t_rpm z, t_Qop z) /\
    triples = before ++ z :: after /\
    ((exists y, y ∈ triples /\ Q_target - eps <= t_Qop y) ->
       Q_target - eps <= t_Qop z /\
       Forall (fun y => Q_target - eps <= t_Qop y -> t_P z < t_P y) before /\
       Forall (fun y => Q_target - eps <= t_Qop y -> t_P z <= t_P y) after) /\
    ((forall y, y ∈ triples -> t_Qop y < Q_target - eps) ->
       Forall (fun y => t_Qop y < t_Qop z) before /\
       Forall (fun y => t_Qop y <= t_Qop z) after).
Proof.
  intros Hne Hev.
  destruct (mode_triples_total fan k speeds power_fn P_bep N_ref Hev)
    as (triples & Ht & HF).
  assert (Htne : triples <> []).
  { intros ->. inversion HF. congruence. }
  unfold choose_mode_min_power. rewrite Ht. cbn [mbind res_bind].
  destruct (List.filter (feasible Q_target eps) triples) as [|f0 fs] eqn:Hf.
  - (* no feasible triple *)
    destruct (py_max_by_first t_Qop triples Htne)
      as (z & b & a & Hz & Heq & Hb & Ha).
    exists triples, z, b, a. rewrite Hz. cbn [mbind res_bind].
    split; [exact HF|]. split; [intros y; apply feasible_iff|].
    split; [reflexivity|]. split; [exact Heq|]. split.
    + intros (y & Hy & Hfy). exfalso.
      assert (Hin : In y (List.filter (feasible Q_target eps) triples)).
      { apply filter_In. split; [now apply list_elem_of_In|].
        now apply feasible_iff. }
      rewrite Hf in Hin. destruct Hin.
    + intros _. split; assumption.
  - (* some feasible triple *)
    destruct (py_min_by_first t_P (f0 :: fs))
      as (z & b & a & Hz & Heq & Hb & Ha); [discriminate|].
    rewrite <- Hf in Heq.
    destruct (filter_split _ _ _ _ _ Heq) as (b' & a' & Hsp & Hfz & Hfb & Hfa).
    exists triples, z, b', a'. rewrite Hz. cbn [mbind res_bind].
    apply feasible_iff in Hfz.
    split; [exact HF|]. split; [intros y; apply feasible_iff|].
    split; [reflexivity|]. split; [exact Hsp|]. split.
    + intros _. split; [exact Hfz|]. split.
      * subst b. apply Forall_filter_impl in Hb.
        eapply Forall_impl; [exact Hb|]. simpl. intros y Hy Hfy.
        apply Hy. now apply feasible_iff.
      * subst a. apply Forall_filter_impl in Ha.
        eapply Forall_impl; [exact Ha|]. simpl. intros y Hy Hfy.
        apply Hy. now apply feasible_iff.
    + intros Hnone. exfalso.
      assert (Hz' : t_Qop z < Q_target - eps).
      { apply Hnone. rewrite Hsp. apply list_elem_of_In, in_elt. }
      lra.
Qed.

Lemma power_model_convex_ok (fan : FanCurve)
    (Q_cfm rpm P_bep N_ref idle g xb : Q) :
  ~ N_ref_rpm fan == 0 -> ~ N_ref == 0 ->
  let x := np_clip (Q_cfm / py_max (Q_free_ref_cfm fan * (rpm / N_ref_rpm fan))
                               eps9) 0 1 in
  let b1 := (convex_coeffs idle g xb).1 in
  let b2 := (convex_coeffs idle g xb).2 in
  power_model_convex fan Q_cfm rpm P_bep N_ref idle g xb
    = Ok (P_bep * (rpm / N_ref) ^ 3 * (idle + b1 * x + b2 * x ^ 2)).
Proof.
  intros Hf Hn. unfold power_model_convex.
  rewrite free_delivery_ok by assumption. cbn [mbind res_bind].
  destruct (convex_coeffs idle g xb) as [b1 b2].
  rewrite fdiv_ok by assumption. reflexivity.
Qed.

(** With non-zero reference speeds every listed speed yields its triple. *)
Lemma mode_evaluations_ok {pw : FloatPow} (fan : FanCurve)
    (k P_bep N_ref : Q) (speeds : list Q) :
  ~ N_ref_rpm fan == 0 -> ~ N_ref == 0 ->
  forall rpm, rpm ∈ speeds ->
    exists Qop Pw, opQ fan k rpm = Ok Qop /\
                   power_model_convex_5 fan Qop rpm P_bep N_ref = Ok Pw.
Proof.
  intros Hf Hn rpm _. destruct (opQ_total fan k rpm Hf) as [Qop HQ].
  exists Qop. eexists. split; [exact HQ|].
  unfold power_model_convex_5. now apply power_model_convex_ok.
Qed.

Lemma choose_mode_min_power_spec_witness :
  exists (triples : list triple) (z : triple) (before after : list triple),
    Forall2 (fun rpm y =>
               t_rpm y = rpm /\
               opQ (pw := pow_int) demo_fan k_clean rpm = Ok (t_Qop y) /\
               power_model_convex_5 demo_fan (t_Qop y) rpm 40 1200
                 = Ok (t_P y))
            [700; 800; 900; 1000] triples /\
    (forall y, feasible 300 5 y = true <-> 300 - 5 <= t_Qop y) /\
    choose_mode_min_power (pw := pow_int) demo_fan k_clean
      [700; 800; 900; 1000] 300 5 power_model_convex_5 40 1200
      = Ok (t_rpm z, t_Qop z) /\
    triples = before ++ z :: after /\
    ((exists y, y ∈ triples /\ 300 - 5 <= t_Qop y) ->
       300 - 5 <= t_Qop z /\
       Forall (fun y => 300 - 5 <= t_Qop y -> t_P z < t_P y) before /\
       Forall (fun y => 300 - 5 <= t_Qop y -> t_P z <= t_P y) after) /\
    ((forall y, y ∈ triples -> t_Qop y < 300 - 5) ->
       Forall (fun y => t_Qop y < t_Qop z) before /\
       Forall (fun y => t_Qop y <= t_Qop z) after).
Proof.
  apply (choose_mode_min_power_spec (pw := pow_int) demo_fan k_clean
           [700; 800; 900; 1000] 300 5 power_model_convex_5 40 1200).
  - discriminate.
  - apply mode_evaluations_ok; simpl; lra.
Defined.

(** The selector on the two modes 500 and 2000 rpm of the demo fan: at a
    demand of 150 cfm both are feasible and 500 rpm draws less; at 300 cfm
    only 2000 rpm is feasible; at 900 cfm neither is and 2000 rpm delivers
    more. *)
Example choose_mode_demo :
  choose_mode_min_power (pw := pow_int) demo_fan k_clean [500; 2000]
    150 5 power_model_convex_5 40 1200 = Ok (500, demo_Q_500) /\
  choose_mode_min_power (pw := pow_int) demo_fan k_clean [500; 2000]
    300 5 power_model_convex_5 40 1200 = Ok (2000, demo_Q_2000) /\
  choose_mode_min_power (pw := pow_int) demo_fan k_clean [500; 2000]
    900 5 power_model_convex_5 40 1200 = Ok (2000, demo_Q_2000).
Proof.
  unfold choose_mode_min_power. cbn [for_each]. unfold mode_triple.
  rewrite demo_opQ_500, demo_opQ_2000. vm_compute. auto.
Qed.

(** On a non-empty list of speeds at which the triples are computed the
    selector returns a pair. *)
Lemma choose_mode_min_power_returns {pw : FloatPow} (fan : FanCurve) (k : Q)
    (speeds : list Q) (Qt eps : Q) (power_fn : power_fn_t) (P_bep N_ref : Q) :
  speeds <> [] ->
  (forall rpm, rpm ∈ speeds ->
     exists Qop Pw, opQ fan k rpm = Ok Qop /\
                    power_fn fan Qop rpm P_bep N_ref = Ok Pw) ->
  exists r, choose_mode_min_power fan k speeds Qt eps power_fn P_bep N_ref
            = Ok r.
Proof.
  intros Hne Hev.
  destruct (mode_triples_total fan k speeds power_fn P_bep N_ref Hev)
    as (triples & Ht & HF).
  assert (Htne : triples <> []).
  { intros ->. inversion HF. congruence. }
  unfold choose_mode_min_power. rewrite Ht. cbn [mbind res_bind].
  destruct (List.filter (feasible Qt eps) triples) as [|f0 fs].
  - destruct (py_max_by_first t_Qop triples Htne) as (z & _ & _ & -> & _).
    simpl. eauto.
  - simpl. eauto.
Qed.

(** C10: on an empty list of mode speeds the selector raises (the
    [ValueError] of [max()] on an empty sequence) and returns no pair,
    whatever the other arguments; on every non-empty list, at each speed
    of which the operating airflow and the power are computed, it returns
    a pair. *)
Theorem choose_mode_min_power_empty {pw : FloatPow} (fan : FanCurve)
    (k Q_target eps : Q) (power_fn : power_fn_t) (P_bep N_ref : Q) :
  choose_mode_min_power fan k [] Q_target eps power_fn P_bep N_ref
    = Raise ValueError /\
  (forall r, choose_mode_min_power fan k [] Q_target eps power_fn P_bep N_ref
             <> Ok r) /\
  (forall speeds, speeds <> [] ->
     (forall rpm, rpm ∈ speeds ->
        exists Qop Pw, opQ fan k rpm = Ok Qop /\
                       power_fn fan Qop rpm P_bep N_ref = Ok Pw) ->
     exists r, choose_mode_min_power fan k speeds Q_target eps power_fn
                 P_bep N_ref = Ok r).
Proof.
  split; [reflexivity|]. split.
  - intros r. unfold choose_mode_min_power. simpl. discriminate.
  - intros speeds Hne Hev. now apply choose_mode_min_power_returns.
Qed.

Lemma choose_mode_min_power_empty_witness :
  choose_mode_min_power (pw := pow_int) demo_fan k_clean [] 300 5
    power_model_convex_5 40 1200 = Raise ValueError /\
  exists r, choose_mode_min_power (pw := pow_int) demo_fan k_clean [900] 300 5
              power_model_convex_5 40 1200 = Ok r.
Proof.
  destruct (choose_mode_min_power_empty (pw := pow_int) demo_fan k_clean 300 5
              power_model_convex_5 40 1200) as (Hraise & _ & Hret).
  split; [exact Hraise|].
  apply Hret; [discriminate|].
  apply mode_evaluations_ok; simpl; lra.
Defined.

(** ** [power_model_convex] *)

Lemma calib_denom_cases (xb : Q) :
  (eps9 < Qabs (xb ^ 2 - xb) /\ calib_denom xb = xb ^ 2 - xb) \/
  (Qabs (xb ^ 2 - xb) <= eps9 /\ calib_denom xb = - eps3).
Proof.
  unfold calib_denom. destruct (eps9 <? Qabs (xb ^ 2 - xb)) eqn:E.
  - left. apply Qlt_bool_iff in E. auto.
  - right. apply Qlt_bool_false_iff in E. auto.
Qed.

Lemma calib_denom_nonzero (xb : Q) : ~ calib_denom xb == 0.
Proof.
  destruct (calib_denom_cases xb) as [[Hd ->]|[_ ->]].
  - intros H0. assert (Ha : Qabs (xb ^ 2 - xb) == 0) by now rewrite H0.
    unfold eps9 in Hd. lra.
  - unfold eps3. lra.
Qed.

(** What [convex_coeffs] returns from the first solve [(s1, s2)] with
    denominator [calib_denom]. *)
Lemma convex_coeffs_cases (idle g xb : Q) :
  let s2 := (1 - idle - xb * (g - idle)) / calib_denom xb in
  let s1 := (g - idle) - s2 in
  (0 < s2 /\ 0 < s1 + 2 * s2 /\ convex_coeffs idle g xb = (s1, s2)) \/
  ((s2 <= 0 \/ s1 + 2 * s2 <= 0) /\
   convex_coeffs idle g xb = ((g - idle) - fallback_b2 g, fallback_b2 g)).
Proof.
  intros s2 s1. unfold convex_coeffs. fold s2. fold s1.
  destruct (s2 <=? 0) eqn:E2; simpl.
  - right. apply Qle_bool_iff in E2. split; [auto|].
    unfold fallback_b2. now rewrite py_max_Qmax.
  - apply Qle_bool_false_iff in E2.
    destruct (s1 + 2 * s2 <=? 0) eqn:E1.
    + right. apply Qle_bool_iff in E1. split; [auto|].
      unfold fallback_b2. now rewrite py_max_Qmax.
    + left. apply Qle_bool_false_iff in E1. auto.
Qed.

Lemma fallback_b2_pos (g : Q) : 0 < fallback_b2 g.
Proof.
  unfold fallback_b2. rewrite <- py_max_Qmax.
  pose proof (py_max_ge_r ((2 # 10) * (g - 1)) eps3) as H.
  unfold eps3 in *. lra.
Qed.

(** The curvature the model ends up with is always positive. *)
Lemma convex_coeffs_b2_pos (idle g xb : Q) : 0 < (convex_coeffs idle g xb).2.
Proof.
  destruct (convex_coeffs_cases idle g xb) as [(H2 & _ & ->)|[_ ->]]; simpl.
  - exact H2.
  - apply fallback_b2_pos.
Qed.

(** The calibration constraints have exactly one solution when
    [xb^2 - xb] is not zero. *)
Lemma calibrated_unique (p0 g xb c1 c2 : Q) :
  ~ xb ^ 2 - xb == 0 ->
  let s2 := (1 - p0 - xb * (g - p0)) / (xb ^ 2 - xb) in
  let s1 := (g - p0) - s2 in
  calibrated p0 g xb c1 c2 <-> c1 == s1 /\ c2 == s2.
Proof.
  intros Hd s2 s1. unfold calibrated.
  assert (Hs2 : s2 * (xb ^ 2 - xb) == 1 - p0 - xb * (g - p0)).
  { unfold s2. field. exact Hd. }
  change (xb ^ 2) with (xb * xb) in *.
  split.
  - intros [H1 H2].
    assert (Hc2 : c2 * (xb * xb - xb) == s2 * (xb * xb - xb)).
    { rewrite Hs2.
      assert (Hx : xb * (p0 + c1 + c2) == xb * g) by now rewrite H2.
      lra. }
    apply Qmult_inj_r in Hc2; [|exact Hd].
    split; [|exact Hc2]. unfold s1. rewrite <- Hc2. lra.
  - intros [H1 H2]. rewrite H1, H2. unfold s1. split; [|lra].
    lra.
Qed.

(** C6, as stated, fails.  At [x_bep = 1] (with the default idle fraction
    and [gamma = 2]) the coefficients the model uses are neither a
    solution of the calibration constraints nor the fallback; and at a
    negative speed the returned power is not the one of the unguarded
    fraction [clamp(airflow / freeDelivery(speed), 0, 1)]. *)
Lemma power_coeffs_not_calibrated_at_x_bep_1 :
  (let b1 := (convex_coeffs (22 # 100) 2 1).1 in
   let b2 := (convex_coeffs (22 # 100) 2 1).2 in
   ~ calibrated (22 # 100) 2 1 b1 b2 /\ ~ b2 == fallback_b2 2) /\
  (let b1 := (convex_coeffs (22 # 100) 2 (6 # 10)).1 in
   let b2 := (convex_coeffs (22 # 100) 2 (6 # 10)).2 in
   let x := Qmin (Qmax (100 / (Q_free_ref_cfm demo_fan * (-900 / N_ref_rpm demo_fan))) 0) 1 in
   exists p,
     power_model_convex demo_fan 100 (-900) 40 1200 (22 # 100) 2 (6 # 10)
       = Ok p /\
     ~ p == 40 * (-900 / 1200) ^ 3 * ((22 # 100) + b1 * x + b2 * x ^ 2)).
Proof.
  split.
  - vm_compute. split.
    + intros [H _]. discriminate H.
    + intros H. discriminate H.
  - eexists. split; [reflexivity|]. vm_compute. intros H. discriminate H.
Qed.

(** C6 (amended): with [d = x_bep² − x_bep], when [|d| > 1e-9] the first
    solve [(s1, s2)] is the unique solution of the two calibration
    constraints, and when [|d| <= 1e-9] it is computed with the
    denominator [-1e-3] instead; in both cases the model keeps [(s1, s2)]
    when [s2 > 0] and [s1 + 2·s2 > 0], and exactly otherwise replaces it by
    [b2 = max(0.2·(gamma − 1), 1e-3)], [b1 = (gamma − p0) − b2]; the
    returned power is [P_bep × (rpm / N_ref)³ × (p0 + b1·x + b2·x²)] with
    [x = clamp(airflow / max(freeDelivery(rpm), 1e-9), 0, 1)]. *)
Theorem power_model_convex_calibration (fan : FanCurve)
    (Q_cfm rpm P_bep N_ref idle g xb : Q) :
  let b1 := (convex_coeffs idle g xb).1 in
  let b2 := (convex_coeffs idle g xb).2 in
  let keeps_or_falls_back (s1 s2 : Q) :=
    (0 < s2 -> 0 < s1 + 2 * s2 -> b1 = s1 /\ b2 = s2) /\
    (s2 <= 0 \/ s1 + 2 * s2 <= 0 ->
       b2 = fallback_b2 g /\ b1 = (g - idle) - b2) in
  (eps9 < Qabs (xb ^ 2 - xb) ->
     exists s1 s2,
       (forall c1 c2, calibrated idle g xb c1 c2 <-> c1 == s1 /\ c2 == s2) /\
       keeps_or_falls_back s1 s2) /\
  (Qabs (xb ^ 2 - xb) <= eps9 ->
     let s2 := (1 - idle - xb * (g - idle)) / - eps3 in
     keeps_or_falls_back ((g - idle) - s2) s2) /\
  (~ N_ref_rpm fan == 0 -> ~ N_ref == 0 ->
     exists fd,
       free_delivery_cfm fan rpm = Ok fd /\
       let x := Qmin (Qmax (Q_cfm / Qmax fd eps9) 0) 1 in
       power_model_convex fan Q_cfm rpm P_bep N_ref idle g xb
         = Ok (P_bep * (rpm / N_ref) ^ 3 * (idle + b1 * x + b2 * x ^ 2))).
Proof.
  intros b1 b2 keeps.
  assert (Hk : keeps ((g - idle)
                      - (1 - idle - xb * (g - idle)) / calib_denom xb)
                     ((1 - idle - xb * (g - idle)) / calib_denom xb)).
  { unfold keeps, b1, b2.
    destruct (convex_coeffs_cases idle g xb) as [(H2 & H1 & ->)|[Hor ->]];
      simpl; split; try (intros; split; reflexivity).
    - intros [H|H]; lra.
    - intros H2 H1. destruct Hor; lra. }
  split; [|split].
  - intros Hd.
    destruct (calib_denom_cases xb) as [[_ Hc]|[Hle _]];
      [|unfold eps9 in *; lra].
    rewrite Hc in Hk. eexists _, _. split; [|exact Hk].
    intros c1 c2. apply calibrated_unique.
    intros H0. assert (Ha : Qabs (xb ^ 2 - xb) == 0) by now rewrite H0.
    unfold eps9 in Hd. lra.
  - intros Hd.
    destruct (calib_denom_cases xb) as [[Hlt _]|[_ Hc]]; [lra|].
    rewrite Hc in Hk. exact Hk.
  - intros Hf Hn. eexists. split; [now apply free_delivery_ok|].
    cbv zeta. rewrite power_model_convex_ok by assumption.
    unfold np_clip.
    rewrite np_minimum_Qmin, np_maximum_Qmax, py_max_Qmax. reflexivity.
Qed.

Lemma power_model_convex_calibration_witness :
  (convex_coeffs idle_frac_default gamma_free_default x_bep_default).1
    == 58 # 100 /\
  (convex_coeffs idle_frac_default gamma_free_default x_bep_default).2
    == 12 # 10 /\
  exists fd,
    free_delivery_cfm demo_fan 900 = Ok fd /\
    power_model_convex demo_fan 300 900 40 1200 idle_frac_default
      gamma_free_default x_bep_default
    = Ok (40 * (900 / 1200) ^ 3 *
          (idle_frac_default
           + (convex_coeffs idle_frac_default gamma_free_default
                x_bep_default).1 * Qmin (Qmax (300 / Qmax fd eps9) 0) 1
           + (convex_coeffs idle_frac_default gamma_free_default
                x_bep_default).2 * Qmin (Qmax (300 / Qmax fd eps9) 0) 1 ^ 2)).
Proof.
  destruct (power_model_convex_calibration demo_fan 300 900 40 1200
              idle_frac_default gamma_free_default x_bep_default)
    as (Hcal & _ & Hpow).
  destruct Hcal as (s1 & s2 & Huniq & Hkeep & _).
  { vm_compute. reflexivity. }
  assert (Hs : (58 # 100) == s1 /\ (12 # 10) == s2).
  { apply Huniq. vm_compute. split; reflexivity. }
  destruct Hs as [Hs1 Hs2].
  destruct Hkeep as [Hb1 Hb2]; [lra | lra |].
  split; [rewrite Hb1; now symmetry|].
  split; [rewrite Hb2; now symmetry|].
  apply Hpow; simpl; lra.
Defined.





(** ** The time simulation: frames *)

Lemma nth_insert_eq {A} (l : list A) (i : nat) (x d : A) :
  (i < length l)%nat -> nth i (<[i := x]> l) d = x.
Proof.
  intros Hi. apply nth_lookup_Some. now apply list_lookup_insert_eq.
Qed.

Lemma nth_insert_ne {A} (l : list A) (i j : nat) (x d : A) :
  i <> j -> nth j (<[i := x]> l) d = nth j l d.
Proof.
  intros Hne. rewrite !nth_lookup. now rewrite list_lookup_insert_ne.
Qed.

Lemma store_len (T : nat) (c : StratCols) (i : nat) (rpm : option Q)
    (Qx P Qd eps : Q) :
  cols_len T c -> cols_len T (store c i rpm Qx P Qd eps).
Proof.
  intros (H1 & H2 & H3 & H4 & H5 & H6). unfold cols_len, store. simpl.
  destruct rpm; rewrite !length_insert; repeat split; assumption.
Qed.

Lemma store_row_other (c : StratCols) (i j : nat) (rpm : option Q)
    (Qx P Qd eps : Q) :
  i <> j -> strat_row (store c i rpm Qx P Qd eps) j = strat_row c j.
Proof.
  intros Hne. unfold strat_row, store. simpl.
  rewrite !nth_insert_ne by assumption.
  destruct rpm; rewrite ?nth_insert_ne by assumption; reflexivity.
Qed.

Lemma store_row_ok (T : nat) (c : StratCols) (i : nat) (rpm : option Q)
    (Qx P Qd eps : Q) :
  cols_len T c -> (i < T)%nat ->
  row_ok eps Qd (strat_row (store c i rpm Qx P Qd eps) i) /\
  r_Q (strat_row (store c i rpm Qx P Qd eps) i) = Qx /\
  r_P (strat_row (store c i rpm Qx P Qd eps) i) = P.
Proof.
  intros (H1 & H2 & H3 & H4 & H5 & H6) Hi. unfold row_ok, strat_row, store.
  simpl. rewrite !nth_insert_eq by lia. auto.
Qed.

Lemma init_cols_len (T : nat) (rpm0 : Q) : cols_len T (init_cols T rpm0).
Proof.
  unfold cols_len, init_cols, zeros. simpl. rewrite !length_replicate.
  repeat split; reflexivity.
Qed.

Lemma init_data_inv {pw : FloatPow} (cfg : SimConfig) (t Qd k : list Q) :
  sim_inv cfg t Qd k 0 (init_data cfg t Qd k).
Proof.
  unfold sim_inv, init_data. simpl.
  repeat split; try apply init_cols_len; lia.
Qed.

(** What a successful step has done. *)
Lemma sim_step_inv {pw : FloatPow} (fan : FanCurve) (cfg : SimConfig)
    (lo hi : Q) (i : nat) (d d' : SimData) :
  sim_step fan cfg lo hi i d = Ok d' ->
  exists kq Qd_i Qf Pf rpm_m Qm Pm rpm_v Qv Pv,
    d_k d !! i = Some kq /\ d_Qd d !! i = Some Qd_i /\
    step_results fan cfg lo hi kq Qd_i Qf Pf rpm_m Qm Pm rpm_v Qv Pv /\
    d' = mkSimData (d_t d) (d_Qd d) (d_k d)
           (store (d_fixed d) i None Qf Pf Qd_i (eps_cfm cfg))
           (store (d_modes d) i (Some rpm_m) Qm Pm Qd_i (eps_cfm cfg))
           (store (d_var d) i (Some rpm_v) Qv Pv Qd_i (eps_cfm cfg)).
Proof.
  unfold sim_step, index, step_results, pmc.
  destruct (d_k d !! i) as [kq|]; [|discriminate].
  destruct (d_Qd d !! i) as [Qd_i|]; [|discriminate]. cbn [mbind res_bind].
  destruct (opQ fan kq (fixed_rpm cfg)) as [Qf|] eqn:H1; [|discriminate].
  cbn [mbind res_bind].
  destruct (power_model_convex fan Qf _ _ _ _ _ _) as [Pf|] eqn:H2;
    [|discriminate].
  cbn [mbind res_bind].
  destruct (choose_mode_min_power _ _ _ _ _ _ _ _) as [[rpm_m Qm]|] eqn:H3;
    [|discriminate].
  cbn [mbind res_bind].
  destruct (power_model_convex fan Qm _ _ _ _ _ _) as [Pm|] eqn:H4;
    [|discriminate].
  cbn [mbind res_bind].
  destruct (solve_rpm_for_Q _ _ _ _ _ _ _) as [[rpm_v Qv]|] eqn:H5;
    [|discriminate].
  cbn [mbind res_bind].
  destruct (power_model_convex fan Qv _ _ _ _ _ _) as [Pv|] eqn:H6;
    [|discriminate].
  cbn [mbind res_bind]. intros [= <-].
  exists kq, Qd_i, Qf, Pf, rpm_m, Qm, Pm, rpm_v, Qv, Pv.
  repeat split; assumption.
Qed.

(** And conversely. *)
Lemma sim_step_intro {pw : FloatPow} (fan : FanCurve) (cfg : SimConfig)
    (lo hi : Q) (i : nat) (d : SimData)
    (kq Qd_i Qf Pf rpm_m Qm Pm rpm_v Qv Pv : Q) :
  d_k d !! i = Some kq -> d_Qd d !! i = Some Qd_i ->
  step_results fan cfg lo hi kq Qd_i Qf Pf rpm_m Qm Pm rpm_v Qv Pv ->
  sim_step fan cfg lo hi i d =
    Ok (mkSimData (d_t d) (d_Qd d) (d_k d)
          (store (d_fixed d) i None Qf Pf Qd_i (eps_cfm cfg))
          (store (d_modes d) i (Some rpm_m) Qm Pm Qd_i (eps_cfm cfg))
          (store (d_var d) i (Some rpm_v) Qv Pv Qd_i (eps_cfm cfg))).
Proof.
  intros Hk HQ (H1 & H2 & H3 & H4 & H5 & H6). unfold pmc in *.
  unfold sim_step, index. rewrite Hk, HQ. cbn [mbind res_bind].
  rewrite H1. cbn [mbind res_bind]. rewrite H2. cbn [mbind res_bind].
  rewrite H3. cbn [mbind res_bind]. rewrite H4. cbn [mbind res_bind].
  rewrite H5. cbn [mbind res_bind]. rewrite H6. reflexivity.
Qed.

Lemma sim_step_preserves {pw : FloatPow} (fan : FanCurve) (cfg : SimConfig)
    (lo hi : Q) (t Qd k : list Q) (i : nat) (d d' : SimData) :
  sim_step fan cfg lo hi i d = Ok d' ->
  (i < length t)%nat ->
  sim_inv cfg t Qd k i d -> sim_inv cfg t Qd k (S i) d'.
Proof.
  intros Hstep Hi (Ht & HQd & Hk & Lf & Lm & Lv & Hrows).
  apply sim_step_inv in Hstep
    as (kq & Qd_i & Qf & Pf & rpm_m & Qm & Pm & rpm_v & Qv & Pv
        & Hkq & HQi & _ & ->).
  unfold sim_inv. simpl.
  split; [assumption|]. split; [assumption|]. split; [assumption|].
  split; [now apply store_len|]. split; [now apply store_len|].
  split; [now apply store_len|].
  intros j Hj.
  destruct (decide (i = j)) as [<-|Hne].
  - rewrite HQd in HQi. rewrite (nth_lookup_Some _ _ 0 _ HQi).
    split; [|split]; eapply store_row_ok; eassumption.
  - rewrite !store_row_other by assumption. apply Hrows. lia.
Qed.


Lemma sim_steps_preserves {pw : FloatPow} (fan : FanCurve) (cfg : SimConfig)
    (lo hi : Q) (t Qd k : list Q) (m n : nat) (d d' : SimData) :
  sim_steps fan cfg lo hi (seq n m) d = Ok d' ->
  (n + m <= length t)%nat ->
  sim_inv cfg t Qd k n d -> sim_inv cfg t Qd k (n + m) d'.
Proof.
  revert n d. induction m as [|m IH]; intros n d; simpl.
  - intros [= <-] _ Hinv. now rewrite Nat.add_0_r.
  - destruct (sim_step fan cfg lo hi n d) as [d1|] eqn:Hs; [|discriminate].
    cbn [mbind res_bind]. intros Hrest Hlen Hinv.
    replace (n + S m)%nat with (S n + m)%nat by lia.
    apply (IH (S n) d1 Hrest); [lia|].
    eapply sim_step_preserves; [eassumption | lia | assumption].
Qed.

(** ** The time simulation: when it returns and when it raises *)

Lemma bisect_total {pw : FloatPow} (fan : FanCurve) (k Qt eps : Q)
    (iters : nat) (lo hi : Q) (tr : list Q) :
  ~ N_ref_rpm fan == 0 ->
  exists r, bisect fan k Qt eps iters lo hi tr = Ok r.
Proof.
  intros Hf. revert lo hi tr.
  induction iters as [|n IH]; intros lo hi tr; simpl.
  - destruct (opQ_total fan k ((1 # 2) * (lo + hi)) Hf) as [q ->].
    simpl. eauto.
  - destruct (opQ_total fan k ((1 # 2) * (lo + hi)) Hf) as [q ->].
    simpl. destruct (q <? Qt - eps); [apply IH|].
    destruct (Qt + eps <? q); [apply IH | eauto].
Qed.

Lemma solve_rpm_for_Q_total {pw : FloatPow} (fan : FanCurve)
    (k Qt lo hi eps : Q) (iters : nat) :
  ~ N_ref_rpm fan == 0 ->
  exists r, solve_rpm_for_Q fan k Qt lo hi eps iters = Ok r.
Proof.
  intros Hf. unfold solve_rpm_for_Q, solve_rpm_for_Q_traced.
  destruct (opQ_total fan k lo Hf) as [Q_lo ->].
  destruct (opQ_total fan k hi Hf) as [Q_hi ->]. simpl.
  destruct (Qt <=? Q_lo + eps); [simpl; eauto|].
  destruct (Q_hi - eps <=? Qt); [simpl; eauto|].
  destruct (bisect_total fan k Qt eps iters lo hi [lo; hi] Hf) as [r ->].
  simpl. eauto.
Qed.

Lemma pmc_total (fan : FanCurve) (cfg : SimConfig) (Qx rpm : Q) :
  ~ N_ref_rpm fan == 0 -> ~ cfg_N_ref_rpm cfg == 0 ->
  exists p, pmc fan cfg Qx rpm = Ok p.
Proof.
  intros Hf Hn. unfold pmc. rewrite power_model_convex_ok by assumption.
  eauto.
Qed.

Lemma sim_step_ok {pw : FloatPow} (fan : FanCurve) (cfg : SimConfig)
    (lo hi : Q) (i : nat) (d : SimData) :
  sim_ready fan cfg ->
  (i < length (d_k d))%nat -> (i < length (d_Qd d))%nat ->
  exists d', sim_step fan cfg lo hi i d = Ok d'.
Proof.
  intros (Hf & Hn & Hs) Hk HQ.
  destruct (lookup_lt_is_Some_2 _ _ Hk) as [kq Hkq].
  destruct (lookup_lt_is_Some_2 _ _ HQ) as [Qd_i HQi].
  destruct (opQ_total fan kq (fixed_rpm cfg) Hf) as [Qf H1].
  destruct (pmc_total fan cfg Qf (fixed_rpm cfg) Hf Hn) as [Pf H2].
  destruct (choose_mode_min_power_returns fan kq (speeds_rpm cfg) Qd_i
              (eps_cfm cfg) power_model_convex_5 (P_bep_ref_W cfg)
              (cfg_N_ref_rpm cfg) Hs) as [[rpm_m Qm] H3].
  { now apply mode_evaluations_ok. }
  destruct (pmc_total fan cfg Qm rpm_m Hf Hn) as [Pm H4].
  destruct (solve_rpm_for_Q_total fan kq Qd_i lo hi (eps_cfm cfg)
              iters_default Hf) as [[rpm_v Qv] H5].
  destruct (pmc_total fan cfg Qv rpm_v Hf Hn) as [Pv H6].
  eexists. eapply sim_step_intro; [eassumption..|].
  repeat split; eassumption.
Qed.


Lemma sim_step_inputs {pw : FloatPow} (fan : FanCurve) (cfg : SimConfig)
    (lo hi : Q) (i : nat) (d d' : SimData) :
  sim_step fan cfg lo hi i d = Ok d' ->
  d_t d' = d_t d /\ d_Qd d' = d_Qd d /\ d_k d' = d_k d /\
  (i < length (d_k d))%nat /\ (i < length (d_Qd d))%nat.
Proof.
  intros Hs. apply sim_step_inv in Hs
    as (kq & Qd_i & Qf & Pf & rpm_m & Qm & Pm & rpm_v & Qv & Pv
        & Hkq & HQi & _ & ->).
  simpl. apply lookup_lt_Some in Hkq. apply lookup_lt_Some in HQi. auto.
Qed.

Lemma sim_steps_ok {pw : FloatPow} (fan : FanCurve) (cfg : SimConfig)
    (lo hi : Q) (m n : nat) (d : SimData) :
  sim_ready fan cfg ->
  (n + m <= length (d_k d))%nat -> (n + m <= length (d_Qd d))%nat ->
  exists d', sim_steps fan cfg lo hi (seq n m) d = Ok d'.
Proof.
  intros Hr. revert n d. induction m as [|m IH]; intros n d Hk HQ; simpl.
  - eauto.
  - destruct (sim_step_ok fan cfg lo hi n d Hr) as [d1 H1]; [lia..|].
    rewrite H1. cbn [mbind res_bind].
    apply sim_step_inputs in H1 as (_ & HQ1 & Hk1 & _).
    apply IH; [rewrite Hk1 | rewrite HQ1]; lia.
Qed.

Lemma sim_steps_inputs {pw : FloatPow} (fan : FanCurve) (cfg : SimConfig)
    (lo hi : Q) (m n : nat) (d d' : SimData) :
  sim_steps fan cfg lo hi (seq n m) d = Ok d' ->
  d_t d' = d_t d /\ d_Qd d' = d_Qd d /\ d_k d' = d_k d /\
  ((0 < m)%nat ->
   (n + m <= length (d_k d))%nat /\ (n + m <= length (d_Qd d))%nat).
Proof.
  revert n d. induction m as [|m IH]; intros n d; simpl.
  - intros [= <-]. repeat split; lia.
  - destruct (sim_step fan cfg lo hi n d) as [d1|] eqn:H1; [|discriminate].
    cbn [mbind res_bind]. intros Hrest.
    apply sim_step_inputs in H1 as (Ht1 & HQ1 & Hk1 & Hlk & HlQ).
    apply IH in Hrest as (Ht & HQ & Hk & Hlen).
    rewrite Ht, HQ, Hk, Ht1, HQ1, Hk1. repeat split; try reflexivity.
    + destruct m; [lia|]. rewrite Hk1 in Hlen. lia.
    + destruct m; [lia|]. rewrite HQ1 in Hlen. lia.
Qed.

Lemma bounds_ok (cfg : SimConfig) :
  speeds_rpm cfg <> [] -> exists lo hi, bounds cfg = Ok (lo, hi).
Proof.
  intros Hs. unfold bounds. destruct (rpm_bounds cfg) as [[lo hi]|]; [eauto|].
  destruct (speeds_rpm cfg) as [|x l]; [congruence|]. simpl. eauto.
Qed.

Lemma run_time_sim_unfold {pw : FloatPow} (fan : FanCurve)
    (t Qd k : list Q) (cfg : SimConfig) (lo hi : Q) :
  bounds cfg = Ok (lo, hi) ->
  run_time_sim fan t Qd k cfg =
    data ← sim_steps fan cfg lo hi (seq 0 (length t)) (init_data cfg t Qd k);
    df ← pd_DataFrame data;
    Ok (mkDataFrame df (time_step t),
        mkMetrics (_agg (d_fixed df) (time_step t) (lambda_shortfall cfg))
                  (_agg (d_modes df) (time_step t) (lambda_shortfall cfg))
                  (_agg (d_var df) (time_step t) (lambda_shortfall cfg))
                  (eps_cfm cfg) (lambda_shortfall cfg)).
Proof. intros Hb. unfold run_time_sim. rewrite Hb. reflexivity. Qed.

Lemma pd_DataFrame_inv (d d' : SimData) :
  pd_DataFrame d = Ok d' ->
  d' = d /\ length (d_Qd d) = length (d_t d) /\
  length (d_k d) = length (d_t d).
Proof.
  unfold pd_DataFrame.
  destruct (Nat.eqb_spec (length (d_Qd d)) (length (d_t d)));
    destruct (Nat.eqb_spec (length (d_k d)) (length (d_t d)));
    simpl; try discriminate.
  intros [= <-]. auto.
Qed.

(** A run that returns: the inputs had equal lengths, every step ran, and
    the frame and metrics are those of the final loop state. *)
Lemma run_time_sim_inv {pw : FloatPow} (fan : FanCurve) (t Qd k : list Q)
    (cfg : SimConfig) (df : DataFrame) (m : Metrics) :
  run_time_sim fan t Qd k cfg = Ok (df, m) ->
  length Qd = length t /\ length k = length t /\
  sim_inv cfg t Qd k (length t) (df_data df) /\
  df_dt_s df = time_step t /\
  m = mkMetrics
        (_agg (d_fixed (df_data df)) (time_step t) (lambda_shortfall cfg))
        (_agg (d_modes (df_data df)) (time_step t) (lambda_shortfall cfg))
        (_agg (d_var (df_data df)) (time_step t) (lambda_shortfall cfg))
        (eps_cfm cfg) (lambda_shortfall cfg).
Proof.
  unfold run_time_sim.
  destruct (bounds cfg) as [[lo hi]|]; [|discriminate]. cbn [mbind res_bind].
  destruct (sim_steps _ _ _ _ _ _) as [d|] eqn:Hsteps; [|discriminate].
  cbn [mbind res_bind].
  destruct (pd_DataFrame d) as [d'|] eqn:Hdf; [|discriminate].
  cbn [mbind res_bind]. intros [= <- <-]. simpl.
  apply pd_DataFrame_inv in Hdf as (-> & HlQ & Hlk).
  pose proof (sim_steps_inputs _ _ _ _ _ _ _ _ Hsteps) as (Ht & HQ & Hk & _).
  simpl in Ht, HQ, Hk. rewrite Ht, HQ in HlQ. rewrite Ht, Hk in Hlk.
  split; [assumption|]. split; [assumption|].
  split; [|split; reflexivity].
  apply (sim_steps_preserves fan cfg lo hi t Qd k (length t) 0 _ _ Hsteps);
    [lia | apply init_data_inv].
Qed.

(** A run on inputs of equal lengths, with non-zero reference speeds and
    at least one mode, returns. *)
Lemma run_time_sim_ok {pw : FloatPow} (fan : FanCurve) (t Qd k : list Q)
    (cfg : SimConfig) :
  sim_ready fan cfg ->
  length Qd = length t -> length k = length t ->
  exists df m, run_time_sim fan t Qd k cfg = Ok (df, m).
Proof.
  intros Hr HQ Hk.
  destruct (bounds_ok cfg) as (lo & hi & Hb); [apply Hr|].
  rewrite (run_time_sim_unfold fan t Qd k cfg lo hi Hb).
  destruct (sim_steps_ok fan cfg lo hi (length t) 0 (init_data cfg t Qd k) Hr)
    as [d Hd]; [simpl; lia..|].
  rewrite Hd. cbn [mbind res_bind].
  pose proof (sim_steps_inputs _ _ _ _ _ _ _ _ Hd) as (Ht' & HQ' & Hk' & _).
  simpl in Ht', HQ', Hk'.
  unfold pd_DataFrame. rewrite Ht', HQ', Hk', HQ, Hk, !Nat.eqb_refl.
  simpl. eauto.
Qed.

Lemma demo_ready : sim_ready demo_fan demo_cfg.
Proof. repeat split; simpl; try lra. discriminate. Qed.

(** ** Compliance, shortfall and oversupply *)

Lemma step_conservation (Qx Qd eps : Q) :
  compliant Qx Qd eps = true ->
  shortfall Qx Qd eps = 0 /\ oversupply Qx Qd eps = 0.
Proof.
  unfold compliant, shortfall, oversupply, py_max. intros Hc.
  apply Qle_bool_iff, Qabs_Qle_condition in Hc.
  assert (H1 : (0 <? Qd - Qx - eps) = false) by (apply Qlt_bool_false_iff; lra).
  assert (H2 : (0 <? Qx - Qd - eps) = false) by (apply Qlt_bool_false_iff; lra).
  now rewrite H1, H2.
Qed.

Lemma elem_of_frames (d : SimData) (fr : Frame) :
  fr ∈ frames d <-> exists i, (i < length (d_t d))%nat /\ fr = frame_at d i.
Proof.
  unfold frames. rewrite list_elem_of_fmap. split.
  - intros (i & -> & Hi). apply elem_of_seq in Hi. exists i. split; [lia|auto].
  - intros (i & Hi & ->). exists i. split; [reflexivity|].
    apply elem_of_seq. lia.
Qed.

Lemma length_frames (d : SimData) : length (frames d) = length (d_t d).
Proof. unfold frames. now rewrite length_fmap, length_seq. Qed.

(** C4: in every frame of a run, for each of the three strategies, the
    compliance flag is [|delivered − demand| <= tolerance], the shortfall
    is [max(0, demand − delivered − tolerance)], the oversupply is
    [max(0, delivered − demand − tolerance)], and a compliant step has
    shortfall and oversupply exactly 0: shortfall × compliant == 0 and
    oversupply × compliant == 0.  There is one frame per timestamp. *)
Theorem frames_conservation {pw : FloatPow} (fan : FanCurve)
    (t Qd k : list Q) (cfg : SimConfig) (df : DataFrame) (m : Metrics) :
  run_time_sim fan t Qd k cfg = Ok (df, m) ->
  length (frames (df_data df)) = length t /\
  forall fr, fr ∈ frames (df_data df) ->
  forall r, r ∈ [f_fixed fr; f_modes fr; f_var fr] ->
    let flag : Q := if r_c r then 1 else 0 in
    (r_c r = true <-> Qabs (r_Q r - f_Qd fr) <= eps_cfm cfg) /\
    r_s r = Qmax 0 (f_Qd fr - r_Q r - eps_cfm cfg) /\
    r_o r = Qmax 0 (r_Q r - f_Qd fr - eps_cfm cfg) /\
    (r_c r = true -> r_s r = 0 /\ r_o r = 0) /\
    r_s r * flag == 0 /\ r_o r * flag == 0.
Proof.
  intros Hrun.
  apply run_time_sim_inv in Hrun
    as (HlQ & Hlk & (Ht & HQd & Hk & _ & _ & _ & Hrows) & _ & _).
  split; [now rewrite length_frames, Ht|].
  intros fr Hfr r Hr.
  apply elem_of_frames in Hfr as (i & Hi & ->). rewrite Ht in Hi.
  specialize (Hrows i Hi). simpl in Hr |- *. rewrite HQd.
  assert (Hok : row_ok (eps_cfm cfg) (nth i Qd 0) r).
  { destruct Hrows as (Hf & Hm & Hv).
    apply elem_of_cons in Hr as [->|Hr]; [assumption|].
    apply elem_of_cons in Hr as [->|Hr]; [assumption|].
    apply elem_of_cons in Hr as [->|Hr]; [assumption|].
    now apply elem_of_nil in Hr. }
  destruct Hok as (Hc & Hs & Ho).
  assert (Hzero : r_c r = true -> r_s r = 0 /\ r_o r = 0).
  { intros Hct. rewrite Hs, Ho. apply step_conservation. now rewrite <- Hc. }
  split; [rewrite Hc; apply Qle_bool_iff|].
  split; [rewrite Hs; apply py_max_Qmax|].
  split; [rewrite Ho; apply py_max_Qmax|].
  split; [exact Hzero|].
  destruct (r_c r).
  - destruct Hzero as [-> ->]; [reflexivity|]. split; reflexivity.
  - split; ring.
Qed.

Lemma frames_conservation_witness :
  exists df m,
    run_time_sim (pw := pow_int) demo_fan [0; 1; 2] [300; 310; 250]
      [k_clean; k_clean; k_fouled] demo_cfg = Ok (df, m) /\
    length (frames (df_data df)) = length [0; 1; 2] /\
    forall fr, fr ∈ frames (df_data df) ->
    forall r, r ∈ [f_fixed fr; f_modes fr; f_var fr] ->
      let flag : Q := if r_c r then 1 else 0 in
      (r_c r = true <-> Qabs (r_Q r - f_Qd fr) <= eps_cfm demo_cfg) /\
      r_s r = Qmax 0 (f_Qd fr - r_Q r - eps_cfm demo_cfg) /\
      r_o r = Qmax 0 (r_Q r - f_Qd fr - eps_cfm demo_cfg) /\
      (r_c r = true -> r_s r = 0 /\ r_o r = 0) /\
      r_s r * flag == 0 /\ r_o r * flag == 0.
Proof.
  destruct (run_time_sim_ok (pw := pow_int) demo_fan [0; 1; 2] [300; 310; 250]
              [k_clean; k_clean; k_fouled] demo_cfg demo_ready
              eq_refl eq_refl) as (df & m & Hrun).
  exists df, m. split; [exact Hrun|].
  exact (frames_conservation (pw := pow_int) demo_fan [0; 1; 2]
           [300; 310; 250] [k_clean; k_clean; k_fouled] demo_cfg df m Hrun).
Defined.

(** ** Malformed input *)






(** ** Aggregates *)

(** *** The time step: median of the consecutive differences *)

Lemma insert_sorted_perm (x : Q) (l : list Q) :
  Permutation (x :: l) (insert_sorted x l).
Proof.
  induction l as [|y l IH]; simpl; [reflexivity|].
  destruct (x <=? y); [reflexivity|].
  rewrite Permutation_swap. now constructor.
Qed.

Lemma insert_sorted_sorted (x : Q) (l : list Q) :
  Sorted Qle l -> Sorted Qle (insert_sorted x l).
Proof.
  induction l as [|y l IH]; simpl; intros Hs.
  - repeat constructor.
  - destruct (x <=? y) eqn:E.
    + apply Qle_bool_iff in E. constructor; [assumption|]. now constructor.
    + apply Qle_bool_false_iff in E.
      inversion Hs as [|? ? Hs' Hhd]; subst.
      constructor; [now apply IH|].
      destruct l as [|z l]; simpl.
      * constructor. lra.
      * destruct (x <=? z); constructor; [lra|].
        inversion Hhd; subst. assumption.
Qed.

Lemma np_sort_perm (l : list Q) : Permutation l (np_sort l).
Proof.
  induction l as [|x l IH]; simpl; [reflexivity|].
  rewrite <- insert_sorted_perm. now constructor.
Qed.

Lemma np_sort_sorted (l : list Q) : Sorted Qle (np_sort l).
Proof.
  induction l as [|x l IH]; simpl; [constructor|].
  now apply insert_sorted_sorted.
Qed.

Lemma np_median_is_median (l : list Q) : is_median l (np_median l).
Proof.
  exists (np_sort l). split; [apply np_sort_perm|].
  split; [apply np_sort_sorted | reflexivity].
Qed.

Lemma np_diff_spec (t : list Q) :
  length (np_diff t) = (length t - 1)%nat /\
  forall i, (S i < length t)%nat ->
    nth i (np_diff t) 0 = nth (S i) t 0 - nth i t 0.
Proof.
  unfold np_diff. induction t as [|a t IH]; simpl.
  - split; [reflexivity|]. intros i Hi. lia.
  - destruct t as [|b t]; simpl in *.
    + split; [reflexivity|]. intros i Hi. lia.
    + destruct IH as [Hl Hn]. split; [rewrite Hl; lia|].
      intros [|i] Hi; [reflexivity|]. apply Hn. lia.
Qed.

(** *** Sums over frames *)

Lemma np_sum_fmap (f : Frame -> Q) (frs : list Frame) :
  np_sum (f <$> frs) = sum_frames f frs.
Proof.
  induction frs as [|fr frs IH]; [reflexivity|].
  change (np_sum (f <$> fr :: frs)) with (f fr + np_sum (f <$> frs)).
  now rewrite IH.
Qed.

Lemma count_true_fmap (f : Frame -> bool) (frs : list Frame) :
  count_true (f <$> frs) = inject_Z (Z.of_nat (count_frames f frs)).
Proof.
  unfold count_true, count_frames. do 2 f_equal.
  induction frs as [|fr frs IH]; [reflexivity|].
  change (List.filter id (f <$> fr :: frs))
    with (if f fr then f fr :: List.filter id (f <$> frs)
          else List.filter id (f <$> frs)).
  simpl. destruct (f fr); simpl; now rewrite IH.
Qed.

Lemma fmap_nth_seq {A} (l : list A) (dflt : A) :
  (fun i => nth i l dflt) <$> seq 0 (length l) = l.
Proof.
  apply list_eq. intros i. rewrite list_lookup_fmap.
  destruct (decide (i < length l)%nat) as [Hi|Hi].
  - rewrite lookup_seq_lt by assumption. simpl.
    destruct (lookup_lt_is_Some_2 l i Hi) as [x Hx].
    rewrite Hx. f_equal. now apply nth_lookup_Some.
  - rewrite (lookup_ge_None_2 l) by lia.
    rewrite (lookup_ge_None_2 (seq 0 (length l)));
      [reflexivity | rewrite length_seq; lia].
Qed.

(** The columns of a strategy are the entries of the frames. *)
Lemma frames_columns (d : SimData) (sel : Frame -> StratRow)
    (c : StratCols) :
  (forall i, sel (frame_at d i) = strat_row c i) ->
  cols_len (length (d_t d)) c ->
  (r_P ∘ sel) <$> frames d = col_P c /\
  (r_Q ∘ sel) <$> frames d = col_Q c /\
  (r_s ∘ sel) <$> frames d = col_s c /\
  (r_o ∘ sel) <$> frames d = col_o c /\
  (r_c ∘ sel) <$> frames d = col_c c.
Proof.
  intros Hsel (H1 & H2 & H3 & H4 & H5 & H6). unfold frames.
  rewrite <- !list_fmap_compose.
  repeat split.
  - rewrite <- (fmap_nth_seq (col_P c) 0) at 1. rewrite H3.
    apply list_fmap_ext. intros i j _. simpl. now rewrite Hsel.
  - rewrite <- (fmap_nth_seq (col_Q c) 0) at 1. rewrite H1.
    apply list_fmap_ext. intros i j _. simpl. now rewrite Hsel.
  - rewrite <- (fmap_nth_seq (col_s c) 0) at 1. rewrite H5.
    apply list_fmap_ext. intros i j _. simpl. now rewrite Hsel.
  - rewrite <- (fmap_nth_seq (col_o c) 0) at 1. rewrite H6.
    apply list_fmap_ext. intros i j _. simpl. now rewrite Hsel.
  - rewrite <- (fmap_nth_seq (col_c c) false) at 1. rewrite H4.
    apply list_fmap_ext. intros i j _. simpl. now rewrite Hsel.
Qed.

Lemma agg_agg_spec (d : SimData) (sel : Frame -> StratRow) (c : StratCols)
    (dt lam : Q) :
  (forall i, sel (frame_at d i) = strat_row c i) ->
  cols_len (length (d_t d)) c ->
  agg_spec (frames d) sel dt lam (_agg c dt lam).
Proof.
  intros Hsel Hlen.
  destruct (frames_columns d sel c Hsel Hlen) as (HP & HQ & Hs & Ho & Hc).
  unfold agg_spec, _agg. simpl.
  rewrite <- HP, <- HQ, <- Hs, <- Ho, <- Hc, !np_sum_fmap, count_true_fmap.
  unfold len. rewrite length_fmap, py_max_Qmax.
  repeat split; reflexivity.
Qed.

(** C5: every run on [T >= 1] timestamps that returns has a frame per
    timestamp and, per strategy, the record with
    [Wh = (Σ power)·Δt/3600], delivered, shortfall and oversupply
    airflow-time likewise, [compliance = 100 × compliant / total],
    [SFP = Wh / max(delivered, 1e-9)] and
    [objective = Wh + λ × shortfall], where [Δt] is the median of the
    consecutive timestamp differences, or 1 for a single timestamp; and
    the run returns when there are as many demands and resistances as
    timestamps (non-zero reference speeds, at least one mode). *)
Theorem run_time_sim_aggregates {pw : FloatPow} (fan : FanCurve)
    (t Qd k : list Q) (cfg : SimConfig) :
  (1 <= length t)%nat ->
  (forall df m,
     run_time_sim fan t Qd k cfg = Ok (df, m) ->
     let frs := frames (df_data df) in
     let dt := df_dt_s df in
     let lam := lambda_shortfall cfg in
     length frs = length t /\
     (length t = 1%nat -> dt = 1) /\
     ((1 < length t)%nat ->
        is_median (np_diff t) dt /\
        length (np_diff t) = (length t - 1)%nat /\
        forall i, (S i < length t)%nat ->
          nth i (np_diff t) 0 = nth (S i) t 0 - nth i t 0) /\
     agg_spec frs f_fixed dt lam (m_fixed m) /\
     agg_spec frs f_modes dt lam (m_modes m) /\
     agg_spec frs f_var dt lam (m_var m)) /\
  (sim_ready fan cfg -> length Qd = length t -> length k = length t ->
   exists df m, run_time_sim fan t Qd k cfg = Ok (df, m)).
Proof.
  intros HT. split; [|now apply run_time_sim_ok].
  intros df m Hrun.
  apply run_time_sim_inv in Hrun
    as (_ & _ & (Ht & _ & _ & Lf & Lm & Lv & _) & Hdt & ->).
  cbv zeta. rewrite Hdt. simpl.
  split; [now rewrite length_frames, Ht|].
  split.
  { intros H1. unfold time_step. now rewrite H1. }
  split.
  { intros H1. unfold time_step.
    destruct (Nat.ltb_spec 1 (length t)); [|lia].
    split; [apply np_median_is_median | apply np_diff_spec]. }
  rewrite <- Ht in Lf, Lm, Lv.
  split; [|split]; apply agg_agg_spec; auto.
Qed.

Lemma run_time_sim_aggregates_witness :
  exists df m,
    run_time_sim (pw := pow_int) demo_fan [0; 1; 3] [300; 310; 250]
      [k_clean; k_clean; k_fouled] demo_cfg = Ok (df, m) /\
    length (frames (df_data df)) = 3%nat /\
    is_median (np_diff [0; 1; 3]) (df_dt_s df) /\
    agg_spec (frames (df_data df)) f_fixed (df_dt_s df)
      (lambda_shortfall demo_cfg) (m_fixed m) /\
    agg_spec (frames (df_data df)) f_modes (df_dt_s df)
      (lambda_shortfall demo_cfg) (m_modes m) /\
    agg_spec (frames (df_data df)) f_var (df_dt_s df)
      (lambda_shortfall demo_cfg) (m_var m).
Proof.
  destruct (run_time_sim_aggregates (pw := pow_int) demo_fan [0; 1; 3]
              [300; 310; 250] [k_clean; k_clean; k_fouled] demo_cfg)
    as [Hspec Hret]; [simpl; lia|].
  destruct (Hret demo_ready eq_refl eq_refl) as (df & m & Hrun).
  exists df, m. split; [exact Hrun|].
  destruct (Hspec df m Hrun) as (Hlen & _ & Hmed & Hf & Hm & Hv).
  split; [exact Hlen|].
  split; [apply Hmed; simpl; lia|].
  auto.
Defined.

(** The time step of three samples one and two seconds apart is the mean
    of the two differences; of a single sample it is 1. *)
Example time_step_demo :
  time_step [0; 1; 3] == 3 # 2 /\ time_step [7] = 1 /\
  time_step [0; 1; 2; 10] == 1.
Proof. vm_compute. auto. Qed.

(** ** Monotonicity of the operating point in the speed *)

Lemma Qlt_bool_comp (a a' b b' : Q) :
  a == a' -> b == b' -> (a <? b) = (a' <? b').
Proof. intros Ha Hb. unfold Qlt_bool. now rewrite Ha, Hb. Qed.

Lemma np_maximum_comp (a a' b b' : Q) :
  a == a' -> b == b' -> np_maximum a b == np_maximum a' b'.
Proof.
  intros Ha Hb. unfold np_maximum. rewrite (Qlt_bool_comp a a' b b' Ha Hb).
  destruct (a' <? b'); assumption.
Qed.

Lemma np_minimum_comp (a a' b b' : Q) :
  a == a' -> b == b' -> np_minimum a b == np_minimum a' b'.
Proof.
  intros Ha Hb. unfold np_minimum. rewrite (Qlt_bool_comp b b' a a' Hb Ha).
  destruct (b' <? a'); assumption.
Qed.

Lemma np_clip_comp (x x' lo hi : Q) :
  x == x' -> np_clip x lo hi == np_clip x' lo hi.
Proof.
  intros Hx. unfold np_clip.
  apply np_minimum_comp; [|reflexivity].
  apply np_maximum_comp; [assumption | reflexivity].
Qed.

(** Scaling every entry by the same positive factor does not move the
    argmin. *)
Lemma argmin_from_scale (c : Q) (l1 l2 : list Q) (i bi : nat) (bv1 bv2 : Q) :
  0 < c ->
  Forall2 (fun a b => a == c * b) l1 l2 ->
  bv1 == c * bv2 ->
  argmin_from l1 i bi bv1 = argmin_from l2 i bi bv2.
Proof.
  intros Hc HF. revert i bi bv1 bv2.
  induction HF as [|a b l1 l2 Hab HF IH]; intros i bi bv1 bv2 Hbv; simpl.
  - reflexivity.
  - assert (Hcmp : (a <? bv1) = (b <? bv2)).
    { rewrite (Qlt_bool_comp a (c * b) bv1 (c * bv2) Hab Hbv).
      destruct (b <? bv2) eqn:E.
      - apply Qlt_bool_iff in E. apply Qlt_bool_iff.
        apply Qmult_lt_l; assumption.
      - apply Qlt_bool_false_iff in E. apply Qlt_bool_false_iff.
        apply Qmult_le_l; assumption. }
    rewrite Hcmp. destruct (b <? bv2); apply IH; assumption.
Qed.

Lemma np_argmin_scale (c : Q) (l1 l2 : list Q) :
  0 < c -> Forall2 (fun a b => a == c * b) l1 l2 ->
  np_argmin l1 = np_argmin l2.
Proof.
  intros Hc HF. destruct HF as [|a b l1 l2 Hab HF]; simpl; [reflexivity|].
  f_equal. now apply (argmin_from_scale c).
Qed.

Lemma inject_nat_nonneg (j : nat) : 0 <= inject_Z (Z.of_nat j).
Proof. unfold Qle. simpl. lia. Qed.

Lemma unit_grid_nonneg (n j : nat) : 0 <= nth j (unit_grid n) 0.
Proof.
  rewrite nth_lookup. unfold unit_grid. rewrite list_lookup_fmap.
  destruct (seq 0 n !! j) as [i|]; simpl; [|lra].
  apply Qmult_le_0_compat; [apply inject_nat_nonneg|].
  apply Qinv_le_0_compat, inject_nat_nonneg.
Qed.

(** The samples of [np.linspace(0, Q_free, n)] are the unit grid times
    [Q_free]. *)
Lemma linspace_unit_grid (Q_free : Q) (n : nat) :
  Forall2 (fun q u => q == u * Q_free) (np_linspace 0 Q_free n) (unit_grid n).
Proof.
  unfold np_linspace, unit_grid. apply Forall2_fmap.
  apply Forall_Forall2_diag, Forall_true. intros j.
  unfold Qdiv. ring.
Qed.

Section Monotone.
Context {pw : FloatPow}.
Hypothesis fpow_comp : forall x y e : Q, x == y -> fpow x e == fpow y e.

(** At the speed ratio [r], with free delivery above [1e-9], the gap at
    the airflow [u × free delivery] is [r²] times the unit gap at [u]. *)
Lemma gap_scale (fan : FanCurve) (k r q u : Q) :
  eps9 < Q_free_ref_cfm fan * r ->
  q == u * (Q_free_ref_cfm fan * r) ->
  Qabs (dP_elem fan (Q_free_ref_cfm fan * r) (dP_shut_ref_Pa fan * r ^ 2) q
        - k * q ^ 2)
  == r ^ 2 * unit_gap fan k u.
Proof.
  intros Hfree Hq. unfold dP_elem, unit_gap.
  assert (Hmax : py_max (Q_free_ref_cfm fan * r) eps9 = Q_free_ref_cfm fan * r).
  { unfold py_max.
    assert (E : (Q_free_ref_cfm fan * r <? eps9) = false)
      by (apply Qlt_bool_false_iff; lra).
    now rewrite E. }
  rewrite Hmax.
  assert (Hx : q / (Q_free_ref_cfm fan * r) == u).
  { rewrite Hq. apply Qdiv_mult_l. intros H0. rewrite H0 in Hfree.
    unfold eps9 in Hfree. lra. }
  set (A := np_maximum (1 - fpow (np_clip (q / _) 0 10) (n_shape fan)) 0).
  set (A' := np_maximum (1 - fpow (np_clip u 0 10) (n_shape fan)) 0).
  assert (HA : A == A').
  { apply np_maximum_comp; [|reflexivity].
    apply Qplus_comp; [reflexivity|]. apply Qopp_comp.
    apply fpow_comp. now apply np_clip_comp. }
  assert (Hr : 0 <= r ^ 2) by apply sq_nonneg.
  rewrite <- (Qabs_pos (r ^ 2)) at 2 by exact Hr.
  rewrite <- Qabs_Qmult. apply Qabs_wd.
  rewrite HA, Hq. change (r ^ 2) with (r * r).
  change ((u * (Q_free_ref_cfm fan * r)) ^ 2)
    with ((u * (Q_free_ref_cfm fan * r)) * (u * (Q_free_ref_cfm fan * r))).
  change ((Q_free_ref_cfm fan * u) ^ 2)
    with ((Q_free_ref_cfm fan * u) * (Q_free_ref_cfm fan * u)).
  ring.
Qed.

(** Above the free-delivery floor the grid search returns the fraction
    [u_star] of the free delivery. *)
Lemma operating_point_Q_fraction (fan : FanCurve) (k rpm : Q) (n : nat)
    (q : Q) :
  ~ N_ref_rpm fan == 0 ->
  eps9 < Q_free_ref_cfm fan * (rpm / N_ref_rpm fan) ->
  operating_point_Q fan k rpm n = Ok q ->
  q == u_star fan k n * (Q_free_ref_cfm fan * (rpm / N_ref_rpm fan)).
Proof.
  intros Hf Hfree. rewrite operating_point_Q_unfold by assumption.
  set (r := rpm / N_ref_rpm fan) in *.
  set (Q_free := Q_free_ref_cfm fan * r) in *.
  assert (E : (Q_free <=? eps9) = false) by now apply Qle_bool_false_iff.
  rewrite E.
  assert (Hr2 : 0 < r ^ 2).
  { change (r ^ 2) with (r * r).
    assert (~ r == 0).
    { intros H0. unfold Q_free in Hfree. rewrite H0 in Hfree.
      unfold eps9 in Hfree. lra. }
    nra. }
  pose proof (linspace_unit_grid Q_free n) as Hgrid.
  assert (Hgap : Forall2 (fun a b => a == r ^ 2 * b)
                   (grid_gap fan k Q_free (dP_shut_ref_Pa fan * r ^ 2)
                      (np_linspace 0 Q_free n))
                   (unit_gap fan k <$> unit_grid n)).
  { unfold grid_gap. apply Forall2_fmap.
    eapply Forall2_impl; [exact Hgrid|]. intros x u Hxu. cbv beta.
    exact (gap_scale fan k r x u Hfree Hxu). }
  rewrite (np_argmin_scale (r ^ 2) _ _ Hr2 Hgap).
  unfold u_star.
  destruct (np_argmin (unit_gap fan k <$> unit_grid n)) as [j|];
    [|discriminate].
  cbn [mbind res_bind]. unfold index.
  destruct (np_linspace 0 Q_free n !! j) as [x|] eqn:Hx; [|discriminate].
  intros [= <-].
  destruct (Forall2_lookup_l _ _ _ _ _ Hgrid Hx) as (u & Hu & Hxu).
  now rewrite (nth_lookup_Some _ _ 0 _ Hu).
Qed.

Lemma u_star_nonneg (fan : FanCurve) (k : Q) (n : nat) : 0 <= u_star fan k n.
Proof.
  unfold u_star. destruct (np_argmin _); [apply unit_grid_nonneg | lra].
Qed.

Lemma operating_point_Q_floor (fan : FanCurve) (k rpm : Q) (n : nat) (q : Q) :
  ~ N_ref_rpm fan == 0 ->
  Q_free_ref_cfm fan * (rpm / N_ref_rpm fan) <= eps9 ->
  operating_point_Q fan k rpm n = Ok q -> q = 0.
Proof.
  intros Hf Hfree. rewrite operating_point_Q_unfold by assumption.
  apply Qle_bool_iff in Hfree. rewrite Hfree. now intros [= <-].
Qed.

Lemma operating_point_Q_mono_returned (fan : FanCurve) (k : Q) (n : nat)
    (N1 N2 q1 q2 : Q) :
  0 < N1 -> N1 <= N2 ->
  operating_point_Q fan k N1 n = Ok q1 ->
  operating_point_Q fan k N2 n = Ok q2 ->
  q1 <= q2.
Proof.
  intros HN1 HN12 H1 H2.
  assert (Hf : ~ N_ref_rpm fan == 0).
  { unfold operating_point_Q in H1.
    destruct (free_delivery_cfm fan N1) as [fd|] eqn:Hfd; [|discriminate].
    now apply free_delivery_inv in Hfd. }
  set (c := Q_free_ref_cfm fan * / N_ref_rpm fan).
  assert (Hc : forall N, Q_free_ref_cfm fan * (N / N_ref_rpm fan) == N * c).
  { intros N. unfold c, Qdiv. ring. }
  pose proof (u_star_nonneg fan k n) as Hu.
  destruct (Qlt_le_dec eps9 (Q_free_ref_cfm fan * (N1 / N_ref_rpm fan)))
    as [Hfree1|Hfloor1].
  - (* free delivery at N1 above the floor: so it is at N2 *)
    assert (Hcpos : 0 < c).
    { rewrite Hc in Hfree1. unfold eps9 in Hfree1.
      destruct (Qlt_le_dec 0 c) as [|Hle]; [assumption|]. exfalso. nra. }
    assert (Hle : N1 * c <= N2 * c) by nra.
    assert (Hfree2 : eps9 < Q_free_ref_cfm fan * (N2 / N_ref_rpm fan)).
    { rewrite Hc in *. lra. }
    rewrite (operating_point_Q_fraction fan k N1 n q1 Hf Hfree1 H1).
    rewrite (operating_point_Q_fraction fan k N2 n q2 Hf Hfree2 H2).
    rewrite !Hc. nra.
  - rewrite (operating_point_Q_floor fan k N1 n q1 Hf Hfloor1 H1).
    destruct (Qlt_le_dec eps9 (Q_free_ref_cfm fan * (N2 / N_ref_rpm fan)))
      as [Hfree2|Hfloor2].
    + rewrite (operating_point_Q_fraction fan k N2 n q2 Hf Hfree2 H2).
      apply Qmult_le_0_compat; [assumption|]. unfold eps9 in Hfree2. lra.
    + rewrite (operating_point_Q_floor fan k N2 n q2 Hf Hfloor2 H2). lra.
Qed.
End Monotone.




Section Binary64Grid.
Import PrimFloat.
Local Open Scope float_scope.

End Binary64Grid.




(** * Further properties *)

(** ** The fan: affinity laws, construction from the BEP, curve shape *)

Lemma fdiv_self (a : Q) : ~ a == 0 -> exists r, fdiv a a = Ok r /\ r == 1.
Proof.
  intros Ha. rewrite fdiv_ok by assumption. eexists. split; [reflexivity|].
  now field.
Qed.

(** X1: affinity laws.  For a fan with a non-zero reference speed, scaling
    the speed by [c] scales the free delivery by [c] and the shutoff
    pressure by [c²]; with a zero reference speed both raise
    [ZeroDivisionError]. *)
Theorem affinity_laws (fan : FanCurve) (N c : Q) :
  (~ N_ref_rpm fan == 0 ->
   exists q qc p pc,
     free_delivery_cfm fan N = Ok q /\
     free_delivery_cfm fan (c * N) = Ok qc /\ qc == c * q /\
     shutoff_pressure_Pa fan N = Ok p /\
     shutoff_pressure_Pa fan (c * N) = Ok pc /\ pc == c ^ 2 * p) /\
  (N_ref_rpm fan == 0 ->
   free_delivery_cfm fan N = Raise ZeroDivisionError /\
   shutoff_pressure_Pa fan N = Raise ZeroDivisionError).
Proof.
  split.
  - intros Hn. eexists _, _, _, _.
    rewrite !free_delivery_ok, !shutoff_pressure_ok by assumption.
    repeat split.
    + unfold Qdiv. ring.
    + change (c ^ 2) with (c * c).
      change ((c * N / N_ref_rpm fan) ^ 2)
        with ((c * N / N_ref_rpm fan) * (c * N / N_ref_rpm fan)).
      change ((N / N_ref_rpm fan) ^ 2)
        with ((N / N_ref_rpm fan) * (N / N_ref_rpm fan)).
      unfold Qdiv. ring.
  - intros H0. unfold free_delivery_cfm, shutoff_pressure_Pa.
    rewrite fdiv_zero by assumption. split; reflexivity.
Qed.

Lemma affinity_laws_witness :
  exists q qc p pc,
    free_delivery_cfm demo_fan 450 = Ok q /\
    free_delivery_cfm demo_fan (2 * 450) = Ok qc /\ qc == 2 * q /\
    shutoff_pressure_Pa demo_fan 450 = Ok p /\
    shutoff_pressure_Pa demo_fan (2 * 450) = Ok pc /\ pc == 2 ^ 2 * p.
Proof.
  apply (affinity_laws demo_fan 450 2). simpl. lra.
Defined.

(** X2: [from_bep] puts the BEP at 60 % of the free delivery and of the
    shutoff pressure at the reference speed: at the reference speed the
    free delivery is [Q_bep / 0.6] and the shutoff pressure is
    [dP_bep / 0.6]; the reference speed and the shape are kept. *)
Theorem from_bep_round_trip (Q_bep dP_bep N_ref n : Q) :
  ~ N_ref == 0 ->
  let fan := from_bep Q_bep dP_bep N_ref n in
  N_ref_rpm fan = N_ref /\ n_shape fan = n /\
  exists q p,
    free_delivery_cfm fan N_ref = Ok q /\ (6 # 10) * q == Q_bep /\
    shutoff_pressure_Pa fan N_ref = Ok p /\ (6 # 10) * p == dP_bep.
Proof.
  intros Hn fan. split; [reflexivity|]. split; [reflexivity|].
  eexists _, _.
  rewrite free_delivery_ok, shutoff_pressure_ok by (simpl; assumption).
  simpl N_ref_rpm. simpl Q_free_ref_cfm. simpl dP_shut_ref_Pa.
  change ((N_ref / N_ref) ^ 2) with ((N_ref / N_ref) * (N_ref / N_ref)).
  repeat split; field; assumption.
Qed.

Lemma from_bep_round_trip_witness :
  exists q p,
    free_delivery_cfm demo_fan 1200 = Ok q /\ (6 # 10) * q == 300 /\
    shutoff_pressure_Pa demo_fan 1200 = Ok p /\ (6 # 10) * p == 120.
Proof.
  destruct (from_bep_round_trip 300 120 1200 2) as (_ & _ & H); [lra|].
  exact H.
Defined.

Lemma py_max_above (a b : Q) : b <= a -> py_max a b = a.
Proof.
  intros Hab. unfold py_max.
  assert (E : (a <? b) = false) by now apply Qlt_bool_false_iff.
  now rewrite E.
Qed.

Lemma np_clip_id (x lo hi : Q) : lo <= x -> x <= hi -> np_clip x lo hi = x.
Proof.
  intros Hl Hh. unfold np_clip, np_maximum, np_minimum.
  assert (E1 : (x <? lo) = false) by now apply Qlt_bool_false_iff.
  rewrite E1.
  assert (E2 : (hi <? x) = false) by now apply Qlt_bool_false_iff.
  now rewrite E2.
Qed.

(** X3: with the quadratic shape, the curve built by [from_bep] passes
    above the BEP it was built from: at the BEP airflow and the reference
    speed the pressure rise is [16/15] of the BEP pressure ([0.64] of the
    shutoff pressure, not [0.6]). *)
Theorem from_bep_curve_at_bep (Q_bep dP_bep N_ref : Q) :
  ~ N_ref == 0 -> eps9 * (6 # 10) <= Q_bep ->
  exists p,
    dP_at (pw := pow_int) (from_bep Q_bep dP_bep N_ref 2) [Q_bep] N_ref
      = Ok [p] /\
    p == (16 # 15) * dP_bep.
Proof.
  intros Hn HQ. unfold dP_at.
  rewrite free_delivery_ok, shutoff_pressure_ok by (simpl; assumption).
  cbn [mbind res_bind fmap list_fmap]. eexists. split; [reflexivity|].
  unfold dP_elem. simpl N_ref_rpm. simpl Q_free_ref_cfm.
  simpl dP_shut_ref_Pa. simpl n_shape.
  assert (Hr : N_ref / N_ref == 1) by now field.
  assert (Hfree : Q_bep / (6 # 10) * (N_ref / N_ref) == Q_bep / (6 # 10)).
  { rewrite Hr. ring. }
  assert (Hfloor : eps9 <= Q_bep / (6 # 10) * (N_ref / N_ref)).
  { rewrite Hfree.
    assert (Hd : Q_bep / (6 # 10) == Q_bep * (10 # 6)) by field.
    rewrite Hd. unfold eps9 in *. lra. }
  rewrite (py_max_above _ _ Hfloor).
  assert (Hx : Q_bep / (Q_bep / (6 # 10) * (N_ref / N_ref)) == 6 # 10).
  { rewrite Hfree. field. unfold eps9 in HQ. lra. }
  set (x := Q_bep / (Q_bep / (6 # 10) * (N_ref / N_ref))) in *.
  rewrite (np_clip_id x 0 10) by (rewrite Hx; lra).
  unfold fpow, pow_int. change (Qfloor 2) with 2%Z.
  change (x ^ 2) with (x * x).
  assert (Hpos : 0 <= 1 - x * x) by (rewrite Hx; lra).
  unfold np_maximum.
  assert (E : (1 - x * x <? 0) = false) by now apply Qlt_bool_false_iff.
  rewrite E.
  change ((N_ref / N_ref) ^ 2) with ((N_ref / N_ref) * (N_ref / N_ref)).
  rewrite Hx, Hr. field.
Qed.

Lemma from_bep_curve_at_bep_witness :
  exists p,
    dP_at (pw := pow_int) demo_fan [300] 1200 = Ok [p] /\ p == 128.
Proof.
  destruct (from_bep_curve_at_bep 300 120 1200) as (p & Hp & Hv).
  - lra.
  - unfold eps9. lra.
  - exists p. split; [exact Hp|]. rewrite Hv. reflexivity.
Defined.







(** ** [FanCurve.P_at] *)

(** X5: [P_at] reproduces the BEP power at the reference BEP (the BEP
    airflow at the reference speed), provided the reference free delivery
    and the cubed BEP fraction are at least [1e-9]; and it follows the
    cubic affinity law: scaling airflow and speed by [c > 0] scales the
    power by [c³], as long as the free delivery stays at or above [1e-9]
    at both speeds. *)
Theorem P_at_bep_and_affinity (fan : FanCurve) (P_bep Q_bep q N c : Q) :
  ~ N_ref_rpm fan == 0 ->
  (eps9 <= Q_free_ref_cfm fan ->
   eps9 <= (Q_bep / Q_free_ref_cfm fan) ^ 3 ->
   exists p, P_at fan [Q_bep] (N_ref_rpm fan) P_bep Q_bep = Ok [p] /\
             p == P_bep) /\
  (0 < c ->
   eps9 <= Q_free_ref_cfm fan * (N / N_ref_rpm fan) ->
   eps9 <= Q_free_ref_cfm fan * (c * N / N_ref_rpm fan) ->
   exists p pc, P_at fan [q] N P_bep Q_bep = Ok [p] /\
                P_at fan [c * q] (c * N) P_bep Q_bep = Ok [pc] /\
                pc == c ^ 3 * p).
Proof.
  intros Hn. split.
  - intros Hfree Halpha. unfold P_at.
    rewrite fdiv_ok, free_delivery_ok by assumption.
    cbn [mbind res_bind fmap list_fmap]. eexists. split; [reflexivity|].
    rewrite (py_max_above (Q_free_ref_cfm fan) eps9 Hfree).
    rewrite (py_max_above _ eps9 Halpha).
    assert (Hr : N_ref_rpm fan / N_ref_rpm fan == 1) by now field.
    assert (Hfd : eps9 <= Q_free_ref_cfm fan
                          * (N_ref_rpm fan / N_ref_rpm fan)).
    { rewrite Hr. lra. }
    rewrite (py_max_above _ eps9 Hfd).
    set (a := Q_bep / Q_free_ref_cfm fan) in *.
    assert (Hb : Q_bep / (Q_free_ref_cfm fan
                          * (N_ref_rpm fan / N_ref_rpm fan)) == a).
    { unfold a. rewrite Hr. field. unfold eps9 in Hfree. lra. }
    rewrite Hb, Hr.
    change (1 ^ 3) with (1 * (1 * 1)).
    assert (Ha3 : ~ a ^ 3 == 0) by (unfold eps9 in Halpha; lra).
    field. intros Hz. apply Ha3. rewrite Hz. reflexivity.
  - intros Hc Hf1 Hf2. unfold P_at.
    rewrite !fdiv_ok, !free_delivery_ok by assumption.
    cbn [mbind res_bind fmap list_fmap]. eexists _, _.
    split; [reflexivity|]. split; [reflexivity|].
    rewrite (py_max_above _ eps9 Hf1), (py_max_above _ eps9 Hf2).
    set (al := py_max _ eps9).
    assert (Hal : ~ al == 0).
    { pose proof (py_max_ge_r ((Q_bep / py_max (Q_free_ref_cfm fan) eps9) ^ 3)
                    eps9) as Hge. fold al in Hge. unfold eps9 in Hge. lra. }
    assert (Hx : c * q / (Q_free_ref_cfm fan * (c * N / N_ref_rpm fan))
                 == q / (Q_free_ref_cfm fan * (N / N_ref_rpm fan))).
    { field. repeat split; try assumption; try lra.
      - intros H0. rewrite H0 in Hf1. unfold eps9 in Hf1.
        assert (Hz : Q_free_ref_cfm fan * (0 / N_ref_rpm fan) == 0)
          by (unfold Qdiv; ring).
        lra.
      - intros H0. rewrite H0 in Hf1. unfold eps9 in Hf1. lra. }
    rewrite Hx.
    set (b := q / (Q_free_ref_cfm fan * (N / N_ref_rpm fan))).
    change (c ^ 3) with (c * (c * c)).
    change ((c * N / N_ref_rpm fan) ^ 3)
      with ((c * N / N_ref_rpm fan)
            * ((c * N / N_ref_rpm fan) * (c * N / N_ref_rpm fan))).
    change ((N / N_ref_rpm fan) ^ 3)
      with ((N / N_ref_rpm fan)
            * ((N / N_ref_rpm fan) * (N / N_ref_rpm fan))).
    field. split; assumption.
Qed.

Lemma P_at_bep_and_affinity_witness :
  (exists p, P_at demo_fan [300] (N_ref_rpm demo_fan) 40 300 = Ok [p] /\
             p == 40) /\
  (exists p pc, P_at demo_fan [200] 600 40 300 = Ok [p] /\
                P_at demo_fan [2 * 200] (2 * 600) 40 300 = Ok [pc] /\
                pc == 2 ^ 3 * p).
Proof.
  destruct (P_at_bep_and_affinity demo_fan 40 300 200 600 2) as [Hbep Haff].
  - simpl. lra.
  - split.
    + apply Hbep; vm_compute; discriminate.
    + apply Haff; [lra | vm_compute; discriminate..].
Defined.

(** ** The system curve *)

(** X6: for a non-negative resistance the system pressure drop is
    non-negative, the same for an airflow and its opposite, and
    non-decreasing in the magnitude of the airflow; one pressure per
    airflow. *)
Theorem system_dP_at_even_monotone (s : SystemCurve) (q1 q2 : Q)
    (Q_cfm : list Q) :
  length (system_dP_at s Q_cfm) = length Q_cfm /\
  (0 <= sys_k s -> Qabs q1 <= Qabs q2 ->
   exists p1 p2 p1',
     system_dP_at s [q1; q2; - q1] = [p1; p2; p1'] /\
     0 <= p1 /\ p1 <= p2 /\ p1' == p1).
Proof.
  split; [apply length_fmap|].
  intros Hk Hq. eexists _, _, _. split; [reflexivity|].
  change (q1 ^ 2) with (q1 * q1). change (q2 ^ 2) with (q2 * q2).
  change ((- q1) ^ 2) with ((- q1) * (- q1)).
  assert (H1 : q1 * q1 == Qabs q1 * Qabs q1).
  { rewrite <- Qabs_Qmult. symmetry. apply Qabs_pos.
    pose proof (sq_nonneg q1) as H. exact H. }
  assert (H2 : q2 * q2 == Qabs q2 * Qabs q2).
  { rewrite <- Qabs_Qmult. symmetry. apply Qabs_pos.
    pose proof (sq_nonneg q2) as H. exact H. }
  pose proof (Qabs_nonneg q1) as Ha1.
  assert (Hsq : Qabs q1 * Qabs q1 <= Qabs q2 * Qabs q2) by nra.
  pose proof (sq_nonneg q1) as Hs1. change (q1 ^ 2) with (q1 * q1) in Hs1.
  repeat split.
  - now apply Qmult_le_0_compat.
  - rewrite H1, H2. nra.
  - ring.
Qed.

Lemma system_dP_at_even_monotone_witness :
  exists p1 p2 p1',
    system_dP_at (mkSystemCurve k_clean) [-100; 200; - -100] = [p1; p2; p1'] /\
    0 <= p1 /\ p1 <= p2 /\ p1' == p1.
Proof.
  destruct (system_dP_at_even_monotone (mkSystemCurve k_clean) (-100) 200 [])
    as [_ H].
  apply H; [simpl; unfold k_clean; lra | vm_compute; discriminate].
Defined.

(** ** The operating point: range, optimality on the grid, affinity *)

Lemma argmin_from_spec (l : list Q) :
  forall (p : list Q) (bi : nat) (bv : Q),
    p !! bi = Some bv ->
    (forall i w, p !! i = Some w -> bv <= w) ->
    (forall i w, p !! i = Some w -> (i < bi)%nat -> bv < w) ->
    exists v,
      (p ++ l) !! argmin_from l (length p) bi bv = Some v /\
      (forall i w, (p ++ l) !! i = Some w -> v <= w) /\
      (forall i w, (p ++ l) !! i = Some w ->
         (i < argmin_from l (length p) bi bv)%nat -> v < w).
Proof.
  induction l as [|x l IH]; intros p bi bv Hbi Hle Hlt; simpl.
  - exists bv. rewrite app_nil_r. auto.
  - assert (Hlen : length (p ++ [x]) = S (length p))
      by (rewrite length_app; simpl; lia).
    replace (p ++ x :: l) with ((p ++ [x]) ++ l)
      by (rewrite <- app_assoc; reflexivity).
    destruct (x <? bv) eqn:E.
    + apply Qlt_bool_iff in E. rewrite <- Hlen. apply IH.
      * rewrite lookup_app_r by lia. now rewrite Nat.sub_diag.
      * intros i w Hi. apply lookup_app_Some in Hi as [Hi|[_ Hi]].
        -- specialize (Hle i w Hi). lra.
        -- destruct (i - length p)%nat; simpl in Hi; [|discriminate].
           injection Hi as <-. lra.
      * intros i w Hi Hlti. apply lookup_app_Some in Hi as [Hi|[Hge _]];
          [|lia].
        specialize (Hle i w Hi). lra.
    + apply Qlt_bool_false_iff in E. rewrite <- Hlen. apply IH.
      * now apply lookup_app_l_Some.
      * intros i w Hi. apply lookup_app_Some in Hi as [Hi|[_ Hi]].
        -- now apply (Hle i).
        -- destruct (i - length p)%nat; simpl in Hi; [|discriminate].
           injection Hi as <-. exact E.
      * intros i w Hi Hlti. apply lookup_app_Some in Hi as [Hi|[Hge _]].
        -- now apply (Hlt i).
        -- apply lookup_lt_Some in Hbi. lia.
Qed.

(** [np.argmin] returns the first index of a least entry. *)
Lemma np_argmin_spec (l : list Q) (j : nat) :
  np_argmin l = Ok j ->
  exists v, l !! j = Some v /\
            (forall i w, l !! i = Some w -> v <= w) /\
            (forall i w, l !! i = Some w -> (i < j)%nat -> v < w).
Proof.
  destruct l as [|x l]; [discriminate|]. simpl. intros [= <-].
  apply (argmin_from_spec l [x] 0%nat x).
  - reflexivity.
  - intros [|i] w Hi; simpl in Hi; [|discriminate]. injection Hi as <-. lra.
  - intros i w _ Hi. lia.
Qed.

Lemma unit_grid_le_1 (n j : nat) (u : Q) :
  unit_grid n !! j = Some u -> 0 <= u <= 1.
Proof.
  unfold unit_grid. rewrite list_lookup_fmap.
  destruct (seq 0 n !! j) as [i|] eqn:Hi; [|discriminate].
  simpl. intros [= <-]. apply lookup_seq in Hi as [-> Hj]. simpl.
  split.
  - apply Qmult_le_0_compat; [apply inject_nat_nonneg|].
    apply Qinv_le_0_compat, inject_nat_nonneg.
  - destruct (n - 1)%nat as [|m] eqn:Hm.
    + assert (j = 0%nat) by lia. subst j. vm_compute. discriminate.
    + apply Qle_shift_div_r.
      * unfold Qlt. simpl. lia.
      * rewrite Qmult_1_l. unfold Qle. simpl. lia.
Qed.

(** What [operating_point_Q] returns above the floor: a sample of the
    grid, whose gap is least among the samples. *)
Lemma operating_point_Q_grid {pw : FloatPow} (fan : FanCurve) (k rpm : Q)
    (n : nat) (q : Q) :
  ~ N_ref_rpm fan == 0 ->
  let Q_free := Q_free_ref_cfm fan * (rpm / N_ref_rpm fan) in
  let dP_shut := dP_shut_ref_Pa fan * (rpm / N_ref_rpm fan) ^ 2 in
  let gap x := Qabs (dP_elem fan Q_free dP_shut x - k * x ^ 2) in
  eps9 < Q_free ->
  operating_point_Q fan k rpm n = Ok q ->
  exists j, np_linspace 0 Q_free n !! j = Some q /\
    (forall i q', np_linspace 0 Q_free n !! i = Some q' -> gap q <= gap q') /\
    (forall i q', np_linspace 0 Q_free n !! i = Some q' -> (i < j)%nat ->
       gap q < gap q').
Proof.
  intros Hf Q_free dP_shut gap Hfree.
  rewrite operating_point_Q_unfold by assumption. fold Q_free dP_shut.
  assert (E : (Q_free <=? eps9) = false) by now apply Qle_bool_false_iff.
  rewrite E.
  destruct (np_argmin _) as [j|] eqn:Hj; [|discriminate].
  cbn [mbind res_bind]. unfold index.
  destruct (np_linspace 0 Q_free n !! j) as [x|] eqn:Hx; [|discriminate].
  intros [= Heq]. subst x. exists j. split; [exact Hx|].
  apply np_argmin_spec in Hj as (v & Hv & Hle & Hlt).
  unfold grid_gap in Hv, Hle, Hlt.
  rewrite list_lookup_fmap, Hx in Hv. simpl in Hv. injection Hv as <-.
  split.
  - intros i q' Hi. apply (Hle i).
    now rewrite list_lookup_fmap, Hi.
  - intros i q' Hi Hij. apply (Hlt i); [|assumption].
    now rewrite list_lookup_fmap, Hi.
Qed.

(** X7: the operating airflow is never negative and never above the free
    delivery: below the floor ([free delivery <= 1e-9], e.g. speed 0) it
    is exactly 0, above it it is one of the grid samples, between 0 and
    the free delivery. *)
Theorem operating_point_Q_in_range {pw : FloatPow} (fan : FanCurve)
    (k rpm : Q) (n : nat) (q : Q) :
  operating_point_Q fan k rpm n = Ok q ->
  exists Q_free,
    free_delivery_cfm fan rpm = Ok Q_free /\
    (Q_free <= eps9 -> q = 0) /\
    (eps9 < Q_free ->
       q ∈ np_linspace 0 Q_free n /\ 0 <= q <= Q_free).
Proof.
  intros Hop.
  assert (Hf : ~ N_ref_rpm fan == 0).
  { unfold operating_point_Q in Hop.
    destruct (free_delivery_cfm fan rpm) as [fd|] eqn:Hfd; [|discriminate].
    now apply free_delivery_inv in Hfd. }
  eexists. split; [now apply free_delivery_ok|].
  set (Q_free := Q_free_ref_cfm fan * (rpm / N_ref_rpm fan)).
  split.
  - intros Hfloor. revert Hop. rewrite operating_point_Q_unfold by assumption.
    fold Q_free. apply Qle_bool_iff in Hfloor. rewrite Hfloor.
    now intros [= <-].
  - intros Hfree.
    destruct (operating_point_Q_grid fan k rpm n q Hf Hfree Hop)
      as (j & Hj & _).
    fold Q_free in Hj. split; [apply list_elem_of_lookup; eauto|].
    destruct (Forall2_lookup_l _ _ _ _ _ (linspace_unit_grid Q_free n) Hj)
      as (u & Hu & Hqu).
    apply unit_grid_le_1 in Hu. rewrite Hqu. unfold eps9 in Hfree. nra.
Qed.

Lemma opQ_800 {pw : FloatPow} (fan : FanCurve) (k rpm : Q) :
  operating_point_Q fan k rpm 800 = opQ fan k rpm.
Proof. reflexivity. Qed.

Lemma demo_operating_point_500 :
  operating_point_Q (pw := pow_int) demo_fan k_clean 500 800 = Ok demo_Q_500.
Proof. rewrite opQ_800. exact demo_opQ_500. Qed.

Lemma demo_operating_point_2000 :
  operating_point_Q (pw := pow_int) demo_fan k_clean 2000 800
    = Ok demo_Q_2000.
Proof. rewrite opQ_800. exact demo_opQ_2000. Qed.

Lemma operating_point_Q_in_range_witness :
  exists Q_free,
    free_delivery_cfm demo_fan 500 = Ok Q_free /\
    (Q_free <= eps9 -> demo_Q_500 = 0) /\
    (eps9 < Q_free ->
       demo_Q_500 ∈ np_linspace 0 Q_free 800 /\ 0 <= demo_Q_500 <= Q_free).
Proof.
  exact (operating_point_Q_in_range (pw := pow_int) demo_fan k_clean 500 800
           demo_Q_500 demo_operating_point_500).
Defined.

(** X8: above the floor the returned airflow is the best sample of the
    grid: at no sample of [np.linspace(0, free delivery, n_grid)] is the
    fan pressure [dP_at] closer to the system pressure [k·Q²] than at the
    returned airflow (and at no earlier sample is it as close). *)
Theorem operating_point_Q_best_on_grid {pw : FloatPow} (fan : FanCurve)
    (k rpm : Q) (n : nat) (q Q_free : Q) :
  operating_point_Q fan k rpm n = Ok q ->
  free_delivery_cfm fan rpm = Ok Q_free ->
  eps9 < Q_free ->
  forall i q', np_linspace 0 Q_free n !! i = Some q' ->
  exists p p',
    dP_at fan [q; q'] rpm = Ok [p; p'] /\
    Qabs (p - k * q ^ 2) <= Qabs (p' - k * q' ^ 2) /\
    exists j, np_linspace 0 Q_free n !! j = Some q /\
              ((i < j)%nat -> Qabs (p - k * q ^ 2) < Qabs (p' - k * q' ^ 2)).
Proof.
  intros Hop Hfd Hfree i q' Hi.
  apply free_delivery_inv in Hfd as [Hf ->].
  destruct (operating_point_Q_grid fan k rpm n q Hf Hfree Hop)
    as (j & Hj & Hle & Hlt).
  eexists _, _. split.
  { unfold dP_at. rewrite free_delivery_ok, shutoff_pressure_ok by assumption.
    reflexivity. }
  split; [now apply (Hle i)|].
  exists j. split; [assumption|]. intros Hij. now apply (Hlt i).
Qed.

Lemma demo_free_500 :
  free_delivery_cfm demo_fan 500 = Ok (Q_free_ref_cfm demo_fan * (500 / 1200)).
Proof. reflexivity. Qed.

Lemma operating_point_Q_best_on_grid_witness :
  exists q' p p',
    np_linspace 0 (Q_free_ref_cfm demo_fan * (500 / 1200)) 800 !! 0%nat
      = Some q' /\
    dP_at (pw := pow_int) demo_fan [demo_Q_500; q'] 500 = Ok [p; p'] /\
    Qabs (p - k_clean * demo_Q_500 ^ 2) <= Qabs (p' - k_clean * q' ^ 2).
Proof.
  assert (Hq : exists q',
             np_linspace 0 (Q_free_ref_cfm demo_fan * (500 / 1200)) 800
               !! 0%nat = Some q') by (eexists; reflexivity).
  destruct Hq as [q' Hq]. exists q'.
  assert (Hfree : eps9 < Q_free_ref_cfm demo_fan * (500 / 1200))
    by (vm_compute; reflexivity).
  destruct (operating_point_Q_best_on_grid (pw := pow_int) demo_fan k_clean
              500 800 demo_Q_500 _ demo_operating_point_500 demo_free_500 Hfree
              0%nat q' Hq) as (p & p' & Hp & Hle & _).
  exists p, p'. auto.
Defined.

(** ** [solve_rpm_for_Q]: bounds, evaluations, outcomes *)

Lemma pow2_S (n : nat) : 2 ^ Z.of_nat (S n) == 2 * 2 ^ Z.of_nat n.
Proof.
  rewrite Nat2Z.inj_succ. unfold Z.succ.
  rewrite Qpower_plus by lra. simpl (2 ^ 1). ring.
Qed.

(** The bisection loop on a bracket [lo <= hi]: the returned speed lies in
    the bracket and carries its operating airflow; the loop evaluates
    between 1 and [iters + 1] speeds, all in the bracket; if it stops
    before the last one the airflow is within the tolerance; if it uses
    them all, the returned speed is the midpoint of a sub-bracket
    [2^iters] times narrower. *)
Lemma bisect_spec {pw : FloatPow} (fan : FanCurve) (k Qt eps : Q)
    (iters : nat) :
  forall (lo hi : Q) (tr : list Q) (rpm Qop : Q) (tr' : list Q),
    lo <= hi ->
    bisect fan k Qt eps iters lo hi tr = Ok ((rpm, Qop), tr') ->
    lo <= rpm <= hi /\ opQ fan k rpm = Ok Qop /\
    exists mids,
      tr' = tr ++ mids /\
      Forall (fun m => lo <= m <= hi) mids /\
      (1 <= length mids <= S iters)%nat /\
      ((length mids <= iters)%nat -> Qabs (Qop - Qt) <= eps) /\
      (length mids = S iters ->
       exists a b, lo <= a /\ a <= b /\ b <= hi /\
                   (b - a) * 2 ^ Z.of_nat iters == hi - lo /\
                   rpm = (1 # 2) * (a + b)).
Proof.
  induction iters as [|n IH]; intros lo hi tr rpm Qop tr' Hlh Hb;
    simpl in Hb.
  - destruct (opQ fan k ((1 # 2) * (lo + hi))) as [q|] eqn:Hq;
      [|discriminate].
    simpl in Hb. injection Hb as <- <- <-.
    split; [lra|]. split; [exact Hq|].
    exists [(1 # 2) * (lo + hi)]. split; [reflexivity|].
    split; [repeat constructor; lra|]. split; [simpl; lia|].
    split; [simpl; lia|]. intros _.
    exists lo, hi. split; [lra|]. split; [exact Hlh|]. split; [lra|].
    split; [|reflexivity]. change (2 ^ Z.of_nat 0) with 1. ring.
  - destruct (opQ fan k ((1 # 2) * (lo + hi))) as [q|] eqn:Hq;
      [|discriminate].
    simpl in Hb. set (mid := (1 # 2) * (lo + hi)) in *.
    assert (Hmid : lo <= mid <= hi) by (unfold mid; lra).
    destruct (q <? Qt - eps) eqn:E1.
    + apply IH in Hb; [|lra].
      destruct Hb as (Hr & Hop & mids & -> & HF & Hlen & Htol & Hex).
      split; [lra|]. split; [exact Hop|].
      exists (mid :: mids). split; [now rewrite <- app_assoc|].
      split.
      { constructor; [lra|]. eapply Forall_impl; [exact HF|].
        simpl. intros m Hm. lra. }
      split; [simpl; lia|].
      split; [intros Hl; apply Htol; simpl in Hl; lia|].
      intros Hl. destruct Hex as (a & b & Ha & Hab & Hb & Hw & Hrpm);
        [simpl in Hl; lia|].
      exists a, b. split; [lra|]. split; [exact Hab|]. split; [lra|].
      split; [|exact Hrpm].
      rewrite pow2_S.
      assert (Hd : (b - a) * (2 * 2 ^ Z.of_nat n)
                   == 2 * ((b - a) * 2 ^ Z.of_nat n)) by ring.
      rewrite Hd, Hw. unfold mid. ring.
    + destruct (Qt + eps <? q) eqn:E2.
      * apply IH in Hb; [|lra].
        destruct Hb as (Hr & Hop & mids & -> & HF & Hlen & Htol & Hex).
        split; [lra|]. split; [exact Hop|].
        exists (mid :: mids). split; [now rewrite <- app_assoc|].
        split.
        { constructor; [lra|]. eapply Forall_impl; [exact HF|].
          simpl. intros m Hm. lra. }
        split; [simpl; lia|].
        split; [intros Hl; apply Htol; simpl in Hl; lia|].
        intros Hl. destruct Hex as (a & b & Ha & Hab & Hb & Hw & Hrpm);
          [simpl in Hl; lia|].
        exists a, b. split; [lra|]. split; [exact Hab|]. split; [lra|].
        split; [|exact Hrpm].
        rewrite pow2_S.
        assert (Hd : (b - a) * (2 * 2 ^ Z.of_nat n)
                     == 2 * ((b - a) * 2 ^ Z.of_nat n)) by ring.
        rewrite Hd, Hw. unfold mid. ring.
      * injection Hb as <- <- <-.
        apply Qlt_bool_false_iff in E1. apply Qlt_bool_false_iff in E2.
        split; [lra|]. split; [exact Hq|].
        exists [mid]. split; [reflexivity|].
        split; [repeat constructor; lra|]. split; [simpl; lia|].
        split.
        { intros _. apply Qabs_Qle_condition. lra. }
        simpl. intros Hl. lia.
Qed.

Lemma solve_traced_inv {pw : FloatPow} (fan : FanCurve)
    (k Qt lo hi eps : Q) (iters : nat) (r : Q * Q) (tr : list Q) :
  solve_rpm_for_Q_traced fan k Qt lo hi eps iters = Ok (r, tr) ->
  exists Q_lo Q_hi,
    opQ fan k lo = Ok Q_lo /\ opQ fan k hi = Ok Q_hi /\
    ((Qt <= Q_lo + eps /\ r = (lo, Q_lo) /\ tr = [lo; hi]) \/
     (Q_lo + eps < Qt /\ Q_hi - eps <= Qt /\ r = (hi, Q_hi) /\
      tr = [lo; hi]) \/
     (Q_lo + eps < Qt /\ Qt < Q_hi - eps /\
      bisect fan k Qt eps iters lo hi [lo; hi] = Ok (r, tr))).
Proof.
  unfold solve_rpm_for_Q_traced.
  destruct (opQ fan k lo) as [Q_lo|]; [|discriminate].
  destruct (opQ fan k hi) as [Q_hi|]; [|discriminate]. simpl.
  exists Q_lo, Q_hi. split; [reflexivity|]. split; [reflexivity|].
  destruct (Qt <=? Q_lo + eps) eqn:E1.
  - apply Qle_bool_iff in E1. injection H as <- <-. auto.
  - apply Qle_bool_false_iff in E1.
    destruct (Q_hi - eps <=? Qt) eqn:E2.
    + apply Qle_bool_iff in E2. injection H as <- <-. right. left. auto.
    + apply Qle_bool_false_iff in E2. right. right. auto.
Qed.

Lemma solve_traced_total {pw : FloatPow} (fan : FanCurve)
    (k Qt lo hi eps : Q) (iters : nat) :
  ~ N_ref_rpm fan == 0 ->
  exists rpm Qop tr,
    solve_rpm_for_Q_traced fan k Qt lo hi eps iters = Ok ((rpm, Qop), tr).
Proof.
  intros Hf.
  destruct (solve_rpm_for_Q_total fan k Qt lo hi eps iters Hf) as [r Hr].
  unfold solve_rpm_for_Q in Hr.
  destruct (solve_rpm_for_Q_traced fan k Qt lo hi eps iters)
    as [[[rpm Qop] tr]|]; [|discriminate].
  eauto.
Qed.

(** X10: the speed solver stays within its bounds.  For
    [rpm_lo <= rpm_hi], whenever it returns [(rpm, Q)]: [rpm] lies in
    [[rpm_lo, rpm_hi]], [Q] is the operating airflow at [rpm], every speed
    at which it evaluated the operating point lies in the bounds, and it
    made at most [iters + 3] evaluations. *)
Theorem solve_rpm_for_Q_within_bounds {pw : FloatPow} (fan : FanCurve)
    (k Qt lo hi eps : Q) (iters : nat) (rpm Qop : Q) (tr : list Q) :
  lo <= hi ->
  solve_rpm_for_Q_traced fan k Qt lo hi eps iters = Ok ((rpm, Qop), tr) ->
  lo <= rpm <= hi /\ opQ fan k rpm = Ok Qop /\
  Forall (fun m => lo <= m <= hi) tr /\
  (length tr <= iters + 3)%nat.
Proof.
  intros Hlh Hs.
  apply solve_traced_inv in Hs
    as (Q_lo & Q_hi & Hlo & Hhi & [(_ & Hr & ->)|[(_ & _ & Hr & ->)|(_ & _ & Hb)]]).
  - injection Hr as -> ->. split; [lra|]. split; [exact Hlo|].
    split; [repeat constructor; lra | simpl; lia].
  - injection Hr as -> ->. split; [lra|]. split; [exact Hhi|].
    split; [repeat constructor; lra | simpl; lia].
  - apply bisect_spec in Hb as (Hr & Hop & mids & -> & HF & Hlen & _);
      [|exact Hlh].
    split; [exact Hr|]. split; [exact Hop|]. split.
    + constructor; [lra|]. constructor; [lra|]. exact HF.
    + simpl. lia.
Qed.

Lemma solve_rpm_for_Q_within_bounds_witness :
  exists rpm Qop tr,
    solve_rpm_for_Q_traced (pw := pow_int) demo_fan k_clean 300 500 2000 5 24
      = Ok ((rpm, Qop), tr) /\
    500 <= rpm <= 2000 /\ opQ (pw := pow_int) demo_fan k_clean rpm = Ok Qop /\
    Forall (fun m => 500 <= m <= 2000) tr /\
    (length tr <= 24 + 3)%nat.
Proof.
  destruct (solve_traced_total (pw := pow_int) demo_fan k_clean 300 500 2000
              5 24 demo_fan_Nref) as (rpm & Qop & tr & Hs).
  exists rpm, Qop, tr. split; [exact Hs|].
  apply (solve_rpm_for_Q_within_bounds (pw := pow_int) demo_fan k_clean 300
           500 2000 5 24 rpm Qop tr); [lra | exact Hs].
Defined.

(** X11: the three outcomes of the speed solver.  For [rpm_lo <= rpm_hi],
    whenever it returns [(rpm, Q)], one of these happened: it
    clamped to a bound after evaluating only the two bounds; or the
    bisection stopped early, and then [|Q − target| <= eps]; or it used all
    [iters] iterations (then [iters + 3] evaluations), and then [rpm] is
    the midpoint of a bracket inside the bounds whose width is
    [(rpm_hi − rpm_lo) / 2^iters]. *)
Theorem solve_rpm_for_Q_outcomes {pw : FloatPow} (fan : FanCurve)
    (k Qt lo hi eps : Q) (iters : nat) (rpm Qop : Q) (tr : list Q) :
  lo <= hi ->
  solve_rpm_for_Q_traced fan k Qt lo hi eps iters = Ok ((rpm, Qop), tr) ->
  (tr = [lo; hi] /\ (rpm = lo \/ rpm = hi)) \/
  ((2 < length tr <= iters + 2)%nat /\ Qabs (Qop - Qt) <= eps) \/
  (length tr = (iters + 3)%nat /\
   exists a b, lo <= a /\ a <= b /\ b <= hi /\
               (b - a) * 2 ^ Z.of_nat iters == hi - lo /\
               rpm = (1 # 2) * (a + b)).
Proof.
  intros Hlh Hs.
  apply solve_traced_inv in Hs
    as (Q_lo & Q_hi & Hlo & Hhi & [(_ & Hr & ->)|[(_ & _ & Hr & ->)|(_ & _ & Hb)]]).
  - injection Hr as -> ->. left. auto.
  - injection Hr as -> ->. left. auto.
  - apply bisect_spec in Hb
      as (_ & _ & mids & -> & _ & Hlen & Htol & Hex); [|exact Hlh].
    right. rewrite length_app. simpl.
    destruct (decide (length mids <= iters)%nat) as [Hl|Hl].
    + left. split; [lia|]. now apply Htol.
    + right. split; [lia|]. apply Hex. lia.
Qed.

Lemma solve_rpm_for_Q_outcomes_witness :
  exists rpm Qop tr,
    solve_rpm_for_Q_traced (pw := pow_int) demo_fan k_clean 300 500 2000 5 24
      = Ok ((rpm, Qop), tr) /\
    ((tr = [500; 2000] /\ (rpm = 500 \/ rpm = 2000)) \/
     ((2 < length tr <= 24 + 2)%nat /\ Qabs (Qop - 300) <= 5) \/
     (length tr = (24 + 3)%nat /\
      exists a b, 500 <= a /\ a <= b /\ b <= 2000 /\
                  (b - a) * 2 ^ Z.of_nat 24 == 2000 - 500 /\
                  rpm = (1 # 2) * (a + b))).
Proof.
  destruct (solve_traced_total (pw := pow_int) demo_fan k_clean 300 500 2000
              5 24 demo_fan_Nref) as (rpm & Qop & tr & Hs).
  exists rpm, Qop, tr. split; [exact Hs|].
  apply (solve_rpm_for_Q_outcomes (pw := pow_int) demo_fan k_clean 300
           500 2000 5 24 rpm Qop tr); [lra | exact Hs].
Defined.

(** ** [power_model_convex]: end points, affinity, convexity *)


Lemma py_max_eps9_pos (a : Q) : 0 < py_max a eps9.
Proof.
  pose proof (py_max_ge_r a eps9) as H. unfold eps9 in *. lra.
Qed.

Lemma Qdiv_nonneg (a m : Q) : 0 <= a -> 0 < m -> 0 <= a / m.
Proof.
  intros Ha Hm. unfold Qdiv.
  pose proof (Qinv_lt_0_compat m Hm). nra.
Qed.



Lemma Qdiv_le_1 (a m : Q) : a <= m -> 0 < m -> a / m <= 1.
Proof.
  intros Ha Hm.
  assert (H1 : m / m == 1) by (field; lra).
  rewrite <- H1. unfold Qdiv.
  pose proof (Qinv_lt_0_compat m Hm). nra.
Qed.





(** X13: the power model obeys the cubic affinity law.  Scaling the
    airflow and the speed by the same [c > 0] scales the power by [c^3],
    as long as the free delivery is above its floor at both speeds. *)
Theorem power_model_convex_affinity (fan : FanCurve)
    (Q_cfm rpm P_bep N_ref idle g xb c : Q) :
  ~ N_ref_rpm fan == 0 -> ~ N_ref == 0 -> 0 < c ->
  eps9 <= Q_free_ref_cfm fan * (rpm / N_ref_rpm fan) ->
  eps9 <= Q_free_ref_cfm fan * (c * rpm / N_ref_rpm fan) ->
  exists p p',
    power_model_convex fan Q_cfm rpm P_bep N_ref idle g xb = Ok p /\
    power_model_convex fan (c * Q_cfm) (c * rpm) P_bep N_ref idle g xb
      = Ok p' /\
    p' == c ^ 3 * p.
Proof.
  intros Hf Hn Hc H1 H2.
  rewrite !power_model_convex_ok by assumption.
  eexists. eexists. split; [reflexivity|]. split; [reflexivity|].
  cbv zeta.
  rewrite (py_max_above _ _ H1), (py_max_above _ _ H2).
  set (b1 := (convex_coeffs idle g xb).1).
  set (b2 := (convex_coeffs idle g xb).2).
  assert (Hfd : 0 < Q_free_ref_cfm fan * (rpm / N_ref_rpm fan))
    by (unfold eps9 in H1; lra).
  assert (Hx : c * Q_cfm / (Q_free_ref_cfm fan * (c * rpm / N_ref_rpm fan))
               == Q_cfm / (Q_free_ref_cfm fan * (rpm / N_ref_rpm fan))).
  { assert (Hr : ~ rpm == 0).
    { intros Hz. rewrite Hz in Hfd. unfold Qdiv in Hfd.
      rewrite Qmult_0_l, Qmult_0_r in Hfd. lra. }
    assert (Hq : ~ Q_free_ref_cfm fan == 0).
    { intros Hz. rewrite Hz in Hfd. rewrite Qmult_0_l in Hfd. lra. }
    field. repeat split; try assumption. lra. }
  rewrite (np_clip_comp _ _ 0 1 Hx).
  set (x := np_clip _ 0 1).
  assert (Hs : c * rpm / N_ref == c * (rpm / N_ref)) by (field; exact Hn).
  rewrite Hs. ring.
Qed.

Lemma power_model_convex_affinity_witness :
  exists p p',
    power_model_convex demo_fan 200 900 40 1200 (22 # 100) 2 (6 # 10) = Ok p /\
    power_model_convex demo_fan (2 * 200) (2 * 900) 40 1200 (22 # 100) 2
      (6 # 10) = Ok p' /\
    p' == 2 ^ 3 * p.
Proof.
  apply (power_model_convex_affinity demo_fan 200 900 40 1200 (22 # 100) 2
           (6 # 10) 2); try (simpl; lra); vm_compute; discriminate.
Defined.

(** X14: the power model is convex in the airflow.  Between no flow and the
    (floored) free delivery, at a non-negative BEP power, the power at the
    mean of two airflows is at most the mean of their powers. *)
Theorem power_model_convex_is_convex (fan : FanCurve)
    (q1 q2 rpm P_bep N_ref idle g xb : Q) :
  ~ N_ref_rpm fan == 0 -> ~ N_ref == 0 ->
  0 <= P_bep -> 0 <= rpm / N_ref ->
  0 <= q1 <= Qmax (Q_free_ref_cfm fan * (rpm / N_ref_rpm fan)) eps9 ->
  0 <= q2 <= Qmax (Q_free_ref_cfm fan * (rpm / N_ref_rpm fan)) eps9 ->
  exists p1 p2 pm,
    power_model_convex fan q1 rpm P_bep N_ref idle g xb = Ok p1 /\
    power_model_convex fan q2 rpm P_bep N_ref idle g xb = Ok p2 /\
    power_model_convex fan ((1 # 2) * (q1 + q2)) rpm P_bep N_ref idle g xb
      = Ok pm /\
    pm <= (1 # 2) * (p1 + p2).
Proof.
  intros Hf Hn HP Hr H1 H2.
  rewrite !power_model_convex_ok by assumption.
  eexists. eexists. eexists.
  split; [reflexivity|]. split; [reflexivity|]. split; [reflexivity|].
  cbv zeta.
  rewrite <- (py_max_Qmax _ eps9) in H1, H2.
  set (m := py_max (Q_free_ref_cfm fan * (rpm / N_ref_rpm fan)) eps9) in *.
  assert (Hm : 0 < m) by apply py_max_eps9_pos.
  set (b1 := (convex_coeffs idle g xb).1).
  set (b2 := (convex_coeffs idle g xb).2).
  assert (Hb2 : 0 < b2) by apply convex_coeffs_b2_pos.
  rewrite (np_clip_id (q1 / m) 0 1)
    by (first [apply Qdiv_nonneg | apply Qdiv_le_1]; lra).
  rewrite (np_clip_id (q2 / m) 0 1)
    by (first [apply Qdiv_nonneg | apply Qdiv_le_1]; lra).
  rewrite (np_clip_id ((1 # 2) * (q1 + q2) / m) 0 1)
    by (first [apply Qdiv_nonneg | apply Qdiv_le_1]; lra).
  assert (Hmid : (1 # 2) * (q1 + q2) / m == (1 # 2) * (q1 / m + q2 / m))
    by (field; lra).
  rewrite Hmid.
  set (x1 := q1 / m). set (x2 := q2 / m).
  set (s := P_bep * (rpm / N_ref) ^ 3).
  assert (Hs : 0 <= s).
  { unfold s. pose proof (Qpower_0_le (rpm / N_ref) 3 Hr). nra. }
  assert (Hgap : (idle + b1 * x1 + b2 * x1 ^ 2)
                 + (idle + b1 * x2 + b2 * x2 ^ 2)
                 - 2 * (idle + b1 * ((1 # 2) * (x1 + x2))
                        + b2 * ((1 # 2) * (x1 + x2)) ^ 2)
                 == (1 # 2) * (b2 * ((x1 - x2) * (x1 - x2)))) by ring.
  pose proof (sq_nonneg (x1 - x2)) as Hsq.
  assert (Hg : 0 <= (1 # 2) * (b2 * ((x1 - x2) * (x1 - x2)))) by nra.
  rewrite <- Hgap in Hg.
  set (f1 := idle + b1 * x1 + b2 * x1 ^ 2) in *.
  set (f2 := idle + b1 * x2 + b2 * x2 ^ 2) in *.
  set (fm := idle + b1 * ((1 # 2) * (x1 + x2))
             + b2 * ((1 # 2) * (x1 + x2)) ^ 2) in *.
  nra.
Qed.

Lemma power_model_convex_is_convex_witness :
  exists p1 p2 pm,
    power_model_convex demo_fan 100 900 40 1200 (22 # 100) 2 (6 # 10)
      = Ok p1 /\
    power_model_convex demo_fan 300 900 40 1200 (22 # 100) 2 (6 # 10)
      = Ok p2 /\
    power_model_convex demo_fan ((100 + 300) / 2) 900 40 1200 (22 # 100) 2
      (6 # 10) = Ok pm /\
    pm <= (1 # 2) * (p1 + p2).
Proof.
  apply (power_model_convex_is_convex demo_fan 100 300 900 40 1200
           (22 # 100) 2 (6 # 10)); try (simpl; lra);
    try (vm_compute; discriminate);
    split; vm_compute; discriminate.
Defined.

(** ** The frames of [run_time_sim]: what they hold *)

Lemma Forall2_elem_r {A B} (R : A -> B -> Prop) (l1 : list A) (l2 : list B)
    (y : B) :
  Forall2 R l1 l2 -> y ∈ l2 -> exists x, x ∈ l1 /\ R x y.
Proof.
  induction 1 as [|x y' l1 l2 HR _ IH]; intros Hy.
  - inversion Hy.
  - apply elem_of_cons in Hy as [->|Hy].
    + exists x. split; [left | exact HR].
    + destruct (IH Hy) as (x' & Hx' & HR'). exists x'.
      split; [now right | exact HR'].
Qed.

Lemma min_by_from_elem {A} (key : A -> Q) (l : list A) (best : A) :
  min_by_from key best l ∈ best :: l.
Proof.
  destruct (min_by_from_first key l best) as (b & a & -> & _).
  apply elem_of_app. right. left.
Qed.

Lemma max_by_from_elem {A} (key : A -> Q) (l : list A) (best : A) :
  max_by_from key best l ∈ best :: l.
Proof.
  destruct (max_by_from_first key l best) as (b & a & -> & _).
  apply elem_of_app. right. left.
Qed.

Lemma elem_of_List_filter {A} (f : A -> bool) (l : list A) (z : A) :
  z ∈ List.filter f l -> z ∈ l.
Proof.
  rewrite !list_elem_of_In. intros Hz. now apply filter_In in Hz.
Qed.

(** The mode that [choose_mode_min_power] returns is one of the given
    speeds, with its operating airflow. *)
Lemma choose_mode_min_power_inv {pw : FloatPow} (fan : FanCurve) (k : Q)
    (speeds : list Q) (Qt eps : Q) (power_fn : power_fn_t) (P_bep N_ref : Q)
    (rpm Qop : Q) :
  choose_mode_min_power fan k speeds Qt eps power_fn P_bep N_ref
    = Ok (rpm, Qop) ->
  rpm ∈ speeds /\ opQ fan k rpm = Ok Qop.
Proof.
  unfold choose_mode_min_power.
  destruct (for_each _ speeds) as [triples|] eqn:Hfe; [|discriminate].
  apply for_each_Forall2 in Hfe. cbn [mbind res_bind].
  assert (Hin : forall z, z ∈ triples ->
                  t_rpm z ∈ speeds /\ opQ fan k (t_rpm z) = Ok (t_Qop z)).
  { intros z Hz.
    destruct (Forall2_elem_r _ _ _ z Hfe Hz) as (x & Hx & Hm).
    apply mode_triple_inv in Hm as (-> & Hop & _). auto. }
  destruct (List.filter (feasible Qt eps) triples) as [|z0 feas] eqn:Hf.
  - destruct triples as [|y ys]; [discriminate|].
    simpl. intros [= <- <-]. apply Hin. apply max_by_from_elem.
  - simpl. intros [= <- <-]. apply Hin.
    apply (elem_of_List_filter (feasible Qt eps)). rewrite Hf.
    apply min_by_from_elem.
Qed.

Lemma bisect_opQ {pw : FloatPow} (fan : FanCurve) (k Qt eps : Q)
    (iters : nat) :
  forall (lo hi : Q) (tr : list Q) (rpm Qop : Q) (tr' : list Q),
    bisect fan k Qt eps iters lo hi tr = Ok ((rpm, Qop), tr') ->
    opQ fan k rpm = Ok Qop.
Proof.
  induction iters as [|n IH]; intros lo hi tr rpm Qop tr' Hb; simpl in Hb.
  - destruct (opQ fan k ((1 # 2) * (lo + hi))) as [q|] eqn:Hq;
      [|discriminate].
    simpl in Hb. injection Hb as <- <- <-. exact Hq.
  - destruct (opQ fan k ((1 # 2) * (lo + hi))) as [q|] eqn:Hq;
      [|discriminate].
    simpl in Hb. destruct (q <? Qt - eps); [now apply IH in Hb|].
    destruct (Qt + eps <? q); [now apply IH in Hb|].
    injection Hb as <- <- <-. exact Hq.
Qed.

Lemma solve_rpm_for_Q_traced_of {pw : FloatPow} (fan : FanCurve)
    (k Qt lo hi eps : Q) (iters : nat) (rpm Qop : Q) :
  solve_rpm_for_Q fan k Qt lo hi eps iters = Ok (rpm, Qop) ->
  exists tr,
    solve_rpm_for_Q_traced fan k Qt lo hi eps iters = Ok ((rpm, Qop), tr).
Proof.
  unfold solve_rpm_for_Q.
  destruct (solve_rpm_for_Q_traced fan k Qt lo hi eps iters)
    as [[r tr]|]; [|discriminate].
  simpl. intros [= ->]. eauto.
Qed.

(** The pair that [solve_rpm_for_Q] returns is a speed with its operating
    airflow. *)
Lemma solve_rpm_for_Q_opQ {pw : FloatPow} (fan : FanCurve)
    (k Qt lo hi eps : Q) (iters : nat) (rpm Qop : Q) :
  solve_rpm_for_Q fan k Qt lo hi eps iters = Ok (rpm, Qop) ->
  opQ fan k rpm = Ok Qop.
Proof.
  intros Hs. apply solve_rpm_for_Q_traced_of in Hs as [tr Hs].
  apply solve_traced_inv in Hs
    as (Q_lo & Q_hi & Hlo & Hhi & [(_ & Hr & _)|[(_ & _ & Hr & _)|(_ & _ & Hb)]]).
  - injection Hr as -> ->. exact Hlo.
  - injection Hr as -> ->. exact Hhi.
  - now apply bisect_opQ in Hb.
Qed.

Lemma init_data_results {pw : FloatPow} (fan : FanCurve) (cfg : SimConfig)
    (lo hi : Q) (t Qd k : list Q) :
  results_inv fan cfg lo hi (length t) 0 (init_data cfg t Qd k).
Proof.
  split; [|intros i Hi; lia].
  intros i Hi. unfold init_data, init_cols. simpl.
  apply nth_lookup_Some. now apply lookup_replicate_2.
Qed.

Lemma sim_step_results {pw : FloatPow} (fan : FanCurve) (cfg : SimConfig)
    (lo hi : Q) (t Qd k : list Q) (i : nat) (d d' : SimData) :
  sim_step fan cfg lo hi i d = Ok d' ->
  (i < length t)%nat ->
  sim_inv cfg t Qd k i d ->
  results_inv fan cfg lo hi (length t) i d ->
  results_inv fan cfg lo hi (length t) (S i) d'.
Proof.
  intros Hstep Hi (Ht & HQd & Hk & Lf & Lm & Lv & _) (Hfix & Hres).
  apply sim_step_inv in Hstep
    as (kq & Qd_i & Qf & Pf & rpm_m & Qm & Pm & rpm_v & Qv & Pv
        & Hkq & HQi & Hsr & ->).
  split; [exact Hfix|].
  intros j Hj. destruct (decide (i = j)) as [<-|Hne].
  - destruct Lf as (F1 & F2 & F3 & _), Lm as (M1 & M2 & M3 & _),
      Lv as (V1 & V2 & V3 & _).
    unfold frame_results, frame_at, strat_row, store. simpl.
    rewrite !nth_insert_eq by lia.
    rewrite (nth_lookup_Some _ _ 0 _ Hkq), (nth_lookup_Some _ _ 0 _ HQi).
    split; [now apply Hfix | exact Hsr].
  - specialize (Hres j ltac:(lia)).
    unfold frame_at in *. cbn [d_t d_Qd d_k d_fixed d_modes d_var].
    rewrite !store_row_other by assumption. exact Hres.
Qed.

Lemma sim_steps_results {pw : FloatPow} (fan : FanCurve) (cfg : SimConfig)
    (lo hi : Q) (t Qd k : list Q) (m n : nat) (d d' : SimData) :
  sim_steps fan cfg lo hi (seq n m) d = Ok d' ->
  (n + m <= length t)%nat ->
  sim_inv cfg t Qd k n d ->
  results_inv fan cfg lo hi (length t) n d ->
  results_inv fan cfg lo hi (length t) (n + m) d'.
Proof.
  revert n d. induction m as [|m IH]; intros n d; simpl.
  - intros [= <-] _ _ Hres. now rewrite Nat.add_0_r.
  - destruct (sim_step fan cfg lo hi n d) as [d1|] eqn:Hs; [|discriminate].
    cbn [mbind res_bind]. intros Hrest Hlen Hinv Hres.
    replace (n + S m)%nat with (S n + m)%nat by lia.
    apply (IH (S n) d1 Hrest); [lia | |].
    + eapply sim_step_preserves; [eassumption | lia | assumption].
    + eapply sim_step_results; [eassumption | lia | eassumption | assumption].
Qed.

Lemma run_time_sim_bounds {pw : FloatPow} (fan : FanCurve) (t Qd k : list Q)
    (cfg : SimConfig) (r : DataFrame * Metrics) :
  run_time_sim fan t Qd k cfg = Ok r ->
  exists lo hi, bounds cfg = Ok (lo, hi).
Proof.
  unfold run_time_sim.
  destruct (bounds cfg) as [[lo hi]|]; [eauto | discriminate].
Qed.

(** Every frame of a returned data frame holds the results of the loop
    body on the frame's own resistance and demand. *)
Lemma run_time_sim_results {pw : FloatPow} (fan : FanCurve)
    (t Qd k : list Q) (cfg : SimConfig) (df : DataFrame) (m : Metrics)
    (lo hi : Q) :
  run_time_sim fan t Qd k cfg = Ok (df, m) ->
  bounds cfg = Ok (lo, hi) ->
  forall fr, fr ∈ frames (df_data df) -> frame_results fan cfg lo hi fr.
Proof.
  intros Hrun Hb.
  pose proof (run_time_sim_inv fan t Qd k cfg df m Hrun)
    as (_ & _ & (Ht & _) & _).
  rewrite (run_time_sim_unfold fan t Qd k cfg lo hi Hb) in Hrun.
  destruct (sim_steps fan cfg lo hi (seq 0 (length t))
              (init_data cfg t Qd k)) as [d|] eqn:Hsteps; [|discriminate].
  cbn [mbind res_bind] in Hrun.
  destruct (pd_DataFrame d) as [d'|] eqn:Hpd; [|discriminate].
  apply pd_DataFrame_inv in Hpd as (-> & _).
  cbn [mbind res_bind] in Hrun. injection Hrun as <- _.
  simpl in *.
  pose proof (sim_steps_results fan cfg lo hi t Qd k (length t) 0
                (init_data cfg t Qd k) d Hsteps ltac:(lia)
                (init_data_inv cfg t Qd k)
                (init_data_results fan cfg lo hi t Qd k)) as (_ & Hres).
  intros fr Hfr. apply elem_of_frames in Hfr as (i & Hi & ->).
  apply Hres. rewrite Ht in Hi. simpl. exact Hi.
Qed.

Lemma frames_inputs (d : SimData) :
  length (d_Qd d) = length (d_t d) -> length (d_k d) = length (d_t d) ->
  f_t <$> frames d = d_t d /\ f_Qd <$> frames d = d_Qd d /\
  f_k <$> frames d = d_k d.
Proof.
  intros HQ Hk. unfold frames. rewrite <- !list_fmap_compose.
  repeat split.
  - apply (fmap_nth_seq (d_t d) 0).
  - rewrite <- HQ. apply (fmap_nth_seq (d_Qd d) 0).
  - rewrite <- Hk. apply (fmap_nth_seq (d_k d) 0).
Qed.

Lemma run_time_sim_rows {pw : FloatPow} (fan : FanCurve) (t Qd k : list Q)
    (cfg : SimConfig) (df : DataFrame) (m : Metrics) :
  run_time_sim fan t Qd k cfg = Ok (df, m) ->
  forall fr, fr ∈ frames (df_data df) ->
  forall r, r ∈ [f_fixed fr; f_modes fr; f_var fr] ->
    row_ok (eps_cfm cfg) (f_Qd fr) r.
Proof.
  intros Hrun.
  apply run_time_sim_inv in Hrun
    as (_ & _ & (Ht & HQd & _ & _ & _ & _ & Hrows) & _ & _).
  intros fr Hfr r Hr.
  apply elem_of_frames in Hfr as (i & Hi & ->). rewrite Ht in Hi.
  specialize (Hrows i Hi). simpl in Hr |- *. rewrite HQd.
  destruct Hrows as (Hf & Hm & Hv).
  apply elem_of_cons in Hr as [->|Hr]; [assumption|].
  apply elem_of_cons in Hr as [->|Hr]; [assumption|].
  apply elem_of_cons in Hr as [->|Hr]; [assumption|].
  now apply elem_of_nil in Hr.
Qed.

Lemma strat_row_eq (r1 r2 : StratRow) :
  r_Q r1 = r_Q r2 -> r_rpm r1 = r_rpm r2 -> r_P r1 = r_P r2 ->
  r_c r1 = r_c r2 -> r_s r1 = r_s r2 -> r_o r1 = r_o r2 -> r1 = r2.
Proof. destruct r1, r2. simpl. congruence. Qed.

Lemma row_ok_eq (eps Qd : Q) (r1 r2 : StratRow) :
  row_ok eps Qd r1 -> row_ok eps Qd r2 ->
  r_Q r1 = r_Q r2 -> r_rpm r1 = r_rpm r2 -> r_P r1 = r_P r2 -> r1 = r2.
Proof.
  intros (C1 & S1 & O1) (C2 & S2 & O2) HQ Hr HP.
  apply strat_row_eq; try assumption.
  - now rewrite C1, C2, HQ.
  - now rewrite S1, S2, HQ.
  - now rewrite O1, O2, HQ.
Qed.

(** X15: what a frame holds.  When [run_time_sim] returns, the frames
    carry the inputs in order (time, demand, resistance), and the entries
    of each frame are the results of the loop body on that frame's own
    resistance and demand: the fixed speed with its operating airflow and
    power, the mode chosen by [choose_mode_min_power] with its power, and
    the pair found by [solve_rpm_for_Q] within the speed bounds with its
    power. *)
Theorem run_time_sim_frames_hold_results {pw : FloatPow} (fan : FanCurve)
    (t Qd k : list Q) (cfg : SimConfig) (df : DataFrame) (m : Metrics) :
  run_time_sim fan t Qd k cfg = Ok (df, m) ->
  f_t <$> frames (df_data df) = t /\
  f_Qd <$> frames (df_data df) = Qd /\
  f_k <$> frames (df_data df) = k /\
  exists lo hi,
    bounds cfg = Ok (lo, hi) /\
    forall fr, fr ∈ frames (df_data df) -> frame_results fan cfg lo hi fr.
Proof.
  intros Hrun.
  pose proof (run_time_sim_inv fan t Qd k cfg df m Hrun)
    as (HlQ & Hlk & (Ht & HQd & Hk & _) & _).
  destruct (frames_inputs (df_data df)) as (H1 & H2 & H3);
    [now rewrite Ht, HQd | now rewrite Ht, Hk |].
  rewrite Ht in H1. rewrite HQd in H2. rewrite Hk in H3.
  split; [exact H1|]. split; [exact H2|]. split; [exact H3|].
  destruct (run_time_sim_bounds fan t Qd k cfg _ Hrun) as (lo & hi & Hb).
  exists lo, hi. split; [exact Hb|].
  exact (run_time_sim_results fan t Qd k cfg df m lo hi Hrun Hb).
Qed.

Lemma run_time_sim_frames_hold_results_witness :
  exists df m,
    run_time_sim (pw := pow_int) demo_fan [0; 1; 2] [300; 310; 250]
      [k_clean; k_clean; k_fouled] demo_cfg = Ok (df, m) /\
    f_t <$> frames (df_data df) = [0; 1; 2] /\
    f_Qd <$> frames (df_data df) = [300; 310; 250] /\
    f_k <$> frames (df_data df) = [k_clean; k_clean; k_fouled] /\
    exists lo hi,
      bounds demo_cfg = Ok (lo, hi) /\
      forall fr, fr ∈ frames (df_data df) ->
        frame_results (pw := pow_int) demo_fan demo_cfg lo hi fr.
Proof.
  destruct (run_time_sim_ok (pw := pow_int) demo_fan [0; 1; 2] [300; 310; 250]
              [k_clean; k_clean; k_fouled] demo_cfg demo_ready
              eq_refl eq_refl) as (df & m & Hrun).
  exists df, m. split; [exact Hrun|].
  exact (run_time_sim_frames_hold_results (pw := pow_int) demo_fan [0; 1; 2]
           [300; 310; 250] [k_clean; k_clean; k_fouled] demo_cfg df m Hrun).
Defined.

(** X16: every frame is consistent with the fan and the system.  In each
    frame the fixed strategy runs at [fixed_rpm], the mode strategy at one
    of [speeds_rpm], the variable strategy within the speed bounds (when
    these are in order); and for each of the three the recorded airflow is
    the operating airflow of the recorded speed at the frame's resistance,
    and the recorded power is the power model at that airflow and
    speed. *)
Theorem run_time_sim_frames_consistent {pw : FloatPow} (fan : FanCurve)
    (t Qd k : list Q) (cfg : SimConfig) (df : DataFrame) (m : Metrics) :
  run_time_sim fan t Qd k cfg = Ok (df, m) ->
  forall fr, fr ∈ frames (df_data df) ->
    r_rpm (f_fixed fr) = fixed_rpm cfg /\
    r_rpm (f_modes fr) ∈ speeds_rpm cfg /\
    (forall lo hi, bounds cfg = Ok (lo, hi) -> lo <= hi ->
       lo <= r_rpm (f_var fr) <= hi) /\
    forall r, r ∈ [f_fixed fr; f_modes fr; f_var fr] ->
      opQ fan (f_k fr) (r_rpm r) = Ok (r_Q r) /\
      pmc fan cfg (r_Q r) (r_rpm r) = Ok (r_P r).
Proof.
  intros Hrun fr Hfr.
  destruct (run_time_sim_bounds fan t Qd k cfg _ Hrun) as (lo & hi & Hb).
  destruct (run_time_sim_results fan t Qd k cfg df m lo hi Hrun Hb fr Hfr)
    as (Hfix & H1 & H2 & H3 & H4 & H5 & H6).
  apply choose_mode_min_power_inv in H3 as (Hin & Hopm).
  split; [exact Hfix|]. split; [exact Hin|]. split.
  - intros lo' hi' Hb' Hle. rewrite Hb in Hb'. injection Hb' as <- <-.
    apply solve_rpm_for_Q_traced_of in H5 as [tr H5].
    apply solve_traced_inv in H5
      as (Q_lo & Q_hi & _ & _ & [(_ & Hr & _)|[(_ & _ & Hr & _)|(_ & _ & Hbi)]]).
    + injection Hr as -> _. lra.
    + injection Hr as -> _. lra.
    + now apply bisect_spec in Hbi as (Hr & _).
  - intros r Hr.
    apply elem_of_cons in Hr as [->|Hr];
      [rewrite Hfix; split; assumption|].
    apply elem_of_cons in Hr as [->|Hr]; [split; assumption|].
    apply elem_of_cons in Hr as [->|Hr];
      [split; [now apply solve_rpm_for_Q_opQ in H5 | assumption]|].
    now apply elem_of_nil in Hr.
Qed.

Lemma run_time_sim_frames_consistent_witness :
  exists df m,
    run_time_sim (pw := pow_int) demo_fan [0; 1; 2] [300; 310; 250]
      [k_clean; k_clean; k_fouled] demo_cfg = Ok (df, m) /\
    forall fr, fr ∈ frames (df_data df) ->
      r_rpm (f_fixed fr) = fixed_rpm demo_cfg /\
      r_rpm (f_modes fr) ∈ speeds_rpm demo_cfg /\
      (forall lo hi, bounds demo_cfg = Ok (lo, hi) -> lo <= hi ->
         lo <= r_rpm (f_var fr) <= hi) /\
      forall r, r ∈ [f_fixed fr; f_modes fr; f_var fr] ->
        opQ (pw := pow_int) demo_fan (f_k fr) (r_rpm r) = Ok (r_Q r) /\
        pmc demo_fan demo_cfg (r_Q r) (r_rpm r) = Ok (r_P r).
Proof.
  destruct (run_time_sim_ok (pw := pow_int) demo_fan [0; 1; 2] [300; 310; 250]
              [k_clean; k_clean; k_fouled] demo_cfg demo_ready
              eq_refl eq_refl) as (df & m & Hrun).
  exists df, m. split; [exact Hrun|].
  exact (run_time_sim_frames_consistent (pw := pow_int) demo_fan [0; 1; 2]
           [300; 310; 250] [k_clean; k_clean; k_fouled] demo_cfg df m Hrun).
Defined.

(** X17: the simulation has no memory.  A frame's strategy entries depend
    only on the frame's resistance and demand (and on the fan and the
    configuration): two frames with the same resistance and the same
    demand, of one run or of two runs over different series, have the same
    entries for all three strategies. *)
Theorem run_time_sim_memoryless {pw : FloatPow} (fan : FanCurve)
    (cfg : SimConfig) (t1 Qd1 k1 t2 Qd2 k2 : list Q)
    (df1 df2 : DataFrame) (m1 m2 : Metrics) :
  run_time_sim fan t1 Qd1 k1 cfg = Ok (df1, m1) ->
  run_time_sim fan t2 Qd2 k2 cfg = Ok (df2, m2) ->
  forall fr1 fr2,
    fr1 ∈ frames (df_data df1) -> fr2 ∈ frames (df_data df2) ->
    f_k fr1 = f_k fr2 -> f_Qd fr1 = f_Qd fr2 ->
    f_fixed fr1 = f_fixed fr2 /\ f_modes fr1 = f_modes fr2 /\
    f_var fr1 = f_var fr2.
Proof.
  intros Hrun1 Hrun2 fr1 fr2 Hfr1 Hfr2 Hk HQ.
  destruct (run_time_sim_bounds fan t1 Qd1 k1 cfg _ Hrun1) as (lo & hi & Hb).
  destruct (run_time_sim_results fan t1 Qd1 k1 cfg df1 m1 lo hi Hrun1 Hb
              fr1 Hfr1) as (F1 & A1 & A2 & A3 & A4 & A5 & A6).
  destruct (run_time_sim_results fan t2 Qd2 k2 cfg df2 m2 lo hi Hrun2 Hb
              fr2 Hfr2) as (F2 & B1 & B2 & B3 & B4 & B5 & B6).
  pose proof (run_time_sim_rows fan t1 Qd1 k1 cfg df1 m1 Hrun1 fr1 Hfr1)
    as R1.
  pose proof (run_time_sim_rows fan t2 Qd2 k2 cfg df2 m2 Hrun2 fr2 Hfr2)
    as R2.
  rewrite <- Hk, <- HQ in *.
  assert (EQf : r_Q (f_fixed fr1) = r_Q (f_fixed fr2)) by congruence.
  assert (EPf : r_P (f_fixed fr1) = r_P (f_fixed fr2)) by congruence.
  assert (Em : (r_rpm (f_modes fr1), r_Q (f_modes fr1))
               = (r_rpm (f_modes fr2), r_Q (f_modes fr2))) by congruence.
  injection Em as Erm EQm.
  assert (EPm : r_P (f_modes fr1) = r_P (f_modes fr2)) by congruence.
  assert (Ev : (r_rpm (f_var fr1), r_Q (f_var fr1))
               = (r_rpm (f_var fr2), r_Q (f_var fr2))) by congruence.
  injection Ev as Erv EQv.
  assert (EPv : r_P (f_var fr1) = r_P (f_var fr2)) by congruence.
  split; [|split].
  - apply (row_ok_eq (eps_cfm cfg) (f_Qd fr1)); try congruence.
    + apply R1. repeat constructor.
    + apply R2. repeat constructor.
  - apply (row_ok_eq (eps_cfm cfg) (f_Qd fr1)); try congruence.
    + apply R1. repeat constructor.
    + apply R2. repeat constructor.
  - apply (row_ok_eq (eps_cfm cfg) (f_Qd fr1)); try congruence.
    + apply R1. repeat constructor.
    + apply R2. repeat constructor.
Qed.

Lemma run_time_sim_memoryless_witness :
  exists df1 m1 df2 m2,
    run_time_sim (pw := pow_int) demo_fan [0; 1; 2] [300; 310; 300]
      [k_clean; k_clean; k_clean] demo_cfg = Ok (df1, m1) /\
    run_time_sim (pw := pow_int) demo_fan [0; 5] [250; 300]
      [k_fouled; k_clean] demo_cfg = Ok (df2, m2) /\
    forall fr1 fr2,
      fr1 ∈ frames (df_data df1) -> fr2 ∈ frames (df_data df2) ->
      f_k fr1 = f_k fr2 -> f_Qd fr1 = f_Qd fr2 ->
      f_fixed fr1 = f_fixed fr2 /\ f_modes fr1 = f_modes fr2 /\
      f_var fr1 = f_var fr2.
Proof.
  destruct (run_time_sim_ok (pw := pow_int) demo_fan [0; 1; 2] [300; 310; 300]
              [k_clean; k_clean; k_clean] demo_cfg demo_ready
              eq_refl eq_refl) as (df1 & m1 & Hrun1).
  destruct (run_time_sim_ok (pw := pow_int) demo_fan [0; 5] [250; 300]
              [k_fouled; k_clean] demo_cfg demo_ready
              eq_refl eq_refl) as (df2 & m2 & Hrun2).
  exists df1, m1, df2, m2. split; [exact Hrun1|]. split; [exact Hrun2|].
  exact (run_time_sim_memoryless (pw := pow_int) demo_fan demo_cfg
           [0; 1; 2] [300; 310; 300] [k_clean; k_clean; k_clean]
           [0; 5] [250; 300] [k_fouled; k_clean] df1 df2 m1 m2 Hrun1 Hrun2).
Defined.

(** ** Compliance, shortfall and oversupply *)

Lemma py_max_0_cases (x : Q) :
  (x <= 0 /\ py_max 0 x = 0) \/ (0 < x /\ py_max 0 x = x).
Proof.
  unfold py_max. destruct (0 <? x) eqn:E.
  - apply Qlt_bool_iff in E. auto.
  - apply Qlt_bool_false_iff in E. auto.
Qed.

Lemma step_states (Qx Qd eps : Q) :
  0 <= shortfall Qx Qd eps /\ 0 <= oversupply Qx Qd eps /\
  (compliant Qx Qd eps = true <->
   shortfall Qx Qd eps == 0 /\ oversupply Qx Qd eps == 0) /\
  (0 <= eps -> shortfall Qx Qd eps == 0 \/ oversupply Qx Qd eps == 0).
Proof.
  unfold shortfall, oversupply, compliant.
  destruct (py_max_0_cases (Qd - Qx - eps)) as [[Hs ->]|[Hs ->]];
    destruct (py_max_0_cases (Qx - Qd - eps)) as [[Ho ->]|[Ho ->]];
    (split; [lra|]); (split; [lra|]); split;
    rewrite ?Qle_bool_iff, ?Qabs_Qle_condition; lra.
Qed.

(** X18: the three states of a strategy in a frame.  When [run_time_sim]
    returns with a non-negative tolerance, in every frame and for each
    strategy: shortfall and oversupply are non-negative, the compliance
    flag is set exactly when both are zero, and they are never both
    positive. *)
Theorem run_time_sim_frame_states {pw : FloatPow} (fan : FanCurve)
    (t Qd k : list Q) (cfg : SimConfig) (df : DataFrame) (m : Metrics) :
  run_time_sim fan t Qd k cfg = Ok (df, m) ->
  0 <= eps_cfm cfg ->
  forall fr, fr ∈ frames (df_data df) ->
  forall r, r ∈ [f_fixed fr; f_modes fr; f_var fr] ->
    0 <= r_s r /\ 0 <= r_o r /\
    (r_c r = true <-> r_s r == 0 /\ r_o r == 0) /\
    (r_s r == 0 \/ r_o r == 0).
Proof.
  intros Hrun Heps fr Hfr r Hr.
  destruct (run_time_sim_rows fan t Qd k cfg df m Hrun fr Hfr r Hr)
    as (-> & -> & ->).
  destruct (step_states (r_Q r) (f_Qd fr) (eps_cfm cfg))
    as (H1 & H2 & H3 & H4).
  auto.
Qed.

Lemma run_time_sim_frame_states_witness :
  exists df m,
    run_time_sim (pw := pow_int) demo_fan [0; 1; 2] [300; 310; 250]
      [k_clean; k_clean; k_fouled] demo_cfg = Ok (df, m) /\
    forall fr, fr ∈ frames (df_data df) ->
    forall r, r ∈ [f_fixed fr; f_modes fr; f_var fr] ->
      0 <= r_s r /\ 0 <= r_o r /\
      (r_c r = true <-> r_s r == 0 /\ r_o r == 0) /\
      (r_s r == 0 \/ r_o r == 0).
Proof.
  destruct (run_time_sim_ok (pw := pow_int) demo_fan [0; 1; 2] [300; 310; 250]
              [k_clean; k_clean; k_fouled] demo_cfg demo_ready
              eq_refl eq_refl) as (df & m & Hrun).
  exists df, m. split; [exact Hrun|].
  apply (run_time_sim_frame_states (pw := pow_int) demo_fan [0; 1; 2]
           [300; 310; 250] [k_clean; k_clean; k_fouled] demo_cfg df m Hrun).
  simpl. lra.
Defined.

(** ** The time step and the aggregates *)

(** The median of a non-empty array has every property of its entries that
    the mean of two values inherits. *)
Lemma np_median_closed (P : Q -> Prop) (l : list Q) :
  (forall a b, P a -> P b -> P ((a + b) / 2)) ->
  l <> [] -> Forall P l -> P (np_median l).
Proof.
  intros Hmean Hne HP. unfold np_median.
  pose proof (np_sort_perm l) as Hperm.
  assert (HPs : Forall P (np_sort l)).
  { apply Forall_forall. intros x Hx.
    eapply Forall_forall; [exact HP|]. now rewrite Hperm. }
  assert (Hlen : (0 < length (np_sort l))%nat).
  { rewrite <- (Permutation_length Hperm). destruct l; [done | simpl; lia]. }
  set (s := np_sort l) in *. set (n := length s) in *.
  assert (Hn : forall i, (i < n)%nat -> P (nth i s 0)).
  { intros i Hi. destruct (lookup_lt_is_Some_2 s i Hi) as [x Hx].
    rewrite (nth_lookup_Some _ _ 0 _ Hx).
    eapply Forall_forall; [exact HPs|]. eapply list_elem_of_lookup_2, Hx. }
  assert (Hhalf : (n / 2 < n)%nat) by (apply Nat.div_lt; lia).
  destruct (Nat.even n); [apply Hmean|]; apply Hn; lia.
Qed.

Lemma np_diff_Forall (P : Q -> Prop) (t : list Q) :
  (forall i, (S i < length t)%nat -> P (nth (S i) t 0 - nth i t 0)) ->
  Forall P (np_diff t).
Proof.
  intros H. destruct (np_diff_spec t) as (Hlen & Hnth).
  apply (Forall_nth _ 0). intros i Hi.
  rewrite Hnth by lia. apply H. lia.
Qed.

Lemma np_diff_nonempty (t : list Q) : (1 < length t)%nat -> np_diff t <> [].
Proof.
  intros Ht Hnil. destruct (np_diff_spec t) as (Hlen & _).
  rewrite Hnil in Hlen. simpl in Hlen. lia.
Qed.

Lemma half_between (lo hi a b : Q) :
  lo <= a <= hi -> lo <= b <= hi -> lo <= (a + b) / 2 <= hi.
Proof.
  intros Ha Hb.
  assert (Hd : (a + b) / 2 == (1 # 2) * (a + b)) by (field; lra).
  rewrite Hd. lra.
Qed.

Lemma half_nonneg (a b : Q) : 0 <= a -> 0 <= b -> 0 <= (a + b) / 2.
Proof.
  intros Ha Hb.
  assert (Hd : (a + b) / 2 == (1 # 2) * (a + b)) by (field; lra).
  rewrite Hd. lra.
Qed.

Lemma time_step_nonneg (t : list Q) :
  (forall i, (S i < length t)%nat -> nth i t 0 <= nth (S i) t 0) ->
  0 <= time_step t.
Proof.
  intros Hmono. unfold time_step.
  destruct (Nat.ltb 1 (length t)) eqn:E; [|lra].
  apply Nat.ltb_lt in E.
  apply (np_median_closed (fun x => 0 <= x)).
  - intros a b. apply half_nonneg.
  - now apply np_diff_nonempty.
  - apply np_diff_Forall. intros i Hi. specialize (Hmono i Hi). lra.
Qed.

(** X19: the time step lies between the spacings.  For at least two time
    stamps whose successive differences all lie in [[lo, hi]], the time
    step that [run_time_sim] uses (the median difference) lies in
    [[lo, hi]]; in particular it is the spacing of an evenly spaced
    series ([lo = hi]), and it is non-negative for non-decreasing time
    stamps ([lo = 0]). *)
Theorem time_step_between_spacings (t : list Q) (lo hi : Q) :
  (1 < length t)%nat ->
  (forall i, (S i < length t)%nat ->
     lo <= nth (S i) t 0 - nth i t 0 <= hi) ->
  lo <= time_step t <= hi.
Proof.
  intros Ht Hsp. unfold time_step.
  apply Nat.ltb_lt in Ht as E. rewrite E.
  apply (np_median_closed (fun x => lo <= x <= hi)).
  - intros a b. apply half_between.
  - now apply np_diff_nonempty.
  - now apply np_diff_Forall.
Qed.

Lemma time_step_between_spacings_witness :
  1 <= time_step [0; 1; 3; 4] <= 2.
Proof.
  apply (time_step_between_spacings [0; 1; 3; 4] 1 2); [simpl; lia|].
  intros [|[|[|i]]] Hi; simpl in *; try lia; split; vm_compute; discriminate.
Defined.

Lemma np_sum_nonneg (l : list Q) :
  Forall (fun x => 0 <= x) l -> 0 <= np_sum l.
Proof.
  induction 1 as [|x l Hx _ IH]; [unfold np_sum; simpl; lra|].
  change (np_sum (x :: l)) with (x + np_sum l). lra.
Qed.

Lemma np_sum_zero (l : list Q) :
  Forall (fun x => x == 0) l -> np_sum l == 0.
Proof.
  induction 1 as [|x l Hx _ IH]; [reflexivity|].
  change (np_sum (x :: l)) with (x + np_sum l). rewrite Hx, IH. reflexivity.
Qed.

Lemma filter_all (c : list bool) :
  length (List.filter id c) = length c -> Forall (fun b => b = true) c.
Proof.
  induction c as [|b c IH]; simpl; [constructor|].
  pose proof (List.filter_length_le id c) as Hle.
  destruct b; simpl; intros Hlen.
  - constructor; [reflexivity | apply IH; lia].
  - lia.
Qed.

Lemma count_true_le (c : list bool) : 0 <= count_true c <= len c.
Proof.
  unfold count_true, len.
  pose proof (List.filter_length_le id c) as Hle.
  split.
  - change 0 with (inject_Z 0). rewrite <- Zle_Qle. lia.
  - rewrite <- Zle_Qle. lia.
Qed.

Lemma count_true_all (c : list bool) :
  count_true c == len c -> Forall (fun b => b = true) c.
Proof.
  unfold count_true, len. intros H.
  apply (proj1 (inject_Z_injective _ _)) in H. apply filter_all.
  now apply Nat2Z.inj in H.
Qed.

(** The aggregates of a strategy whose columns hold, at each step, the
    flags computed from the delivered airflow. *)
Lemma agg_ranges (c : StratCols) (T : nat) (Qd : list Q) (eps dt lam : Q) :
  cols_len T c -> (1 <= T)%nat ->
  (forall i, (i < T)%nat -> row_ok eps (nth i Qd 0) (strat_row c i)) ->
  0 <= dt -> 0 <= lam ->
  let M := _agg c dt lam in
  0 <= compliance_pct M <= 100 /\
  0 <= cfmh_shortfall M /\ 0 <= cfmh_oversupply M /\
  Wh M <= objective M /\
  (compliance_pct M == 100 ->
   cfmh_shortfall M == 0 /\ cfmh_oversupply M == 0 /\ objective M == Wh M).
Proof.
  intros (L1 & L2 & L3 & L4 & L5 & L6) HT Hrows Hdt Hlam. simpl.
  assert (Hs : Forall (fun x => 0 <= x) (col_s c)).
  { apply (Forall_nth _ 0). intros i Hi.
    destruct (Hrows i ltac:(lia)) as (_ & Hsi & _). simpl in Hsi.
    rewrite Hsi. apply py_max_ge_l. }
  assert (Ho : Forall (fun x => 0 <= x) (col_o c)).
  { apply (Forall_nth _ 0). intros i Hi.
    destruct (Hrows i ltac:(lia)) as (_ & _ & Hoi). simpl in Hoi.
    rewrite Hoi. apply py_max_ge_l. }
  apply np_sum_nonneg in Hs as Hs0. apply np_sum_nonneg in Ho as Ho0.
  pose proof (count_true_le (col_c c)) as Hcnt.
  assert (Hlen : 0 < len (col_c c)).
  { unfold len. rewrite L4. change 0 with (inject_Z 0).
    rewrite <- Zlt_Qlt. lia. }
  set (cnt := count_true (col_c c)) in *. set (L := len (col_c c)) in *.
  set (S_s := np_sum (col_s c)) in *. set (S_o := np_sum (col_o c)) in *.
  set (W := np_sum (col_P c) * dt / 3600).
  assert (Hcs : 0 <= S_s * dt / 3600) by (apply Qdiv_nonneg; [nra | lra]).
  assert (Hco : 0 <= S_o * dt / 3600) by (apply Qdiv_nonneg; [nra | lra]).
  assert (Hy0 : 0 <= cnt / L) by (apply Qdiv_nonneg; lra).
  assert (Hy1 : cnt / L <= 1) by (apply Qdiv_le_1; lra).
  split; [lra|]. split; [exact Hcs|]. split; [exact Hco|].
  split; [nra|].
  intros H100.
  assert (Hall : Forall (fun b => b = true) (col_c c)).
  { apply count_true_all. fold cnt L.
    assert (Hc : cnt == cnt / L * L) by (field; lra).
    rewrite Hc. assert (H1 : cnt / L == 1) by lra. rewrite H1. ring. }
  assert (Hzs : Forall (fun x => x == 0) (col_s c)).
  { apply (Forall_nth _ 0). intros i Hi.
    destruct (Hrows i ltac:(lia)) as (Hci & Hsi & _). simpl in Hci, Hsi.
    rewrite Hsi.
    destruct (step_conservation (nth i (col_Q c) 0) (nth i Qd 0) eps)
      as [-> _]; [|reflexivity].
    rewrite <- Hci. apply (proj1 (Forall_nth _ false _) Hall). lia. }
  assert (Hzo : Forall (fun x => x == 0) (col_o c)).
  { apply (Forall_nth _ 0). intros i Hi.
    destruct (Hrows i ltac:(lia)) as (Hci & _ & Hoi). simpl in Hci, Hoi.
    rewrite Hoi.
    destruct (step_conservation (nth i (col_Q c) 0) (nth i Qd 0) eps)
      as [_ ->]; [|reflexivity].
    rewrite <- Hci. apply (proj1 (Forall_nth _ false _) Hall). lia. }
  apply np_sum_zero in Hzs. apply np_sum_zero in Hzo.
  fold S_s in Hzs. fold S_o in Hzo.
  assert (E1 : S_s * dt / 3600 == 0) by (rewrite Hzs; field).
  assert (E2 : S_o * dt / 3600 == 0) by (rewrite Hzo; field).
  split; [exact E1|]. split; [exact E2|]. rewrite E1. ring.
Qed.

(** X20: ranges of the aggregates.  When [run_time_sim] returns on at
    least one time stamp, with non-decreasing time stamps and a
    non-negative shortfall weight: the time step is non-negative, and for
    each strategy the compliance is a percentage, the shortfall and
    oversupply integrals are non-negative, the objective is at least the
    energy, and at 100 % compliance both integrals vanish and the
    objective is the energy. *)
Theorem run_time_sim_metrics_ranges {pw : FloatPow} (fan : FanCurve)
    (t Qd k : list Q) (cfg : SimConfig) (df : DataFrame) (m : Metrics) :
  run_time_sim fan t Qd k cfg = Ok (df, m) ->
  (1 <= length t)%nat ->
  (forall i, (S i < length t)%nat -> nth i t 0 <= nth (S i) t 0) ->
  0 <= lambda_shortfall cfg ->
  0 <= df_dt_s df /\
  forall M, M ∈ [m_fixed m; m_modes m; m_var m] ->
    0 <= compliance_pct M <= 100 /\
    0 <= cfmh_shortfall M /\ 0 <= cfmh_oversupply M /\
    Wh M <= objective M /\
    (compliance_pct M == 100 ->
     cfmh_shortfall M == 0 /\ cfmh_oversupply M == 0 /\
     objective M == Wh M).
Proof.
  intros Hrun HT Hmono Hlam.
  apply run_time_sim_inv in Hrun
    as (_ & _ & (_ & _ & _ & Lf & Lm & Lv & Hrows) & -> & ->).
  pose proof (time_step_nonneg t Hmono) as Hdt.
  split; [exact Hdt|].
  intros M HM. simpl in HM.
  apply elem_of_cons in HM as [->|HM].
  { apply (agg_ranges _ (length t) Qd (eps_cfm cfg)); try assumption.
    intros i Hi. now destruct (Hrows i Hi). }
  apply elem_of_cons in HM as [->|HM].
  { apply (agg_ranges _ (length t) Qd (eps_cfm cfg)); try assumption.
    intros i Hi. now destruct (Hrows i Hi) as (_ & ? & _). }
  apply elem_of_cons in HM as [->|HM].
  { apply (agg_ranges _ (length t) Qd (eps_cfm cfg)); try assumption.
    intros i Hi. now destruct (Hrows i Hi) as (_ & _ & ?). }
  now apply elem_of_nil in HM.
Qed.

Lemma run_time_sim_metrics_ranges_witness :
  exists df m,
    run_time_sim (pw := pow_int) demo_fan [0; 1; 2] [300; 310; 250]
      [k_clean; k_clean; k_fouled] demo_cfg = Ok (df, m) /\
    0 <= df_dt_s df /\
    forall M, M ∈ [m_fixed m; m_modes m; m_var m] ->
      0 <= compliance_pct M <= 100 /\
      0 <= cfmh_shortfall M /\ 0 <= cfmh_oversupply M /\
      Wh M <= objective M /\
      (compliance_pct M == 100 ->
       cfmh_shortfall M == 0 /\ cfmh_oversupply M == 0 /\
       objective M == Wh M).
Proof.
  destruct (run_time_sim_ok (pw := pow_int) demo_fan [0; 1; 2] [300; 310; 250]
              [k_clean; k_clean; k_fouled] demo_cfg demo_ready
              eq_refl eq_refl) as (df & m & Hrun).
  exists df, m. split; [exact Hrun|].
  apply (run_time_sim_metrics_ranges (pw := pow_int) demo_fan [0; 1; 2]
           [300; 310; 250] [k_clean; k_clean; k_fouled] demo_cfg df m Hrun).
  - simpl. lia.
  - intros [|[|i]] Hi; simpl in *; try lia; vm_compute; discriminate.
  - simpl. lra.
Defined.

(** ** demand.py: the profiles *)

Lemma nth_fmap_seq {A} (f : nat -> A) (n i : nat) (d : A) :
  (i < n)%nat -> nth i (f <$> seq 0 n) d = f i.
Proof.
  intros Hi. apply nth_lookup_Some.
  rewrite list_lookup_fmap, lookup_seq_lt by assumption. reflexivity.
Qed.

Lemma np_arange_ok (start stop step : Q) :
  ~ step == 0 ->
  np_arange start stop step =
    Ok ((fun i => start + inject_Z (Z.of_nat i) * step)
          <$> seq 0 (Z.to_nat (Qceiling ((stop - start) / step)))).
Proof. intros Hs. unfold np_arange. now rewrite fdiv_ok. Qed.




Lemma build_profiles_ok {tr : FloatTrig}
    (H dt base amp fs fe kc kf : Q) :
  ~ dt == 0 ->
  let t := (fun i => 0 + inject_Z (Z.of_nat i) * dt)
             <$> seq 0 (Z.to_nat (Qceiling ((H + eps9 - 0) / dt))) in
  build_profiles H dt base amp fs fe kc kf =
    Ok (t,
        (fun ti => base + amp * fsin (2 * fpi * ti / H)) <$> t,
        fouling_at (fs * H) (fe * H) kc kf <$> t).
Proof.
  intros Hdt. unfold build_profiles. rewrite np_arange_ok by assumption.
  reflexivity.
Qed.

Section Binary64Arange.
Import PrimFloat.
Local Open Scope float_scope.

(** In binary64 a horizon of [2e7] s absorbs the [1e-9] added to it, so
    that [np.arange(0.0, horizon_s + 1e-9, 1e6)] gets
    [ceil(20.0) = 20] samples and the horizon is not among them. *)
Example horizon_absorbs_eps_in_binary64 :
  (20000000 + 1e-9 =? 20000000) = true /\
  ((20000000 + 1e-9 - 0) / 1000000 =? 20) = true.
Proof. vm_compute. split; reflexivity. Qed.
End Binary64Arange.


Lemma build_profiles_total {tr : FloatTrig}
    (H dt base amp fs fe kc kf : Q) :
  ~ dt == 0 ->
  exists t Qd k,
    build_profiles H dt base amp fs fe kc kf = Ok (t, Qd, k) /\
    length Qd = length t /\ length k = length t.
Proof.
  intros Hdt. rewrite build_profiles_ok by assumption. cbv zeta.
  eexists. eexists. eexists. split; [reflexivity|].
  rewrite !length_fmap. split; reflexivity.
Qed.


(** The fouling ramp at one time stamp. *)
Lemma fouling_at_cases (t0 t1 kc kf ti : Q) :
  (ti < t0 /\ ti <= t1 /\ fouling_at t0 t1 kc kf ti = kc) \/
  (t0 <= ti <= t1 /\
   fouling_at t0 t1 kc kf ti
     = kc + (kf - kc) * (ti - t0) / py_max (t1 - t0) eps9) \/
  (t1 < ti /\ fouling_at t0 t1 kc kf ti = kf).
Proof.
  unfold fouling_at. cbv zeta.
  destruct (t1 <? ti) eqn:E1.
  - apply Qlt_bool_iff in E1. right. right. auto.
  - apply Qlt_bool_false_iff in E1.
    destruct (t0 <=? ti) eqn:E2; simpl.
    + apply Qle_bool_iff in E2.
      destruct (ti <=? t1) eqn:E3.
      * right. left. auto.
      * apply Qle_bool_false_iff in E3. lra.
    + apply Qle_bool_false_iff in E2. left. auto.
Qed.

Lemma fouling_at_ramp (t0 t1 kc kf ti : Q) :
  kc <= kf -> t0 <= ti <= t1 ->
  let r := (ti - t0) / py_max (t1 - t0) eps9 in
  0 <= r <= 1 /\ kc + (kf - kc) * (ti - t0) / py_max (t1 - t0) eps9
                 == kc + (kf - kc) * r.
Proof.
  intros Hk Hti. cbv zeta.
  pose proof (py_max_eps9_pos (t1 - t0)) as Hm.
  pose proof (py_max_ge_l (t1 - t0) eps9) as Hge.
  set (m := py_max (t1 - t0) eps9) in *.
  split; [split|].
  - apply Qdiv_nonneg; lra.
  - apply Qdiv_le_1; lra.
  - field. lra.
Qed.

Lemma fouling_at_mono (t0 t1 kc kf ti tj : Q) :
  kc <= kf -> ti <= tj ->
  kc <= fouling_at t0 t1 kc kf ti /\
  fouling_at t0 t1 kc kf ti <= fouling_at t0 t1 kc kf tj /\
  fouling_at t0 t1 kc kf tj <= kf.
Proof.
  intros Hk Hij.
  pose proof (py_max_eps9_pos (t1 - t0)) as Hm.
  destruct (fouling_at_cases t0 t1 kc kf ti)
    as [(Hi1 & Hi2 & ->)|[(Hi & ->)|(Hi & ->)]];
    destruct (fouling_at_cases t0 t1 kc kf tj)
      as [(Hj1 & Hj2 & ->)|[(Hj & ->)|(Hj & ->)]]; try lra.
  - destruct (fouling_at_ramp t0 t1 kc kf tj Hk Hj) as (Hr & ->). nra.
  - destruct (fouling_at_ramp t0 t1 kc kf ti Hk Hi) as (Hri & Ei).
    destruct (fouling_at_ramp t0 t1 kc kf tj Hk Hj) as (Hrj & Ej).
    rewrite Ei, Ej.
    assert (Hrr : (ti - t0) / py_max (t1 - t0) eps9
                  <= (tj - t0) / py_max (t1 - t0) eps9).
    { unfold Qdiv.
      pose proof (Qinv_lt_0_compat _ Hm). nra. }
    nra.
  - destruct (fouling_at_ramp t0 t1 kc kf ti Hk Hi) as (Hr & ->). nra.
Qed.

(** X22: the fouling profile of [build_profiles].  For a positive step and
    [k_clean <= k_fouled], the resistance series never decreases and stays
    between [k_clean] and [k_fouled]; it is [k_clean] before the ramp
    starts and [k_fouled] after it ends. *)
Theorem build_profiles_fouling {tr : FloatTrig}
    (H dt base amp fs fe kc kf : Q) (t Qd k : list Q) :
  0 < dt -> kc <= kf ->
  build_profiles H dt base amp fs fe kc kf = Ok (t, Qd, k) ->
  length k = length t /\
  forall i j, (i <= j < length t)%nat ->
    kc <= nth i k 0 /\ nth i k 0 <= nth j k 0 /\ nth j k 0 <= kf /\
    (nth i t 0 < fs * H -> nth i t 0 <= fe * H -> nth i k 0 = kc) /\
    (fe * H < nth i t 0 -> nth i k 0 = kf).
Proof.
  intros Hdt Hk. rewrite build_profiles_ok by lra. cbv zeta.
  intros [= <- _ <-].
  set (n := Z.to_nat (Qceiling ((H + eps9 - 0) / dt))).
  rewrite !length_fmap, length_seq. split; [reflexivity|].
  intros i j Hij.
  rewrite <- !list_fmap_compose.
  rewrite !nth_fmap_seq by lia. simpl.
  set (ti := 0 + inject_Z (Z.of_nat i) * dt).
  set (tj := 0 + inject_Z (Z.of_nat j) * dt).
  assert (Htij : ti <= tj).
  { unfold ti, tj.
    assert (Hz : inject_Z (Z.of_nat i) <= inject_Z (Z.of_nat j))
      by (rewrite <- Zle_Qle; lia).
    nra. }
  destruct (fouling_at_mono (fs * H) (fe * H) kc kf ti tj Hk Htij)
    as (H1 & H2 & H3).
  split; [exact H1|]. split; [exact H2|]. split; [exact H3|].
  split.
  - intros Ha Hb.
    destruct (fouling_at_cases (fs * H) (fe * H) kc kf ti)
      as [(_ & _ & ->)|[(Hc & _)|(Hc & _)]]; [reflexivity | lra | lra].
  - intros Ha.
    destruct (fouling_at_cases (fs * H) (fe * H) kc kf ti)
      as [(_ & Hc & _)|[(Hc & _)|(_ & ->)]]; [lra | lra | reflexivity].
Qed.

Lemma build_profiles_fouling_witness :
  exists t Qd k,
    build_profiles (tr := trig_clamp) 3600 1 300 75 (15 # 100) (85 # 100)
      k_clean k_fouled = Ok (t, Qd, k) /\
    length k = length t /\
    forall i j, (i <= j < length t)%nat ->
      k_clean <= nth i k 0 /\ nth i k 0 <= nth j k 0 /\
      nth j k 0 <= k_fouled /\
      (nth i t 0 < (15 # 100) * 3600 -> nth i t 0 <= (85 # 100) * 3600 ->
       nth i k 0 = k_clean) /\
      ((85 # 100) * 3600 < nth i t 0 -> nth i k 0 = k_fouled).
Proof.
  destruct (build_profiles_total (tr := trig_clamp) 3600 1 300 75 (15 # 100)
              (85 # 100) k_clean k_fouled) as (t & Qd & k & Hb & _);
    [lra|].
  exists t, Qd, k. split; [exact Hb|].
  apply (build_profiles_fouling (tr := trig_clamp) 3600 1 300 75 (15 # 100)
           (85 # 100) k_clean k_fouled t Qd k);
    [lra | unfold k_clean, k_fouled; lra | exact Hb].
Defined.

(** X23: the demand profile of [build_profiles] stays within
    [base ± amp].  (For a sine with values in [[-1, 1]], a non-negative
    amplitude and a non-zero horizon.) *)
Theorem build_profiles_demand_range {tr : FloatTrig}
    (H dt base amp fs fe kc kf : Q) (t Qd k : list Q) :
  (forall x, -1 <= fsin x <= 1) ->
  0 < dt -> ~ H == 0 -> 0 <= amp ->
  build_profiles H dt base amp fs fe kc kf = Ok (t, Qd, k) ->
  length Qd = length t /\
  Forall (fun q => base - amp <= q <= base + amp) Qd.
Proof.
  intros Hsin Hdt HH Hamp. rewrite build_profiles_ok by lra. cbv zeta.
  intros [= <- <- _]. rewrite !length_fmap. split; [reflexivity|].
  apply Forall_fmap, Forall_forall. intros ti _. simpl.
  specialize (Hsin (2 * fpi * ti / H)). nra.
Qed.

Lemma trig_clamp_range (x : Q) : -1 <= fsin (FloatTrig := trig_clamp) x <= 1.
Proof. simpl. apply np_clip_bounds. lra. Qed.

Lemma build_profiles_demand_range_witness :
  exists t Qd k,
    build_profiles (tr := trig_clamp) 3600 1 300 75 (15 # 100) (85 # 100)
      k_clean k_fouled = Ok (t, Qd, k) /\
    length Qd = length t /\
    Forall (fun q => 300 - 75 <= q <= 300 + 75) Qd.
Proof.
  destruct (build_profiles_total (tr := trig_clamp) 3600 1 300 75 (15 # 100)
              (85 # 100) k_clean k_fouled) as (t & Qd & k & Hb & _);
    [lra|].
  exists t, Qd, k. split; [exact Hb|].
  apply (build_profiles_demand_range (tr := trig_clamp) 3600 1 300 75
           (15 # 100) (85 # 100) k_clean k_fouled t Qd k);
    [exact trig_clamp_range | lra | lra | lra | exact Hb].
Defined.

(** ** main.py: the profiles fed to the simulation *)





(** ** report_summary.py *)

(** X25: the sign and range of the savings against the fixed strategy.
    The percentage is non-negative exactly when the strategy used no more
    energy than the fixed one, it is zero at equal energies, and it is at
    most 100 for a strategy with non-negative energy. *)
Theorem savings_vs_fixed_sign (m : AggMetrics) (wh_fixed : Q) :
  (0 <= _savings_vs_fixed m wh_fixed <-> Wh m <= wh_fixed) /\
  (Wh m == wh_fixed -> _savings_vs_fixed m wh_fixed == 0) /\
  (0 <= Wh m -> _savings_vs_fixed m wh_fixed <= 100).
Proof.
  unfold _savings_vs_fixed.
  pose proof (py_max_eps9_pos wh_fixed) as Hm.
  pose proof (py_max_ge_l wh_fixed eps9) as Hge.
  set (d := py_max wh_fixed eps9) in *.
  pose proof (Qinv_lt_0_compat d Hm) as Hinv.
  assert (Hone : d * / d == 1) by (field; lra).
  unfold Qdiv. set (i := / d) in *.
  split; [split|split].
  - intros Hs. nra.
  - intros Hle. nra.
  - intros ->. ring.
  - intros HW. nra.
Qed.

(** ** The mode strategy against the fixed strategy *)



Lemma first_min_le {A} (key : A -> Q) (l : list A) (z : A)
    (b a : list A) :
  first_min key l z b a -> forall y, y ∈ l -> key z <= key y.
Proof.
  intros (-> & Hb & Ha) y Hy.
  apply elem_of_app in Hy as [Hy|Hy].
  - pose proof (proj1 (Forall_forall _ _) Hb y Hy) as H. simpl in H. lra.
  - apply elem_of_cons in Hy as [->|Hy]; [lra|].
    exact (proj1 (Forall_forall _ _) Ha y Hy).
Qed.

Lemma first_max_ge {A} (key : A -> Q) (l : list A) (z : A)
    (b a : list A) :
  first_max key l z b a -> forall y, y ∈ l -> key y <= key z.
Proof.
  intros (-> & Hb & Ha) y Hy.
  apply elem_of_app in Hy as [Hy|Hy].
  - pose proof (proj1 (Forall_forall _ _) Hb y Hy) as H. simpl in H. lra.
  - apply elem_of_cons in Hy as [->|Hy]; [lra|].
    exact (proj1 (Forall_forall _ _) Ha y Hy).
Qed.













(** ** The default speed bounds *)

Lemma solve_rpm_for_Q_range {pw : FloatPow} (fan : FanCurve)
    (k Qt lo hi eps : Q) (iters : nat) (rpm Qop : Q) :
  lo <= hi ->
  solve_rpm_for_Q fan k Qt lo hi eps iters = Ok (rpm, Qop) ->
  lo <= rpm <= hi.
Proof.
  intros Hle Hs. apply solve_rpm_for_Q_traced_of in Hs as [tr Hs].
  apply solve_traced_inv in Hs
    as (Q_lo & Q_hi & _ & _ & [(_ & Hr & _)|[(_ & _ & Hr & _)|(_ & _ & Hb)]]).
  - injection Hr as -> _. lra.
  - injection Hr as -> _. lra.
  - now apply bisect_spec in Hb as (Hr & _).
Qed.

(** Without [rpm_bounds] the bounds are the least and the greatest of the
    mode speeds. *)
Lemma bounds_default (cfg : SimConfig) (lo hi : Q) :
  rpm_bounds cfg = None ->
  bounds cfg = Ok (lo, hi) ->
  lo ∈ speeds_rpm cfg /\ hi ∈ speeds_rpm cfg /\
  forall s, s ∈ speeds_rpm cfg -> lo <= s <= hi.
Proof.
  intros Hnone. unfold bounds. rewrite Hnone.
  destruct (speeds_rpm cfg) as [|x l] eqn:Hsp; [discriminate|].
  destruct (py_min_by_first id (x :: l)) as (z & b & a & Hmin & Hfmin);
    [discriminate|].
  destruct (py_max_by_first id (x :: l)) as (z' & b' & a' & Hmax & Hfmax);
    [discriminate|].
  rewrite Hmin, Hmax. cbn [mbind res_bind]. intros [= <- <-].
  split; [|split].
  - destruct Hfmin as (-> & _). apply elem_of_app. right. left.
  - destruct Hfmax as (-> & _). apply elem_of_app. right. left.
  - intros s Hs. split.
    + exact (first_min_le id _ _ _ _ Hfmin s Hs).
    + exact (first_max_ge id _ _ _ _ Hfmax s Hs).
Qed.

(** X28: the default speed bounds.  When [rpm_bounds] is not given, an
    empty list of mode speeds makes [run_time_sim] raise [ValueError]
    (whatever the series); otherwise, whenever it returns, the variable
    strategy stays in every frame between the least and the greatest of
    the mode speeds. *)
Theorem run_time_sim_default_bounds {pw : FloatPow} (fan : FanCurve)
    (t Qd k : list Q) (cfg : SimConfig) :
  rpm_bounds cfg = None ->
  (speeds_rpm cfg = [] -> run_time_sim fan t Qd k cfg = Raise ValueError) /\
  (forall df m,
     run_time_sim fan t Qd k cfg = Ok (df, m) ->
     exists lo hi,
       lo ∈ speeds_rpm cfg /\ hi ∈ speeds_rpm cfg /\
       (forall s, s ∈ speeds_rpm cfg -> lo <= s <= hi) /\
       forall fr, fr ∈ frames (df_data df) -> lo <= r_rpm (f_var fr) <= hi).
Proof.
  intros Hnone. split.
  - intros Hnil. unfold run_time_sim, bounds. rewrite Hnone, Hnil.
    reflexivity.
  - intros df m Hrun.
    destruct (run_time_sim_bounds fan t Qd k cfg _ Hrun) as (lo & hi & Hb).
    destruct (bounds_default cfg lo hi Hnone Hb) as (Hlo & Hhi & Hall).
    exists lo, hi. split; [exact Hlo|]. split; [exact Hhi|].
    split; [exact Hall|].
    intros fr Hfr.
    destruct (run_time_sim_results fan t Qd k cfg df m lo hi Hrun Hb fr Hfr)
      as (_ & _ & _ & _ & _ & H5 & _).
    apply (solve_rpm_for_Q_range _ _ _ _ _ _ _ _ _) in H5; [exact H5|].
    apply (Hall hi Hhi).
Qed.

Lemma run_time_sim_default_bounds_witness :
  let cfg := mkSimConfig [700; 800; 900; 1000] 900 40 1200 (22 # 100) 2
               (6 # 10) None 5 (4 # 10) in
  (speeds_rpm cfg = [] ->
   run_time_sim (pw := pow_int) demo_fan [0; 1] [300; 250]
     [k_clean; k_fouled] cfg = Raise ValueError) /\
  (forall df m,
     run_time_sim (pw := pow_int) demo_fan [0; 1] [300; 250]
       [k_clean; k_fouled] cfg = Ok (df, m) ->
     exists lo hi,
       lo ∈ speeds_rpm cfg /\ hi ∈ speeds_rpm cfg /\
       (forall s, s ∈ speeds_rpm cfg -> lo <= s <= hi) /\
       forall fr, fr ∈ frames (df_data df) -> lo <= r_rpm (f_var fr) <= hi).
Proof.
  intros cfg.
  exact (run_time_sim_default_bounds (pw := pow_int) demo_fan [0; 1]
           [300; 250] [k_clean; k_fouled] cfg eq_refl).
Defined.
